(** * A PKI trust engine: tag reader, DER chain splitting, trust store and
      chain verifier of node-opcua-crypto / node-opcua-pki.

    The development follows the TypeScript sources:
    - [Asn1]: [readTag] of node-opcua-crypto (module [./asn1], found in
      [source/common.ts]);
    - [Der]: [split_der] and [combine_der] of
      [source/crypto_explore_certificate.ts];
    - [Pki]: the [CertificateManager] class of node-opcua-pki
      (the certificate manager, [unnamed/part_001]), with
      [exploreCertificateInfo] and [readCertificateRevocationList] of
      node-opcua-crypto;
    - [PkiOps]: the operations of the manager that change the trust store
      ([trustCertificate], [rejectCertificate], [addIssuer]);
    - [Asn1Ops]: the readers of [source/common.ts] built on [readTag]
      ([_readStruct], [_readIntegerValue], [_readBitString],
      [formatBuffer2DigitHexWithColum]). *)

From Stdlib Require Import ZArith List Bool Lia.
From Stdlib Require Import Strings.String Strings.Byte.
From Stdlib Require Strings.HexString Numbers.DecimalString.
From stdpp Require Import gmap strings list fin_maps.
Import ListNotations.

Local Open Scope Z_scope.

(** ** Exceptions and results

    A JavaScript call either returns a value or throws; an [async] function
    either resolves or rejects; a node-style callback receives either
    [(null, value)] or [(err)].  The three are modelled by one sum type.
    [OutOfFuel] is not a JavaScript outcome: loops and recursions whose
    termination is not structural are run on a counter, and the theorems
    below show that the counter the definitions pass is never used up. *)

Inductive exn : Type :=
  | RangeError          (* Buffer access out of range *)
  | AssertionError      (* a failed [assert] *)
  | Error (msg : string).

Inductive result (A : Type) : Type :=
  | Ok (a : A)
  | Throw (e : exn)
  | OutOfFuel.          (* the iteration bound of a modelled loop was reached *)
Arguments Ok {A} a.
Arguments Throw {A} e.
Arguments OutOfFuel {A}.

#[global] Instance result_ret : MRet result := fun A a => Ok a.
#[global] Instance result_bind : MBind result := fun A B k r =>
  match r with
  | Ok a => k a
  | Throw e => Throw e
  | OutOfFuel => OutOfFuel
  end.

(** ** JavaScript numbers

    A JavaScript number is an IEEE-754 double.  All numbers of the modelled
    code are non-negative integers, represented here by [Z]; an integer below
    [2^53] is exactly representable, and the sum of two such integers is
    rounded to the nearest double, ties to the even significand.  (The
    products [length * 256] of [readTag] only shift the exponent and stay far
    below the largest double, so they are exact; positions in a buffer and
    the length of a buffer are below [2^53] and are computed exactly.) *)

Module JsNumber.

Definition MAX_SAFE : Z := 2 ^ 53.

(** nearest double of a non-negative integer *)
Definition round_double (z : Z) : Z :=
  if z <? MAX_SAFE then z
  else
    let e := Z.log2 z - 52 in
    let q := z / 2 ^ e in
    let r := z mod 2 ^ e in
    let half := 2 ^ (e - 1) in
    if r <? half then q * 2 ^ e
    else if half <? r then (q + 1) * 2 ^ e
    else if Z.even q then q * 2 ^ e else (q + 1) * 2 ^ e.

(** [a + b] on numbers *)
Definition add (a b : Z) : Z := round_double (a + b).

End JsNumber.

(** ** Buffers *)

Definition Buffer : Type := list byte.

Definition byte_val (b : byte) : Z := Z.of_N (Byte.to_N b).

Definition buf_length (buf : Buffer) : Z := Z.of_nat (length buf).

(** [buf.readUInt8(pos)]: throws when [pos] is outside the buffer *)
Definition readUInt8 (buf : Buffer) (pos : Z) : result Z :=
  if (0 <=? pos) && (pos <? buf_length buf) then
    match nth_error buf (Z.to_nat pos) with
    | Some b => Ok (byte_val b)
    | None => Throw RangeError
    end
  else Throw RangeError.

(** [buf.slice(start)] and [buf.slice(0, end)] for non-negative integer
    arguments; both clamp to the length of the buffer. *)
Definition slice_from (buf : Buffer) (start : Z) : Buffer :=
  skipn (Z.to_nat start) buf.
Definition slice_to (buf : Buffer) (stop : Z) : Buffer :=
  firstn (Z.to_nat stop) buf.

(** ** The tag reader (module [./asn1]) *)

Module Asn1.

Record BlockInfo : Type := mkBlockInfo {
  tag : Z;
  position : Z;
  length : Z
}.

(** the [for] loop of [readTag]: [nbBytes] further bytes are accumulated,
    most significant first *)
Fixpoint readLongLength (nbBytes : nat) (buf : Buffer) (pos length : Z)
  : result (Z * Z) :=
  match nbBytes with
  | O => Ok (pos, length)
  | S n =>
      b ← readUInt8 buf pos;
      readLongLength n buf (pos + 1) (JsNumber.add (length * 256) b)
  end.

Definition readTag (buf : Buffer) (pos : Z) : result BlockInfo :=
  if pos <? 0 then Throw AssertionError
  else if buf_length buf <=? pos then Throw (Error "Invalid position")
  else
    tag ← readUInt8 buf pos;
    let pos := pos + 1 in
    length ← readUInt8 buf pos;
    let pos := pos + 1 in
    if 127 <? length then
      let nbBytes := Z.land length 0x7f in
      '(pos, length) ← readLongLength (Z.to_nat nbBytes) buf pos 0;
      Ok (mkBlockInfo tag pos length)
    else Ok (mkBlockInfo tag pos length).

(** The integer written by a sequence of bytes, most significant first. *)
Definition big_endian (bytes : list byte) : Z :=
  fold_left (fun acc b => acc * 256 + byte_val b) bytes 0.

End Asn1.

(** ** Splitting and combining certificate chains
       (crypto_explore_certificate.ts) *)

Module Der.

Import Asn1.

(** The [do ... while] loop of [split_der]: every iteration that succeeds
    removes at least the two header bytes, so [S (length buffer)] iterations
    always suffice. *)
Fixpoint split_der_loop (fuel : nat) (certificateChain : Buffer)
  : result (list Buffer) :=
  match fuel with
  | O => OutOfFuel
  | S fuel' =>
      block_info ← readTag certificateChain 0;
      let length := JsNumber.add (position block_info) (Asn1.length block_info) in
      let der_certificate := slice_to certificateChain length in
      let certificateChain := slice_from certificateChain length in
      if 0 <? buf_length certificateChain then
        rest ← split_der_loop fuel' certificateChain;
        Ok (der_certificate :: rest)
      else Ok [der_certificate]
  end.

Definition split_der (certificateChain : Buffer) : result (list Buffer) :=
  split_der_loop (S (List.length certificateChain)) certificateChain.

(** the body of [b.forEach] in [combine_der]: checks one block and adds its
    length to [sum] *)
Fixpoint check_blocks (b : list Buffer) (sum : Z) : result Z :=
  match b with
  | [] => Ok sum
  | block :: b' =>
      block_info ← readTag block 0;
      if JsNumber.add (position block_info) (Asn1.length block_info)
           =? buf_length block
      then check_blocks b' (JsNumber.add sum (buf_length block))
      else Throw AssertionError
  end.

(** the sanity check of [combine_der], one certificate after the other *)
Fixpoint sanity_check (certificates : list Buffer) : result unit :=
  match certificates with
  | [] => Ok tt
  | cert :: certificates' =>
      b ← split_der cert;
      sum ← check_blocks b 0;
      if sum =? buf_length cert then sanity_check certificates'
      else Throw AssertionError
  end.

Definition combine_der (certificates : list Buffer) : result Buffer :=
  _ ← sanity_check certificates;
  Ok (concat certificates).

(** A top-level block is well formed when the extent its header declares,
    header included, is the block itself: this is the test [combine_der]
    asserts on every block. *)
Definition well_formed_block (block : Buffer) : Prop :=
  exists block_info,
    readTag block 0 = Ok block_info
    /\ JsNumber.add (position block_info) (Asn1.length block_info)
       = buf_length block.

End Der.

(** ** JavaScript values used by the certificate manager *)

(** The result of an optional chain [a?.b?.c] ending in a string field. *)
Inductive JsString : Type :=
  | Undefined
  | Null
  | Str (s : string).

(** [a === b] *)
Definition strict_eq (a b : JsString) : bool :=
  match a, b with
  | Undefined, Undefined => true
  | Null, Null => true
  | Str s, Str t => bool_decide (s = t)
  | _, _ => false
  end.

(** truthiness of a string-or-nullish value: only a non-empty string *)
Definition truthy (a : JsString) : bool :=
  match a with
  | Str s => negb (bool_decide (s = ""%string))
  | _ => false
  end.

(** A [Date]; [getTime()] of an invalid date is [NaN]. *)
Inductive Date : Type :=
  | DateOf (ms : Z)
  | InvalidDate.

Definition getTime (d : Date) : option Z :=
  match d with
  | DateOf ms => Some ms
  | InvalidDate => None
  end.

(** [a > b] and [a <= b] on numbers where [a] may be [NaN] ([None]):
    every comparison with [NaN] is false. *)
Definition num_gt (a : option Z) (b : Z) : bool :=
  match a with Some x => b <? x | None => false end.
Definition num_le (a : option Z) (b : Z) : bool :=
  match a with Some x => x <=? b | None => false end.

(** A plain object used as a dictionary.  Its keys here are SHA-1 digests in
    hexadecimal, which are never array indices, so [Object.values] lists the
    values in insertion order; assigning an existing key keeps its place. *)
Definition JsObject (V : Type) : Type := list (string * V).

Fixpoint obj_get {V} (o : JsObject V) (k : string) : option V :=
  match o with
  | [] => None
  | (k', v) :: o' => if bool_decide (k' = k) then Some v else obj_get o' k
  end.

(** [Object.prototype.hasOwnProperty.call(o, k)] *)
Definition obj_has {V} (o : JsObject V) (k : string) : bool :=
  match obj_get o k with Some _ => true | None => false end.

(** [o[k] = v] *)
Fixpoint obj_set {V} (o : JsObject V) (k : string) (v : V) : JsObject V :=
  match o with
  | [] => [(k, v)]
  | (k', v') :: o' =>
      if bool_decide (k' = k) then (k', v) :: o' else (k', v') :: obj_set o' k v
  end.

(** [Object.values(o)] *)
Definition obj_values {V} (o : JsObject V) : list V := map snd o.

(** ** The certificate manager *)

Module Pki.

(** *** Parsed certificates and revocation lists
        (the fields the manager reads) *)

Record AuthorityKeyIdentifier : Type := mkAuthorityKeyIdentifier {
  keyIdentifier : option string;                 (* string | null *)
  authorityCertIssuerFingerPrint : string;
  serial : option string                         (* string | null *)
}.

Record CertificateExtension : Type := mkCertificateExtension {
  subjectKeyIdentifier : option string;                     (* optional field *)
  authorityKeyIdentifier : option AuthorityKeyIdentifier    (* optional field *)
}.

Record Validity : Type := mkValidity {
  notBefore : Date;
  notAfter : Date
}.

Record TbsCertificate : Type := mkTbsCertificate {
  serialNumber : string;
  validity : Validity;
  commonName : option string;                    (* subject.commonName? *)
  subjectFingerPrint : string;
  keyLength : Z;                                 (* subjectPublicKeyInfo.keyLength *)
  extensions : option CertificateExtension       (* CertificateExtension | null *)
}.

Record CertificateInternals : Type := mkCertificateInternals {
  tbsCertificate : TbsCertificate
}.

Record CertificateInfo : Type := mkCertificateInfo {
  publicKeyLength : Z;
  info_notBefore : Date;
  info_notAfter : Date
}.

Record RevokedCertificate : Type := mkRevokedCertificate {
  userCertificate : string;
  revocationDate : Date
}.

Record TBSCertList : Type := mkTBSCertList {
  issuerFingerprint : string;
  revokedCertificates : list RevokedCertificate
}.

Record CertificateRevocationListInfo : Type := mkCertificateRevocationListInfo {
  tbsCertList : TBSCertList
}.

(** *** Verdicts and states *)

Inductive VerificationStatus : Type :=
  | BadCertificateInvalid
  | BadSecurityChecksFailed
  | BadCertificatePolicyCheckFailed
  | BadCertificateTimeInvalid
  | BadCertificateIssuerTimeInvalid
  | BadCertificateHostNameInvalid
  | BadCertificateUriInvalid
  | BadCertificateUseNotAllowed
  | BadCertificateIssuerUseNotAllowed
  | BadCertificateUntrusted
  | BadCertificateRevocationUnknown
  | BadCertificateIssuerRevocationUnknown
  | BadCertificateRevoked
  | BadCertificateIssuerRevoked
  | BadCertificateChainIncomplete
  | Good.

#[global] Instance VerificationStatus_eq_dec : EqDecision VerificationStatus.
Proof. solve_decision. Defined.

Inductive CertificateStatus : Type := unknown | trusted | rejected.

Inductive CertificateManagerState : Type :=
  | Uninitialized | Initializing | Initialized | Disposing | Disposed.

(** *** The store *)

Record Entry : Type := mkEntry {
  entry_certificate : Buffer;
  entry_filename : string
}.

Record CRLEntry : Type := mkCRLEntry {
  crlInfo : CertificateRevocationListInfo;
  crl_filename : string
}.

Record CRLData : Type := mkCRLData {
  serialNumbers : gmap string Date;
  crls : list CRLEntry
}.

Record Thumbs : Type := mkThumbs {
  thumbs_trusted : JsObject Entry;
  thumbs_rejected : JsObject Entry;
  thumbs_issuers_certs : JsObject Entry;
  thumbs_crl : gmap string CRLData;
  thumbs_issuersCrl : gmap string CRLData
}.

(** the two CRL indices a queue item may point to *)
Inductive CrlIndex : Type := IndexCrl | IndexIssuersCrl.

#[global] Instance CrlIndex_eq_dec : EqDecision CrlIndex.
Proof. solve_decision. Defined.

Record QueueItem : Type := mkQueueItem {
  index : CrlIndex;
  item_filename : string
}.

(** The files the manager sees; a write to a path of [unwritable] fails. *)
Record FileSystem : Type := mkFileSystem {
  files : gmap string Buffer;
  unwritable : gset string
}.

Record Store : Type := mkStore {
  untrustUnknownCertificate : bool;
  state : CertificateManagerState;
  location : string;
  _readCertificatesCalled : bool;
  _thumbs : Thumbs;
  _pending_crl_to_process : Z;
  _on_crl_process : bool;                (* a waiter is registered *)
  queue : list QueueItem;
  fs : FileSystem
}.

(** A method of the manager: reads and updates the store, and returns or
    throws.  Updates made before a throw persist. *)
Definition M (A : Type) : Type := Store -> result A * Store.

#[global] Instance M_ret : MRet M := fun A a st => (Ok a, st).
#[global] Instance M_bind : MBind M := fun A B k m st =>
  match m st with
  | (Ok a, st') => k a st'
  | (Throw e, st') => (Throw e, st')
  | (OutOfFuel, st') => (OutOfFuel, st')
  end.

(** a computation that does not touch the store *)
Definition lift {A} (r : result A) : M A := fun st => (r, st).
(** a computation that only reads the store *)
Definition reads {A} (f : Store -> result A) : M A := fun st => (f st, st).

(** *** What the manager takes from its collaborators

    The X.509 decoder needs SHA-1 and the OID table, the signature check and
    the digest are the host's [crypto] module, file names are built by the
    host's [path] module, and the directory walk is driven by file-system
    events: the manager is verified for any behaviour of these. *)
Class Collaborators : Type := {
  exploreCertificate : Buffer -> result CertificateInternals;
  exploreCertificateRevocationList : Buffer -> result CertificateRevocationListInfo;
  makeFingerprint : Buffer -> string;
  verifyCertificateSignature : Buffer -> Buffer -> result bool;
  toPem : Buffer -> string -> string;
  convertPEMtoDER : string -> result Buffer;
  path_join : string -> string -> string;
  (** [dumpCertificate(filename, callback)] of toolbox.ts, up to its return:
      it asserts that the file exists and starts openssl, whose output goes
      to a callback that only logs it; none of this is part of the store *)
  dumpCertificate : string -> result unit;
  (** the reading of [new Date()] taken by the verification call at a level *)
  now : nat -> Z;
  (** [_initialize]: the folders and the lock, ... *)
  prepareFolders : Store -> result unit * Store;
  (** ... then the configuration file and the private key *)
  preparePrivateKey : Store -> result unit * Store;
  (** the five directory walks of [_readCertificates] and the wait for the
      CRL queue *)
  walkFolders : Store -> result unit * Store
}.

(** *** Field updates of the store *)

Definition set_state (s : CertificateManagerState) (st : Store) : Store :=
  mkStore (untrustUnknownCertificate st) s (location st)
    (_readCertificatesCalled st) (_thumbs st) (_pending_crl_to_process st)
    (_on_crl_process st) (queue st) (fs st).

Definition set_readCertificatesCalled (b : bool) (st : Store) : Store :=
  mkStore (untrustUnknownCertificate st) (state st) (location st)
    b (_thumbs st) (_pending_crl_to_process st)
    (_on_crl_process st) (queue st) (fs st).

Definition set_thumbs (t : Thumbs) (st : Store) : Store :=
  mkStore (untrustUnknownCertificate st) (state st) (location st)
    (_readCertificatesCalled st) t (_pending_crl_to_process st)
    (_on_crl_process st) (queue st) (fs st).

Definition set_pending (n : Z) (st : Store) : Store :=
  mkStore (untrustUnknownCertificate st) (state st) (location st)
    (_readCertificatesCalled st) (_thumbs st) n
    (_on_crl_process st) (queue st) (fs st).

Definition set_on_crl_process (b : bool) (st : Store) : Store :=
  mkStore (untrustUnknownCertificate st) (state st) (location st)
    (_readCertificatesCalled st) (_thumbs st) (_pending_crl_to_process st)
    b (queue st) (fs st).

Definition set_queue (q : list QueueItem) (st : Store) : Store :=
  mkStore (untrustUnknownCertificate st) (state st) (location st)
    (_readCertificatesCalled st) (_thumbs st) (_pending_crl_to_process st)
    (_on_crl_process st) q (fs st).

Definition set_fs (f : FileSystem) (st : Store) : Store :=
  mkStore (untrustUnknownCertificate st) (state st) (location st)
    (_readCertificatesCalled st) (_thumbs st) (_pending_crl_to_process st)
    (_on_crl_process st) (queue st) f.

Definition set_rejected (o : JsObject Entry) (t : Thumbs) : Thumbs :=
  mkThumbs (thumbs_trusted t) o (thumbs_issuers_certs t) (thumbs_crl t)
    (thumbs_issuersCrl t).

Definition get_index (i : CrlIndex) (t : Thumbs) : gmap string CRLData :=
  match i with
  | IndexCrl => thumbs_crl t
  | IndexIssuersCrl => thumbs_issuersCrl t
  end.

Definition set_index (i : CrlIndex) (m : gmap string CRLData) (t : Thumbs)
  : Thumbs :=
  match i with
  | IndexCrl =>
      mkThumbs (thumbs_trusted t) (thumbs_rejected t) (thumbs_issuers_certs t)
        m (thumbs_issuersCrl t)
  | IndexIssuersCrl =>
      mkThumbs (thumbs_trusted t) (thumbs_rejected t) (thumbs_issuers_certs t)
        (thumbs_crl t) m
  end.

(** *** The file system *)

(** [fs.writeFile(filename, data, callback)] *)
Definition fs_writeFile (f : FileSystem) (name : string) (data : Buffer)
  : result unit * FileSystem :=
  if bool_decide (name ∈ unwritable f) then (Throw (Error "EACCES"), f)
  else (Ok tt, mkFileSystem (<[name := data]> (files f)) (unwritable f)).

(** [fs.readFile(filename)] *)
Definition fs_readFile (f : FileSystem) (name : string) : result Buffer :=
  match files f !! name with
  | Some data => Ok data
  | None => Throw (Error "ENOENT")
  end.

Section Manager.

Context `{Collaborators}.

(** *** explore_certificate.ts *)

Definition exploreCertificateInfo (certificate : Buffer)
  : result CertificateInfo :=
  certInfo ← exploreCertificate certificate;
  let data :=
    mkCertificateInfo
      (keyLength (tbsCertificate certInfo))
      (notBefore (validity (tbsCertificate certInfo)))
      (notAfter (validity (tbsCertificate certInfo))) in
  if negb ((publicKeyLength data =? 512) || (publicKeyLength data =? 384)
           || (publicKeyLength data =? 256) || (publicKeyLength data =? 128))
  then Throw (Error "Invalid public key length")
  else Ok data.

(** *** read_certificate_revocation_list.ts *)

Definition readCertificateRevocationList (f : FileSystem) (name : string)
  : result Buffer :=
  crl ← fs_readFile f name;
  match crl with
  | x30 :: x82 :: _ => Ok crl
  | _ => convertPEMtoDER (string_of_list_byte crl)
  end.

(** *** Helpers of the certificate manager *)

(** [info.tbsCertificate.extensions?.subjectKeyIdentifier] *)
Definition ext_subjectKeyIdentifier (info : CertificateInternals) : JsString :=
  match extensions (tbsCertificate info) with
  | None => Undefined
  | Some ext =>
      match subjectKeyIdentifier ext with
      | None => Undefined
      | Some s => Str s
      end
  end.

(** [info.tbsCertificate.extensions?.authorityKeyIdentifier?.keyIdentifier] *)
Definition ext_authorityKeyIdentifier_keyIdentifier
  (info : CertificateInternals) : JsString :=
  match extensions (tbsCertificate info) with
  | None => Undefined
  | Some ext =>
      match authorityKeyIdentifier ext with
      | None => Undefined
      | Some aki =>
          match keyIdentifier aki with
          | None => Null
          | Some s => Str s
          end
      end
  end.

(** [info.tbsCertificate.extensions?.authorityKeyIdentifier?.serial] *)
Definition ext_authorityKeyIdentifier_serial
  (info : CertificateInternals) : JsString :=
  match extensions (tbsCertificate info) with
  | None => Undefined
  | Some ext =>
      match authorityKeyIdentifier ext with
      | None => Undefined
      | Some aki =>
          match serial aki with
          | None => Null
          | Some s => Str s
          end
      end
  end.

(** [...?.authorityKeyIdentifier?.authorityCertIssuerFingerPrint] *)
Definition ext_authorityCertIssuerFingerPrint
  (info : CertificateInternals) : JsString :=
  match extensions (tbsCertificate info) with
  | None => Undefined
  | Some ext =>
      match authorityKeyIdentifier ext with
      | None => Undefined
      | Some aki => Str (authorityCertIssuerFingerPrint aki)
      end
  end.

(** [a || b] where [b] is a string *)
Definition or_else (a : JsString) (b : string) : string :=
  match a with
  | Str s => if truthy a then s else b
  | _ => b
  end.

Definition buildIdealCertificateName (certificate : Buffer) : string :=
  let fingerprint := makeFingerprint certificate in
  match exploreCertificate certificate with
  | Ok info =>
      let commonName :=
        match commonName (tbsCertificate info) with
        | Some s => s
        | None => ""
        end in
      commonName ++ "[" ++ fingerprint ++ "]"
  | _ => "invalid_certificate_[" ++ fingerprint ++ "]"
  end%string.

(** The name built above goes into [path.join] as it is.  A name is a single
    path segment when it holds no separator (slash 47, backslash 92) and is
    none of the names [path.join] resolves; [path.join(folder, name)] is then
    the file of that name directly in the folder. *)
Definition plainFileName (name : string) : bool :=
  negb (String.eqb name "" || String.eqb name "." || String.eqb name "..")
  && forallb
       (fun c =>
          negb (Ascii.eqb c (Ascii.ascii_of_nat 47)
                || Ascii.eqb c (Ascii.ascii_of_nat 92)))
       (list_ascii_of_string name).


Fixpoint findMatchingIssuerKey (entries : list Entry) (wantedIssuerKey : string)
  : result (list Entry) :=
  match entries with
  | [] => Ok []
  | entry :: entries' =>
      info ← exploreCertificate (entry_certificate entry);
      selected ← findMatchingIssuerKey entries' wantedIssuerKey;
      let keep :=
        match extensions (tbsCertificate info) with
        | Some _ => strict_eq (ext_subjectKeyIdentifier info) (Str wantedIssuerKey)
        | None => false
        end in
      Ok (if keep then entry :: selected else selected)
  end.

Definition isSelfSigned2 (info : CertificateInternals) : bool :=
  strict_eq (ext_subjectKeyIdentifier info)
            (ext_authorityKeyIdentifier_keyIdentifier info).

Definition isSelfSigned3 (certificate : Buffer) : result bool :=
  info ← exploreCertificate certificate;
  Ok (isSelfSigned2 info).

Definition rejectedFolder (st : Store) : string :=
  path_join (location st) "rejected".

(** *** Populating the index *)

Definition _readCertificates : M unit := fun st =>
  if _readCertificatesCalled st then (Ok tt, st)
  else walkFolders (set_readCertificatesCalled true st).

(** [_initialize]: under the lock the state must be [Initializing] (or
    [Disposed], and nothing is done); the private key is made if need be, and
    the index is read.  The callback of [_readCertificates] drops its
    error. *)
Definition _initialize : M unit := fun st =>
  let st := set_state Initializing st in
  match prepareFolders st with
  | (Ok _, st1) =>
      match state st1 with
      | Disposed => (Ok tt, st1)
      | Initializing =>
          match preparePrivateKey st1 with
          | (Ok _, st2) =>
              let '(_, st3) := _readCertificates st2 in (Ok tt, st3)
          | (Throw e, st2) => (Throw e, st2)
          | (OutOfFuel, st2) => (OutOfFuel, st2)
          end
      | _ => (Throw AssertionError, st1)
      end
  | (Throw e, st1) => (Throw e, st1)
  | (OutOfFuel, st1) => (OutOfFuel, st1)
  end.

Definition initialize : M unit := fun st =>
  match state st with
  | Uninitialized =>
      let st := set_state Initializing st in
      let '(err, st1) := _initialize st in
      (err, set_state Initialized st1)
  | _ => (Ok tt, st)
  end.

Definition _checkRejectedOrTrusted (certificate : Buffer) : M CertificateStatus :=
  let fingerprint := makeFingerprint certificate in
  _ ← _readCertificates;
  reads (fun st =>
    if obj_has (thumbs_rejected (_thumbs st)) fingerprint then Ok rejected
    else if obj_has (thumbs_trusted (_thumbs st)) fingerprint then Ok trusted
    else Ok unknown).

(** *** [getCertificateStatus]

    The callback handed to [initialize] takes no argument, so an error of the
    initialisation is dropped.  The callback of [fs.writeFile] records the
    entry before it looks at the error. *)
Definition getCertificateStatus (certificate : Buffer) : M CertificateStatus :=
  fun st =>
  let '(_, st) := initialize st in
  (status ← _checkRejectedOrTrusted certificate;
   match status return M CertificateStatus with
   | unknown => fun st =>
       let pem := toPem certificate "CERTIFICATE" in
       let fingerprint := makeFingerprint certificate in
       let filename :=
         path_join (rejectedFolder st)
                   (buildIdealCertificateName certificate ++ ".pem") in
       let '(err, fs') := fs_writeFile (fs st) filename (list_byte_of_string pem) in
       let st := set_fs fs' st in
       let st :=
         set_thumbs
           (set_rejected
              (obj_set (thumbs_rejected (_thumbs st)) fingerprint
                       (mkEntry certificate filename))
              (_thumbs st)) st in
       match err with
       | Ok _ => (Ok rejected, st)
       | Throw e => (Throw e, st)
       | OutOfFuel => (OutOfFuel, st)
       end
   | _ => mret status
   end) st.

(** *** [isCertificateTrusted]

    It returns one of the strings "Good", "BadCertificateInvalid" and
    "BadCertificateUntrusted", written here as the verdicts of these names. *)
Definition isCertificateTrusted (certificate : Buffer) : M VerificationStatus :=
  fun st =>
  let fingerprint := makeFingerprint certificate in
  match obj_get (thumbs_trusted (_thumbs st)) fingerprint with
  | Some _ => (Ok Good, st)
  | None =>
      match obj_get (thumbs_rejected (_thumbs st)) fingerprint with
      | Some _ => (Ok BadCertificateUntrusted, st)
      | None =>
          let certificateFilenameInRejected :=
            path_join (rejectedFolder st)
                      (buildIdealCertificateName certificate ++ ".pem") in
          if negb (untrustUnknownCertificate st) then (Ok Good, st)
          else
            match exploreCertificateInfo certificate with
            | Ok _ =>
                let '(err, fs') :=
                  fs_writeFile (fs st) certificateFilenameInRejected
                    (list_byte_of_string (toPem certificate "CERTIFICATE")) in
                match err with
                | Ok _ => (Ok BadCertificateUntrusted, set_fs fs' st)
                | Throw e => (Throw e, set_fs fs' st)
                | OutOfFuel => (OutOfFuel, set_fs fs' st)
                end
            | _ => (Ok BadCertificateInvalid, st)
            end
      end
  end.

(** *** Issuers and revocation *)

(** the [for] loop over the trusted certificates that match, run when there
    are two or more: a call of [dumpCertificate] that throws ends the search *)
Fixpoint dumpCertificates (entries : list Entry) : result unit :=
  match entries with
  | [] => Ok tt
  | entry :: entries' =>
      _ ← dumpCertificate (entry_filename entry);
      dumpCertificates entries'
  end.

Definition findIssuerCertificate (t : Thumbs) (certificate : Buffer)
  : result (option Buffer) :=
  certInfo ← exploreCertificate certificate;
  if isSelfSigned2 certInfo then Ok (Some certificate)
  else
    let wantedIssuerKey := ext_authorityKeyIdentifier_keyIdentifier certInfo in
    match wantedIssuerKey with
    | Str wanted =>
        if negb (truthy wantedIssuerKey) then Ok None
        else
          let issuerCertificates := obj_values (thumbs_issuers_certs t) in
          selectedIssuerCertificates ←
            findMatchingIssuerKey issuerCertificates wanted;
          match selectedIssuerCertificates with
          | entry :: _ => Ok (Some (entry_certificate entry))
          | [] =>
              let trustedCertificates := obj_values (thumbs_trusted t) in
              selectedTrustedCertificates ←
                findMatchingIssuerKey trustedCertificates wanted;
              _ ← (if (1 <? List.length selectedTrustedCertificates)%nat
                   then dumpCertificates selectedTrustedCertificates
                   else Ok tt);
              match selectedTrustedCertificates with
              | entry :: _ => Ok (Some (entry_certificate entry))
              | [] => Ok None
              end
          end
    | _ => Ok None
    end.

Definition _findAssociatedCRLs (t : Thumbs) (issuerCertificate : Buffer)
  : result (option CRLData) :=
  issuerCertificateInfo ← exploreCertificate issuerCertificate;
  let key := subjectFingerPrint (tbsCertificate issuerCertificateInfo) in
  match thumbs_issuersCrl t !! key with
  | Some data => Ok (Some data)
  | None =>
      match thumbs_crl t !! key with
      | Some data => Ok (Some data)
      | None => Ok None
      end
  end.

(** the serial number [isCertificateRevoked] looks up:
    [serialNumber || authorityKeyIdentifier?.serial || ""] *)
Definition lookedUpSerialNumber (certInfo : CertificateInternals) : string :=
  or_else (Str (serialNumber (tbsCertificate certInfo)))
          (or_else (ext_authorityKeyIdentifier_serial certInfo) "").

(** the key of the second index [isCertificateRevoked] consults:
    [authorityCertIssuerFingerPrint || "<unknown>"] *)
Definition lookedUpCrlKey (certInfo : CertificateInternals) : string :=
  or_else (ext_authorityCertIssuerFingerPrint certInfo) "<unknown>".

(** [data.serialNumbers[serialNumber]] is truthy: the values are [Date]
    objects, and the keys are colon-separated hexadecimal strings, never the
    name of a member of [Object.prototype]. *)
Definition listsSerial (data : CRLData) (serialNumber : string) : bool :=
  bool_decide (is_Some (serialNumbers data !! serialNumber)).

Definition isCertificateRevoked (t : Thumbs) (certificate : Buffer)
  (issuerCertificate : option Buffer) : result VerificationStatus :=
  isSelfSigned3 certificate ≫= λ selfSigned : bool,
  if selfSigned then Ok Good
  else
    issuerCertificate ←
      match issuerCertificate with
      | Some c => Ok (Some c)
      | None => findIssuerCertificate t certificate
      end;
    match issuerCertificate with
    | None => Ok BadCertificateChainIncomplete
    | Some issuerCertificate =>
        crls ← _findAssociatedCRLs t issuerCertificate;
        match crls with
        | None => Ok BadCertificateRevocationUnknown
        | Some crls =>
            certInfo ← exploreCertificate certificate;
            let serialNumber := lookedUpSerialNumber certInfo in
            let key := lookedUpCrlKey certInfo in
            let crl2 := thumbs_crl t !! key in
            if listsSerial crls serialNumber
               || match crl2 with
                  | Some crl2 => listsSerial crl2 serialNumber
                  | None => false
                  end
            then Ok BadCertificateRevoked
            else Ok Good
        end
    end.

(** *** The chain verifier *)

(** What the part of [_innerVerifyCertificateAsync] that deals with the
    issuer leaves behind: a verdict returned at once, or the two flags
    [hasValidIssuer] and [hasTrustedIssuer] for the rest of the body. *)
Inductive IssuerCheck : Type :=
  | Return (verdict : VerificationStatus)
  | Continue (hasValidIssuer hasTrustedIssuer : bool).

(** [if (hasIssuerKey) { ... }], with [rec] for the recursive call *)
Definition checkIssuer
  (rec : Buffer -> bool -> nat -> M VerificationStatus)
  (certificate chain0 : Buffer) (info : CertificateInternals) (level : nat)
  : M IssuerCheck :=
  let hasIssuerKey := ext_authorityKeyIdentifier_keyIdentifier info in
  if truthy hasIssuerKey then
    let isSelfSigned := isSelfSigned2 info in
    if negb isSelfSigned then
      issuerCertificate ← reads (fun st => findIssuerCertificate (_thumbs st) chain0);
      match issuerCertificate with
      | None => mret (Return BadSecurityChecksFailed)
      | Some issuerCertificate =>
          issuerStatus ← rec issuerCertificate true (level + 1)%nat;
          if bool_decide (issuerStatus = BadCertificateRevocationUnknown) then
            mret (Return BadCertificateIssuerRevocationUnknown)
          else if bool_decide (issuerStatus = BadCertificateIssuerRevocationUnknown) then
            mret (Return BadCertificateIssuerRevocationUnknown)
          else if bool_decide (issuerStatus = BadCertificateTimeInvalid) then
            mret (Return BadCertificateIssuerTimeInvalid)
          else if bool_decide (issuerStatus ≠ Good)
                  && bool_decide (issuerStatus ≠ BadCertificateUntrusted) then
            mret (Return BadSecurityChecksFailed)
          else
            lift (verifyCertificateSignature certificate issuerCertificate)
              ≫= λ isCertificateSignatureOK : bool,
            if negb isCertificateSignatureOK then
              mret (Return BadSecurityChecksFailed)
            else
              revokedStatus ←
                reads (fun st => isCertificateRevoked (_thumbs st) certificate None);
              if bool_decide (revokedStatus = BadCertificateRevocationUnknown) then
                mret (Return BadCertificateRevocationUnknown)
              else if bool_decide (revokedStatus ≠ Good) then
                mret (Return revokedStatus)
              else
                issuerTrustedStatus ← _checkRejectedOrTrusted issuerCertificate;
                match issuerTrustedStatus with
                | unknown => mret (Continue true false)
                | trusted => mret (Continue true true)
                | rejected => mret (Return BadSecurityChecksFailed)
                end
      end
    else
      lift (verifyCertificateSignature certificate certificate)
        ≫= λ isCertificateSignatureOK : bool,
      if negb isCertificateSignatureOK then
        mret (Return BadSecurityChecksFailed)
      else
        _ ← reads (fun st => isCertificateRevoked (_thumbs st) certificate None);
        mret (Continue false false)
  else mret (Continue false false).

(** the two date tests of the body *)
Definition isTimeInvalid (certificateInfo : CertificateInfo) (now : Z) : bool :=
  num_gt (getTime (info_notBefore certificateInfo)) now
  || num_le (getTime (info_notAfter certificateInfo)) now.

(** [const c2 = chain[1] ? exploreCertificateInfo(chain[1]) : "non"]: the
    value is not used, but the call may throw. *)
Definition exploreSecond (chain : list Buffer) : result unit :=
  match chain with
  | _ :: c1 :: _ => _ ← exploreCertificateInfo c1; Ok tt
  | _ => Ok tt
  end.

(** the body of [_innerVerifyCertificateAsync], with [rec] for the
    recursive call *)
Definition verify_body
  (rec : Buffer -> bool -> nat -> M VerificationStatus)
  (certificate : Buffer) (isIssuer : bool) (level : nat)
  : M VerificationStatus :=
  if (5 <=? level)%nat then mret BadSecurityChecksFailed
  else
    chain ← lift (Der.split_der certificate);
    chain0 ← lift (match chain with
                   | c :: _ => Ok c
                   | [] => Throw AssertionError
                   end);
    info ← lift (exploreCertificate chain0);
    let hasIssuerKey := ext_authorityKeyIdentifier_keyIdentifier info in
    issuer ← checkIssuer rec certificate chain0 info level;
    match issuer with
    | Return verdict => mret verdict
    | Continue hasValidIssuer hasTrustedIssuer =>
        status ← _checkRejectedOrTrusted certificate;
        match status with
        | rejected => mret BadCertificateUntrusted
        | _ =>
            _ ← lift (exploreSecond chain);
            certificateInfo ← lift (exploreCertificateInfo certificate);
            let isTimeInvalid := isTimeInvalid certificateInfo (now level) in
            match status with
            | trusted =>
                mret (if isTimeInvalid then BadCertificateTimeInvalid else Good)
            | _ =>
                if truthy hasIssuerKey then
                  if negb hasTrustedIssuer then mret BadCertificateUntrusted
                  else if negb hasValidIssuer then mret BadCertificateUntrusted
                  else mret (if isTimeInvalid then BadCertificateTimeInvalid
                             else Good)
                else mret BadCertificateUntrusted
            end
        end
    end.

(** The recursion of [_innerVerifyCertificateAsync] goes from [level] to
    [level + 1] and stops at 5; it is run on a counter. *)
Fixpoint innerVerify (fuel : nat)
  : Buffer -> bool -> nat -> M VerificationStatus :=
  match fuel with
  | O => fun _ _ _ st => (OutOfFuel, st)
  | S fuel' => verify_body (innerVerify fuel')
  end.

Definition _innerVerifyCertificateAsync
  (certificate : Buffer) (isIssuer : bool) (level : nat)
  : M VerificationStatus :=
  innerVerify (S (5 - level)) certificate isIssuer level.

Definition verifyCertificateAsync (certificate : Buffer) : M VerificationStatus :=
  _innerVerifyCertificateAsync certificate false 0.

(** [verifyCertificate]; [None] is a null or missing certificate.  The
    verdict is handed to the callback, a rejection of
    [verifyCertificateAsync] becomes the callback's error. *)
Definition verifyCertificate (certificate : option Buffer)
  : M VerificationStatus :=
  match certificate with
  | None => mret BadSecurityChecksFailed
  | Some certificate => verifyCertificateAsync certificate
  end.

(** *** The CRL queue *)

(** [if (!serialNumbers[serialNumber]) serialNumbers[serialNumber] = date] *)
Definition injectSerialNumber (serialNumbers : gmap string Date)
  (revokedCertificate : RevokedCertificate) : gmap string Date :=
  let serialNumber := userCertificate revokedCertificate in
  match serialNumbers !! serialNumber with
  | Some _ => serialNumbers
  | None => <[serialNumber := revocationDate revokedCertificate]> serialNumbers
  end.

(** the statements of the [try] block after the CRL has been decoded *)
Definition indexCrl (crlInfo : CertificateRevocationListInfo)
  (filename : string) (index : gmap string CRLData) : gmap string CRLData :=
  let fingerprint := issuerFingerprint (tbsCertList crlInfo) in
  let data :=
    match index !! fingerprint with
    | Some data => data
    | None => mkCRLData ∅ []
    end in
  let crls := crls data ++ [mkCRLEntry crlInfo filename] in
  let serialNumbers :=
    fold_left injectSerialNumber
      (revokedCertificates (tbsCertList crlInfo)) (serialNumbers data) in
  <[fingerprint := mkCRLData serialNumbers crls]> index.

(** the statements of the [try] block after the [await]: [read] is what the
    [await] comes back with, the content of the file or the failure to read
    it; a failure to read or to decode is dropped by the [catch] *)
Definition indexReadCrl (item : QueueItem) (read : result Buffer) (st : Store)
  : Store :=
  match crl ← read; exploreCertificateRevocationList crl with
  | Ok crlInfo =>
      let index' :=
        indexCrl crlInfo (item_filename item)
                 (get_index (index item) (_thumbs st)) in
      set_thumbs (set_index (index item) index' (_thumbs st)) st
  | _ => st
  end.

(** the [try { ... } catch] of [_process_next_crl] as a whole, the file being
    read as it is when the item is taken off the queue *)
Definition processQueueHead (st : Store) : Store :=
  match queue st with
  | [] => st
  | item :: queue' =>
      let st := set_queue queue' st in
      indexReadCrl item
        (readCertificateRevocationList (fs st) (item_filename item)) st
  end.

(** *** The calls of [_process_next_crl]

    [_process_next_crl] is an [async] function.  A call runs until its
    [await], where it waits for the file of the item it has taken off the
    queue, and hands back its promise; it is resumed when the file has been
    read.  Nobody awaits that promise: [_on_crl_file_added] and the call
    before it start the call and go on.  A call that has been started is
    described by what it waits for: [Some item] while it waits for the file
    of [item], [None] when it has run to its end. *)

(** the end of a call, after the [try ... catch]; [next] is the call that is
    started, and not awaited, when items are still pending *)
Definition finish_crl (next : M (option QueueItem)) : M (option QueueItem) :=
  fun st =>
  let st := set_pending (_pending_crl_to_process st - 1) st in
  if _pending_crl_to_process st =? 0 then
    (Ok None, if _on_crl_process st then set_on_crl_process false st else st)
  else next st.

(** a call from its start to its [await].  On an empty queue the
    destructuring of [this.queue.shift()] throws inside the [try], and the
    call runs to its end at once; the calls it starts in turn are counted. *)
Fixpoint process_next_crl (fuel : nat) : M (option QueueItem) := fun st =>
  match fuel with
  | O => (OutOfFuel, st)
  | S fuel' =>
      match queue st with
      | item :: queue' => (Ok (Some item), set_queue queue' st)
      | [] => finish_crl (process_next_crl fuel') st
      end
  end.

Definition _process_next_crl : M (option QueueItem) := fun st =>
  process_next_crl (S (Z.to_nat (_pending_crl_to_process st))) st.

(** the rest of a call that waits for the file of [item], resumed with what
    the read gave *)
Definition _process_next_crl_resume (item : QueueItem) (read : result Buffer)
  : M (option QueueItem) :=
  fun st => finish_crl _process_next_crl (indexReadCrl item read st).

(** [_on_crl_file_added] returns as soon as the call it starts waits for its
    file *)
Definition _on_crl_file_added (index : CrlIndex) (filename : string)
  : M (option QueueItem) :=
  fun st =>
  let st := set_queue (queue st ++ [mkQueueItem index filename]) st in
  let st := set_pending (_pending_crl_to_process st + 1) st in
  if _pending_crl_to_process st =? 1 then _process_next_crl st
  else (Ok None, st).

(** The calls run to the end of the chain: each is resumed with the file as
    it is then, and nothing else runs in between.  One call is resumed for
    every pending item. *)
Fixpoint crl_chain (fuel : nat) (waiting : option QueueItem) (st : Store)
  : result unit * Store :=
  match waiting, fuel with
  | None, _ => (Ok tt, st)
  | Some _, O => (OutOfFuel, st)
  | Some item, S fuel' =>
      match
        _process_next_crl_resume item
          (readCertificateRevocationList (fs st) (item_filename item)) st
      with
      | (Ok waiting', st') => crl_chain fuel' waiting' st'
      | (Throw e, st') => (Throw e, st')
      | (OutOfFuel, st') => (OutOfFuel, st')
      end
  end.

(** the date of the first entry of a CRL that lists a serial number *)
Fixpoint firstRevocationDate (revoked : list RevokedCertificate)
  (serialNumber : string) : option Date :=
  match revoked with
  | [] => None
  | r :: revoked' =>
      if bool_decide (userCertificate r = serialNumber)
      then Some (revocationDate r)
      else firstRevocationDate revoked' serialNumber
  end.

(** *** Words of the revocation check *)

(** the issuer [isCertificateRevoked] works with: the one it is given, else
    the one [findIssuerCertificate] finds *)
Definition resolvesIssuer (t : Thumbs) (certificate : Buffer)
  (given issuer : option Buffer) : Prop :=
  match given with
  | Some c => issuer = Some c
  | None => findIssuerCertificate t certificate = Ok issuer
  end.

(** *** Issuer chains *)

(** [certificate] carries an issuer key, is not self-signed, and the store
    resolves its issuer to [issuerCertificate]. *)
Definition links_to (st : Store) (certificate issuerCertificate : Buffer)
  : Prop :=
  exists chain0 chain info,
    Der.split_der certificate = Ok (chain0 :: chain)
    /\ exploreCertificate chain0 = Ok info
    /\ truthy (ext_authorityKeyIdentifier_keyIdentifier info) = true
    /\ isSelfSigned2 info = false
    /\ findIssuerCertificate (_thumbs st) chain0 = Ok (Some issuerCertificate).

(** [issuer_chain st n c]: [n] links lead from [c] to its [n]-th issuer.
    The certificates need not be distinct: a cycle is a chain of any
    length. *)
Inductive issuer_chain (st : Store) : nat -> Buffer -> Prop :=
  | chain_end (c : Buffer) : issuer_chain st 0 c
  | chain_link (n : nat) (c c' : Buffer) :
      links_to st c c' -> issuer_chain st n c' -> issuer_chain st (S n) c.

(** the collaborators of the verifier always come back *)
Definition total_collaborators : Prop :=
  (forall c, exploreCertificate c <> OutOfFuel)
  /\ (forall c i, verifyCertificateSignature c i <> OutOfFuel)
  /\ (forall st, fst (walkFolders st) <> OutOfFuel)
  /\ (forall name, dumpCertificate name <> OutOfFuel).

End Manager.

End Pki.

(** ** A small world to run the manager in

    Certificates of four bytes, a decoder for them, and collaborators that
    accept or refuse every signature and read a fixed clock.  They serve as
    concrete inputs below. *)

Module Scenario.

Import Pki.

(** A block [30 02 s i]: [s] names the subject's key, [i] the issuer's key;
    [i = 00] stands for a certificate without authority key identifier. *)
Definition cert (subject issuer : byte) : Buffer := [x30; x02; subject; issuer].

Definition key_name (b : byte) : string := string_of_list_byte [b].

Definition valid_from : Z := 100.
Definition valid_until : Z := 200.

Definition decode (certificate : Buffer) : result CertificateInternals :=
  match certificate with
  | x30 :: x02 :: subject :: issuer :: _ =>
      let aki :=
        match issuer with
        | x00 => None
        | _ => Some (mkAuthorityKeyIdentifier (Some (key_name issuer)) "" None)
        end in
      Ok (mkCertificateInternals
            (mkTbsCertificate
               (key_name subject)
               (mkValidity (DateOf valid_from) (DateOf valid_until))
               (Some (key_name subject))
               (key_name subject)
               256
               (Some (mkCertificateExtension (Some (key_name subject)) aki))))
  | _ => Throw (Error "not a certificate")
  end.

(** A revocation list [30 n i s1 d1 s2 d2 ...]: issuer [i], then pairs of a
    revoked serial number and the day of its revocation. *)
Fixpoint decode_revoked (entries : list byte) : list RevokedCertificate :=
  match entries with
  | s :: d :: entries' =>
      mkRevokedCertificate (key_name s) (DateOf (byte_val d))
      :: decode_revoked entries'
  | _ => []
  end.

Definition decode_crl (crl : Buffer)
  : result CertificateRevocationListInfo :=
  match crl with
  | x30 :: _ :: issuer :: entries =>
      Ok (mkCertificateRevocationListInfo
            (mkTBSCertList (key_name issuer) (decode_revoked entries)))
  | _ => Throw (Error "not a revocation list")
  end.

Definition collaborators (signatureOK : bool) (time : Z) : Collaborators := {|
  exploreCertificate := decode;
  exploreCertificateRevocationList := decode_crl;
  makeFingerprint := string_of_list_byte;
  verifyCertificateSignature := fun _ _ => Ok signatureOK;
  toPem := fun der _ => string_of_list_byte der;
  convertPEMtoDER := fun pem => Ok (list_byte_of_string pem);
  path_join := fun a b => (a ++ "/" ++ b)%string;
  dumpCertificate := fun _ => Ok tt;
  now := fun _ => time;
  prepareFolders := fun st => (Ok tt, st);
  preparePrivateKey := fun st => (Ok tt, st);
  walkFolders := fun st => (Ok tt, st)
|}.

Definition entries (certificates : list Buffer) : JsObject Entry :=
  map (fun c => (string_of_list_byte c, mkEntry c "file.pem"%string)) certificates.

(** an initialised store with the given certificates and CRL indices *)
Definition store (flag : bool) (trusted rejected issuers : list Buffer)
  (crl issuersCrl : gmap string CRLData) : Store :=
  mkStore flag Initialized "pki" true
    (mkThumbs (entries trusted) (entries rejected) (entries issuers)
       crl issuersCrl)
    0 false [] (mkFileSystem ∅ ∅).

(** the world used in most scenarios: signatures verify, the clock reads a
    time inside the validity of every certificate *)
Definition world : Collaborators := collaborators true 150.

(** the same certificates read with a public key of 64 bytes, a length
    that [exploreCertificateInfo] refuses *)
Definition decode_short_key (certificate : Buffer)
  : result CertificateInternals :=
  match decode certificate with
  | Ok certInfo =>
      let tbs := tbsCertificate certInfo in
      Ok (mkCertificateInternals
            (mkTbsCertificate (serialNumber tbs) (validity tbs) (commonName tbs)
               (subjectFingerPrint tbs) 64 (extensions tbs)))
  | Throw e => Throw e
  | OutOfFuel => OutOfFuel
  end.

Definition short_key_world : Collaborators := {|
  exploreCertificate := decode_short_key;
  exploreCertificateRevocationList := decode_crl;
  makeFingerprint := string_of_list_byte;
  verifyCertificateSignature := fun _ _ => Ok true;
  toPem := fun der _ => string_of_list_byte der;
  convertPEMtoDER := fun pem => Ok (list_byte_of_string pem);
  path_join := fun a b => (a ++ "/" ++ b)%string;
  dumpCertificate := fun _ => Ok tt;
  now := fun _ => 150;
  prepareFolders := fun st => (Ok tt, st);
  preparePrivateKey := fun st => (Ok tt, st);
  walkFolders := fun st => (Ok tt, st)
|}.

(** two certificates that name each other as issuer *)
Definition cyclic_store : Store :=
  store true [] [] [cert x01 x02; cert x02 x01] ∅ ∅.

(** [01] issued by [02], issued by [03], issued by [04], which has no
    authority key identifier; no CRL is indexed *)
Definition chain_store : Store :=
  store true [] [] [cert x02 x03; cert x03 x04; cert x04 x00] ∅ ∅.

(** the issuer [06] is self-signed and has revoked the serial number [05]
    on day 7 *)
Definition revoking_store : Store :=
  store true [] [] [cert x06 x06] ∅
    {[ key_name x06 := mkCRLData {[ key_name x05 := DateOf 7 ]} [] ]}.

(** the issuer CRL index has data for the issuer [06] that lists nothing,
    while the direct CRL index lists the serial number [05] for [06] *)
Definition shadow_store : Store :=
  store true [] [] [cert x06 x06]
    {[ key_name x06 := mkCRLData {[ key_name x05 := DateOf 7 ]} [] ]}
    {[ key_name x06 := mkCRLData ∅ [] ]}.

(** a CRL of issuer [06] that lists [05] (day 9) and [07] (day 3), waiting
    in the queue of a store that already binds [05] to day 7 *)
Definition crl_file : Buffer := [x30; x05; x06; x05; x09; x07; x03].


(** what [exploreCertificateInfo] tells of every certificate of this world *)
Definition dated : CertificateInfo :=
  mkCertificateInfo 256 (DateOf valid_from) (DateOf valid_until).

(** a certificate whose [notBefore] is not a valid time *)
Definition undated : CertificateInfo :=
  mkCertificateInfo 256 InvalidDate (DateOf valid_until).

End Scenario.

(** ** Further operations of the certificate manager *)

Module PkiOps.

Import Pki.

#[global] Instance CertificateStatus_eq_dec : EqDecision CertificateStatus.
Proof. solve_decision. Defined.

(** [delete o[k]] *)
Definition obj_delete {V} (o : JsObject V) (k : string) : JsObject V :=
  List.filter (fun kv => negb (bool_decide (fst kv = k))) o.

(** [fs.rename(oldPath, newPath, callback)]: fails when the old file is
    missing or the new path cannot be written *)
Definition fs_rename (f : FileSystem) (oldPath newPath : string)
  : result unit * FileSystem :=
  match files f !! oldPath with
  | None => (Throw (Error "ENOENT"), f)
  | Some data =>
      if bool_decide (newPath ∈ unwritable f) then (Throw (Error "EACCES"), f)
      else (Ok tt,
            mkFileSystem (<[newPath := data]> (delete oldPath (files f)))
                         (unwritable f))
  end.

Definition set_trusted (o : JsObject Entry) (t : Thumbs) : Thumbs :=
  mkThumbs o (thumbs_rejected t) (thumbs_issuers_certs t) (thumbs_crl t)
    (thumbs_issuersCrl t).

Definition set_issuers_certs (o : JsObject Entry) (t : Thumbs) : Thumbs :=
  mkThumbs (thumbs_trusted t) (thumbs_rejected t) o (thumbs_crl t)
    (thumbs_issuersCrl t).

(** [this._thumbs[status]] for the two states that name a map *)
Definition statusIndex (status : CertificateStatus) (t : Thumbs)
  : JsObject Entry :=
  match status with
  | trusted => thumbs_trusted t
  | _ => thumbs_rejected t
  end.

Definition set_statusIndex (status : CertificateStatus) (o : JsObject Entry)
  (t : Thumbs) : Thumbs :=
  match status with
  | trusted => set_trusted o t
  | _ => set_rejected o t
  end.

(** [path.basename] of the host *)
Class PathModule : Type := {
  path_basename : string -> string
}.

Section Operations.

Context `{Collaborators} `{PathModule}.

Definition trustedFolder (st : Store) : string :=
  path_join (location st) "trusted/certs".

Definition issuersCertFolder (st : Store) : string :=
  path_join (location st) "issuers/certs".

(** [_moveCertificate].  The status comes from [getCertificateStatus]; the
    callback of [fs.rename] updates both maps and then calls back without
    the error of the rename.  ([newStatus] is "rejected" or "trusted" in
    both callers; with "unknown" the assignment to a map that does not
    exist throws.) *)
Definition _moveCertificate (certificate : Buffer)
  (newStatus : CertificateStatus) : M unit := fun st =>
  let fingerprint := makeFingerprint certificate in
  match getCertificateStatus certificate st with
  | (Ok status, st) =>
      match status with
      | unknown => (Throw AssertionError, st)
      | _ =>
          if bool_decide (status ≠ newStatus) then
            let certificateSrc :=
              match obj_get (statusIndex status (_thumbs st)) fingerprint with
              | Some entry => entry_filename entry
              | None => ""%string
              end in
            if bool_decide (certificateSrc = ""%string)
            then (Throw (Error "internal"), st)
            else
              let destFolder :=
                match newStatus with
                | trusted => trustedFolder st
                | _ => rejectedFolder st
                end in
              let certificateDest :=
                path_join destFolder (path_basename certificateSrc) in
              let '(_, fs') := fs_rename (fs st) certificateSrc certificateDest in
              let st := set_fs fs' st in
              let st :=
                set_thumbs
                  (set_statusIndex status
                     (obj_delete (statusIndex status (_thumbs st)) fingerprint)
                     (_thumbs st)) st in
              match newStatus with
              | unknown => (Throw (Error "TypeError"), st)
              | _ =>
                  (Ok tt,
                   set_thumbs
                     (set_statusIndex newStatus
                        (obj_set (statusIndex newStatus (_thumbs st)) fingerprint
                                 (mkEntry certificate certificateDest))
                        (_thumbs st)) st)
              end
          else (Ok tt, st)
      end
  | (Throw e, st) => (Throw e, st)
  | (OutOfFuel, st) => (OutOfFuel, st)
  end.

Definition rejectCertificate (certificate : Buffer) : M unit :=
  _moveCertificate certificate rejected.

Definition trustCertificate (certificate : Buffer) : M unit :=
  _moveCertificate certificate trusted.

(** [addIssuer(certificate, validate, addInTrustList)] *)
Definition addIssuer (certificate : Buffer) (validate addInTrustList : bool)
  : M VerificationStatus := fun st =>
  let checked : result (option VerificationStatus) * Store :=
    if validate then
      match verifyCertificate (Some certificate) st with
      | (Ok status, st) =>
          if bool_decide (status ≠ Good)
             && bool_decide (status ≠ BadCertificateUntrusted)
          then (Ok (Some status), st) else (Ok None, st)
      | (Throw e, st) => (Throw e, st)
      | (OutOfFuel, st) => (OutOfFuel, st)
      end
    else (Ok None, st) in
  match checked with
  | (Ok (Some status), st) => (Ok status, st)
  | (Ok None, st) =>
      let pemCertificate := toPem certificate "CERTIFICATE" in
      let fingerprint := makeFingerprint certificate in
      match obj_get (thumbs_issuers_certs (_thumbs st)) fingerprint with
      | Some _ => (Ok Good, st)
      | None =>
          let filename :=
            path_join (issuersCertFolder st)
              ("issuer_" ++ buildIdealCertificateName certificate ++ ".pem") in
          match fs_writeFile (fs st) filename
                  (list_byte_of_string pemCertificate) with
          | (Ok _, fs') =>
              let st := set_fs fs' st in
              let st :=
                set_thumbs
                  (set_issuers_certs
                     (obj_set (thumbs_issuers_certs (_thumbs st)) fingerprint
                              (mkEntry certificate filename))
                     (_thumbs st)) st in
              if addInTrustList then
                match trustCertificate certificate st with
                | (Ok _, st) => (Ok Good, st)
                | (Throw e, st) => (Throw e, st)
                | (OutOfFuel, st) => (OutOfFuel, st)
                end
              else (Ok Good, st)
          | (Throw e, fs') => (Throw e, set_fs fs' st)
          | (OutOfFuel, fs') => (OutOfFuel, set_fs fs' st)
          end
      end
  | (Throw e, st) => (Throw e, st)
  | (OutOfFuel, st) => (OutOfFuel, st)
  end.

(** *** Words of the issuer search *)

(** the test of [findMatchingIssuerKey] on one entry that decodes *)
Definition keepsEntry (wantedIssuerKey : string) (entry : Entry) : bool :=
  match exploreCertificate (entry_certificate entry) with
  | Ok info =>
      match extensions (tbsCertificate info) with
      | Some _ => strict_eq (ext_subjectKeyIdentifier info) (Str wantedIssuerKey)
      | None => false
      end
  | _ => false
  end.

(** an entry whose certificate the decoder accepts *)
Definition decodes (entry : Entry) : Prop :=
  exists info, exploreCertificate (entry_certificate entry) = Ok info.

(** the index has been read and the manager is past its initialisation *)
Definition ready (st : Store) : Prop :=
  state st <> Uninitialized /\ _readCertificatesCalled st = true.

(** the verdicts the verifier can return *)
Definition verifierVerdicts : list VerificationStatus :=
  [BadSecurityChecksFailed; BadCertificateIssuerRevocationUnknown;
   BadCertificateIssuerTimeInvalid; BadCertificateRevocationUnknown;
   BadCertificateRevoked; BadCertificateChainIncomplete;
   BadCertificateUntrusted; BadCertificateTimeInvalid; Good].

End Operations.

End PkiOps.

(** ** More of the ASN.1 reader (module [./asn1])

    The readers that the certificate decoder builds on [readTag]: the
    children of a block, small integers, and the text of a key identifier or
    serial number. *)

Module Asn1Ops.

Import Asn1 Stdlib.Strings.Ascii.

(** [buf.slice(start, end)] for non-negative integer arguments *)
Definition slice (buf : Buffer) (start stop : Z) : Buffer :=
  firstn (Z.to_nat stop - Z.to_nat start) (skipn (Z.to_nat start) buf).

(** the tags of [TagType] that the readers below test *)
Definition INTEGER : Z := 0x02.

(** The [while] loop of [_readStruct].  Every iteration that succeeds moves
    the cursor forward by the two header bytes at least, in a buffer of at
    most [2^53] bytes, so [S (length buf)] iterations suffice. *)
Fixpoint readStruct_loop (fuel : nat) (buf : Buffer) (cursor end_ : Z)
  : result (list BlockInfo) :=
  match fuel with
  | O => OutOfFuel
  | S fuel' =>
      if cursor <? end_ then
        inner ← readTag buf cursor;
        let cursor := JsNumber.add (position inner) (Asn1.length inner) in
        blocks ← readStruct_loop fuel' buf cursor end_;
        Ok (inner :: blocks)
      else Ok []
  end.

Definition _readStruct (buf : Buffer) (blockInfo : BlockInfo)
  : result (list BlockInfo) :=
  let length := Asn1.length blockInfo in
  let cursor := position blockInfo in
  let end_ := JsNumber.add (position blockInfo) length in
  readStruct_loop (S (List.length buf)) buf cursor end_.

Definition _getBlock (buffer : Buffer) (block : BlockInfo) : Buffer :=
  let start := position block in
  let end_ := JsNumber.add (position block) (Asn1.length block) in
  slice buffer start end_.

(** [_readIntegerValue]; its [for] loop is the one of [readTag], run on
    [block.length] bytes from [block.position]. *)
Definition _readIntegerValue (buffer : Buffer) (block : BlockInfo) : result Z :=
  if negb (tag block =? INTEGER) then Throw AssertionError
  else
    let pos := position block in
    let nbBytes := Asn1.length block in
    if negb (nbBytes <? 4) then Throw AssertionError
    else
      '(_, value) ← readLongLength (Z.to_nat nbBytes) buffer pos 0;
      Ok value.

Definition _readVersionValue (buffer : Buffer) (block : BlockInfo) : result Z :=
  block ← readTag buffer (position block);
  _readIntegerValue buffer block.

(** *** [formatBuffer2DigitHexWithColum] *)

(** one digit of [Number.prototype.toString(16)] *)
Definition hexDigit (d : Z) : ascii :=
  match String.get (Z.to_nat d) "0123456789abcdef" with
  | Some c => c
  | None => "0"%char
  end.

(** [n.toString(16)] for a byte *)
Definition toString16 (n : Z) : string :=
  if n <? 16 then String (hexDigit n) EmptyString
  else String (hexDigit (n / 16)) (String (hexDigit (n mod 16)) EmptyString).

(** [s.substr(-2, 2)]: the last two characters *)
Definition substr_last2 (s : string) : string :=
  String.substring (String.length s - 2) 2 s.

(** [s.toUpperCase()] on ASCII text *)
Definition upperChar (c : ascii) : ascii :=
  let n := nat_of_ascii c in
  if ((97 <=? n) && (n <=? 122))%nat then ascii_of_nat (n - 32) else c.

Fixpoint toUpperCase (s : string) : string :=
  match s with
  | EmptyString => EmptyString
  | String c s' => String (upperChar c) (toUpperCase s')
  end.

(** [s.replace(/^(00:)*/, "")] *)
Fixpoint stripLeading00 (s : string) : string :=
  match s with
  | String "0" (String "0" (String ":" s')) => stripLeading00 s'
  | _ => s
  end.

Definition formatBuffer2DigitHexWithColum (buffer : Buffer) : string :=
  let value :=
    map (fun b => substr_last2 ("00" ++ toString16 (byte_val b))) buffer in
  stripLeading00 (toUpperCase (String.concat ":" value)).

(** A buffer without its leading zero bytes, the last byte kept. *)
Fixpoint dropLeadingZeros (buffer : Buffer) : Buffer :=
  match buffer with
  | x00 :: (_ :: _) as rest => dropLeadingZeros rest
  | _ => buffer
  end.

(** *** [parseBitString] and [_readBitString] *)

Definition BIT_STRING : Z := 0x03.

(** [ToInt32] of an integer, and [x << 3] *)
Definition toInt32 (x : Z) : Z := (x + 2 ^ 31) mod 2 ^ 32 - 2 ^ 31.
Definition shiftLeft3 (x : Z) : Z := toInt32 (toInt32 x * 8).

(** an integer in decimal, as string concatenation writes it *)
Definition decimal (z : Z) : string :=
  DecimalString.NilZero.string_of_int (Z.to_int z).

(** the inner loop of [parseBitString]: the bits [skip], ..., 7 of the byte
    [b], the lowest first *)
Definition bitsOf (b skip : Z) : string :=
  string_of_list_ascii
    (map (fun j => if Z.testbit b (Z.of_nat j) then "1"%char else "0"%char)
       (seq (Z.to_nat skip) (8 - Z.to_nat skip))).

(** the outer loop of [parseBitString], from the byte at [i] downwards *)
Fixpoint parseBitString_loop (n : nat) (buffer : Buffer) (i skip : Z)
  (s : string) (maxLength : Z) : result string :=
  match n with
  | O => Ok s
  | S n' =>
      b ← readUInt8 buffer i;
      let s := (s ++ bitsOf b skip)%string in
      if Z.of_nat (String.length s) <=? maxLength
      then parseBitString_loop n' buffer (i - 1) 0 s maxLength
      else Throw AssertionError
  end.

Definition parseBitString (buffer : Buffer) (start end_ maxLength : Z)
  : result string :=
  unusedBit ← readUInt8 buffer start;
  let lenBit := shiftLeft3 (end_ - start - 1) - unusedBit in
  let intro :=
    ("(" ++ decimal lenBit ++ " bit)" ++ String (ascii_of_nat 10) EmptyString)%string in
  s ← parseBitString_loop (Z.to_nat (end_ - 1 - start)) buffer (end_ - 1)
        unusedBit EmptyString maxLength;
  Ok (intro ++ s)%string.

Record BitString : Type := mkBitString {
  lengthInBits : Z;
  lengthInBytes : Z;
  data : Buffer;
  debug : string
}.

Definition _readBitString (buffer : Buffer) (block : BlockInfo) : result BitString :=
  if negb (tag block =? BIT_STRING) then Throw AssertionError
  else
    let data := _getBlock buffer block in
    ignore_bits ← readUInt8 data 0;
    debug ← parseBitString buffer (position block)
              (JsNumber.add (Asn1.length block) (position block)) 5000;
    Ok {| lengthInBits := buf_length data * 8 - ignore_bits;
          lengthInBytes := buf_length data - 1;
          data := slice_from data 1;
          debug := debug |}.

Definition _readSignatureValueBin (buffer : Buffer) (block : BlockInfo)
  : result Buffer :=
  bitString ← _readBitString buffer block;
  Ok (data bitString).

End Asn1Ops.

(** ** The small world, continued *)

Module ScenarioOps.

Import Pki PkiOps Scenario.

Definition paths : PathModule := {| path_basename := fun name => name |}.

(** the file [getCertificateStatus] would write for the certificate [01] *)
Definition rejected_file : string :=
  @path_join world "pki/rejected"
    (@buildIdealCertificateName world (cert x01 x00) ++ ".pem").

(** a store in which that file cannot be written *)
Definition locked_store : Store :=
  mkStore true Initialized "pki" true (mkThumbs [] [] [] ∅ ∅) 0 false []
    (mkFileSystem ∅ {[ rejected_file ]}).

(** an empty store, initialised *)
Definition empty_store : Store := store true [] [] [] ∅ ∅.



(** a store that trusts the certificate [05] although the CRL of its
    issuer [06] lists it *)
Definition trusted_revoked_store : Store :=
  store true [cert x05 x06] [] [cert x06 x06] ∅
    {[ key_name x06 := mkCRLData {[ key_name x05 := DateOf 7 ]} [] ]}.

(** the certificates of [Scenario] read with a common name that holds
    path separators *)
Definition decode_named (certificate : Buffer) : result CertificateInternals :=
  match decode certificate with
  | Ok certInfo =>
      let tbs := tbsCertificate certInfo in
      Ok (mkCertificateInternals
            (mkTbsCertificate (serialNumber tbs) (validity tbs)
               (Some "../trusted/certs/x"%string)
               (subjectFingerPrint tbs) (keyLength tbs) (extensions tbs)))
  | Throw e => Throw e
  | OutOfFuel => OutOfFuel
  end.

Definition named_world : Collaborators := {|
  exploreCertificate := decode_named;
  exploreCertificateRevocationList := decode_crl;
  makeFingerprint := string_of_list_byte;
  verifyCertificateSignature := fun _ _ => Ok true;
  toPem := fun der _ => string_of_list_byte der;
  convertPEMtoDER := fun pem => Ok (list_byte_of_string pem);
  path_join := fun a b => (a ++ "/" ++ b)%string;
  dumpCertificate := fun _ => Ok tt;
  now := fun _ => 150;
  prepareFolders := fun st => (Ok tt, st);
  preparePrivateKey := fun st => (Ok tt, st);
  walkFolders := fun st => (Ok tt, st)
|}.

(** a second CRL of issuer [06], which lists [08] (day 2) *)
Definition crl_file_b : Buffer := [x30; x03; x06; x08; x02].

(** a store whose first call of [_process_next_crl] waits for the file
    [a.pem], with [b.pem] still in the queue: two items are pending *)
Definition waiting_store : Store :=
  mkStore true Initialized "pki" true
    (mkThumbs [] [] (entries [cert x06 x06]) ∅ ∅)
    2 false [mkQueueItem IndexCrl "pki/trusted/crl/b.pem"]
    (mkFileSystem {[ "pki/issuers/crl/a.pem"%string := crl_file;
                     "pki/trusted/crl/b.pem"%string := crl_file_b ]} ∅).

(** a store that holds the CRL file of [Scenario] and has nothing queued *)
Definition idle_store : Store :=
  mkStore true Initialized "pki" true
    (mkThumbs [] [] (entries [cert x06 x06]) ∅ ∅)
    0 false []
    (mkFileSystem {[ "pki/issuers/crl/a.pem"%string := crl_file ]} ∅).

End ScenarioOps.

(** * Properties of the tag reader *)

Module Asn1Facts.

Import Asn1.

Lemma byte_val_range (b : byte) : 0 <= byte_val b < 256.
Proof.
  unfold byte_val. pose proof (Byte.to_N_bounded b) as Hb. lia.
Qed.

Lemma round_double_safe (z : Z) :
  z < JsNumber.MAX_SAFE -> JsNumber.round_double z = z.
Proof.
  intros Hz. unfold JsNumber.round_double.
  destruct (Z.ltb_spec z JsNumber.MAX_SAFE); [reflexivity | lia].
Qed.

Lemma readUInt8_app (pre : Buffer) (b : byte) (post : Buffer) :
  readUInt8 (pre ++ b :: post) (buf_length pre) = Ok (byte_val b).
Proof.
  unfold readUInt8, buf_length.
  rewrite length_app. cbn [List.length].
  destruct (Z.leb_spec 0 (Z.of_nat (List.length pre))); [|lia].
  destruct (Z.ltb_spec (Z.of_nat (List.length pre))
              (Z.of_nat (List.length pre + S (List.length post)))); [|lia].
  cbn [andb]. rewrite Nat2Z.id.
  rewrite nth_error_app2 by lia. rewrite Nat.sub_diag. reflexivity.
Qed.

Lemma big_endian_snoc (bs : list byte) (b : byte) :
  big_endian (bs ++ [b]) = big_endian bs * 256 + byte_val b.
Proof. unfold big_endian. rewrite fold_left_app. reflexivity. Qed.

Lemma big_endian_nonneg (bs : list byte) : 0 <= big_endian bs.
Proof.
  induction bs as [|b bs IH] using rev_ind.
  - cbn. lia.
  - rewrite big_endian_snoc. pose proof (byte_val_range b). lia.
Qed.

Lemma big_endian_prefix_le (bs cs : list byte) :
  big_endian bs <= big_endian (bs ++ cs).
Proof.
  induction cs as [|c cs IH] using rev_ind.
  - rewrite app_nil_r. lia.
  - rewrite app_assoc, big_endian_snoc.
    pose proof (byte_val_range c). pose proof (big_endian_nonneg bs). lia.
Qed.

(** The loop reads the bytes [bs] that follow [pre ++ done] and extends the
    value accumulated so far, exactly as long as the value stays below
    [2^53]. *)
Lemma readLongLength_exact (bs pre done post : list byte) :
  big_endian (done ++ bs) < JsNumber.MAX_SAFE ->
  readLongLength (List.length bs) (pre ++ done ++ bs ++ post)
    (buf_length (pre ++ done)) (big_endian done)
  = Ok (buf_length (pre ++ done ++ bs), big_endian (done ++ bs)).
Proof.
  revert done. induction bs as [|b bs IH]; intros done Hsafe.
  - cbn [List.length readLongLength]. rewrite !app_nil_r. reflexivity.
  - cbn [List.length readLongLength].
    replace (pre ++ done ++ (b :: bs) ++ post)
      with ((pre ++ done) ++ b :: (bs ++ post))
      by (rewrite <- !app_assoc; reflexivity).
    rewrite readUInt8_app. cbn.
    assert (Hstep : JsNumber.add (big_endian done * 256) (byte_val b)
                    = big_endian (done ++ [b])).
    { rewrite big_endian_snoc. unfold JsNumber.add.
      apply round_double_safe.
      rewrite <- big_endian_snoc.
      pose proof (big_endian_prefix_le (done ++ [b]) bs) as Hle.
      rewrite <- app_assoc in Hle. cbn in Hle. lia. }
    rewrite Hstep.
    replace (buf_length (pre ++ done) + 1) with (buf_length (pre ++ done ++ [b]))
      by (unfold buf_length; rewrite !length_app; cbn; lia).
    replace ((pre ++ done) ++ b :: bs ++ post)
      with (pre ++ (done ++ [b]) ++ bs ++ post)
      by (rewrite <- !app_assoc; reflexivity).
    rewrite (IH (done ++ [b])).
    + rewrite <- !app_assoc. reflexivity.
    + rewrite <- app_assoc. exact Hsafe.
Qed.

Lemma high_bit_gt (l : byte) :
  Z.testbit (byte_val l) 7 = true -> 127 < byte_val l.
Proof. destruct l; vm_compute; intros; congruence. Qed.

(** The long form of the length, as long as the value stays below [2^53]. *)
Lemma readTag_long_length (pre : Buffer) (t l : byte) (bs post : Buffer) :
  Z.testbit (byte_val l) 7 = true ->
  Z.of_nat (List.length bs) = Z.land (byte_val l) 0x7f ->
  big_endian bs < 2 ^ 53 ->
  readTag (pre ++ t :: l :: bs ++ post) (buf_length pre)
  = Ok {| tag := byte_val t;
          position := buf_length pre + 2 + buf_length bs;
          length := big_endian bs |}.
Proof.
  intros Hbit Hn Hsafe.
  apply high_bit_gt in Hbit.
  unfold readTag.
  assert (Hpos : 0 <= buf_length pre) by (unfold buf_length; lia).
  destruct (Z.ltb_spec (buf_length pre) 0); [lia|].
  destruct (Z.leb_spec (buf_length (pre ++ t :: l :: bs ++ post))
              (buf_length pre)) as [Hle|_].
  { unfold buf_length in Hle. rewrite length_app in Hle. cbn in Hle. lia. }
  rewrite readUInt8_app. cbn [mbind result_bind].
  replace (pre ++ t :: l :: bs ++ post) with ((pre ++ [t]) ++ l :: bs ++ post)
    by (rewrite <- app_assoc; reflexivity).
  replace (buf_length pre + 1) with (buf_length (pre ++ [t]))
    by (unfold buf_length; rewrite length_app; cbn; lia).
  rewrite readUInt8_app. cbn [mbind result_bind].
  destruct (Z.ltb_spec 127 (byte_val l)); [|lia].
  rewrite <- Hn, Nat2Z.id.
  pose proof (readLongLength_exact bs (pre ++ [t; l]) [] post) as Hloop.
  cbn [app] in Hloop. rewrite !app_nil_r in Hloop.
  replace ((pre ++ [t]) ++ l :: bs ++ post) with ((pre ++ [t; l]) ++ bs ++ post)
    by (rewrite <- !app_assoc; reflexivity).
  replace (buf_length (pre ++ [t]) + 1) with (buf_length (pre ++ [t; l]))
    by (unfold buf_length; rewrite !length_app; cbn; lia).
  change (big_endian []) with 0 in Hloop.
  rewrite Hloop by exact Hsafe.
  cbn [mbind result_bind]. do 2 f_equal.
  unfold buf_length. rewrite !length_app. cbn. lia.
Qed.

(** C7 (as amended): when the length byte [l] has its high bit set, its low
    seven bits count the bytes [bs] that follow, and [readTag] returns their
    big-endian value as the block length whenever that value is below
    [2^53], with the position advanced past the tag, the length byte and the
    [bs]; a buffer that begins [0x30, 0x82, 0x01, 0x0A] read at 0 gives
    length 266 and position 4. *)
Theorem readTag_long_form :
  (forall (pre : Buffer) (t l : byte) (bs post : Buffer),
      Z.testbit (byte_val l) 7 = true ->
      Z.of_nat (List.length bs) = Z.land (byte_val l) 0x7f ->
      big_endian bs < 2 ^ 53 ->
      readTag (pre ++ t :: l :: bs ++ post) (buf_length pre)
      = Ok {| tag := byte_val t;
              position := buf_length pre + 2 + buf_length bs;
              length := big_endian bs |})
  /\ (forall rest : Buffer,
        readTag ([x30; x82; x01; x0a] ++ rest) 0
        = Ok {| tag := 0x30; position := 4; length := 266 |}).
Proof.
  split; [exact readTag_long_length|].
  intros rest.
  exact (readTag_long_length [] x30 x82 [x01; x0a] rest eq_refl eq_refl eq_refl).
Qed.

Lemma readTag_long_form_witness :
  readTag ([x04; x00] ++ x30 :: x82 :: [x01; x0a] ++ [xff]) 2
  = Ok {| tag := 0x30; position := 6; length := 266 |}.
Proof.
  apply (proj1 readTag_long_form [x04; x00] x30 x82 [x01; x0a] [xff]).
  - reflexivity.
  - reflexivity.
  - vm_compute. reflexivity.
Defined.

(** C7 as stated fails: seven length bytes that write [2^53 + 1] are decoded
    as [2^53], the nearest number. *)
Lemma readTag_long_form_counterexample :
  ~ (forall (pre : Buffer) (t l : byte) (bs post : Buffer),
        Z.testbit (byte_val l) 7 = true ->
        Z.of_nat (List.length bs) = Z.land (byte_val l) 0x7f ->
        readTag (pre ++ t :: l :: bs ++ post) (buf_length pre)
        = Ok {| tag := byte_val t;
                position := buf_length pre + 2 + buf_length bs;
                length := big_endian bs |}).
Proof.
  intros Hall.
  specialize (Hall [] x30 x87 [x20; x00; x00; x00; x00; x00; x01] []
                eq_refl eq_refl).
  vm_compute in Hall. discriminate Hall.
Qed.

End Asn1Facts.

(** * Properties of chain splitting and combining *)

Module DerFacts.

Import Asn1 Der Asn1Facts.

Lemma pow2_split (e : Z) : 1 <= e -> 2 ^ e = 2 * 2 ^ (e - 1).
Proof.
  intros He. replace e with (1 + (e - 1)) at 1 by lia.
  rewrite Z.pow_add_r by lia. reflexivity.
Qed.

(** Above [2^53] the nearest number is a significand of 53 bits times a
    power of two. *)
Lemma round_double_shape (z : Z) :
  2 ^ 53 <= z ->
  exists m, 2 ^ 52 <= m <= 2 ^ 53
            /\ JsNumber.round_double z = m * 2 ^ (Z.log2 z - 52).
Proof.
  intros Hbig.
  assert (Hlog : 53 <= Z.log2 z) by (apply Z.log2_le_pow2; lia).
  set (e := Z.log2 z - 52).
  assert (He : 1 <= e) by (unfold e; lia).
  assert (Hpe : 0 < 2 ^ e) by (apply Z.pow_pos_nonneg; lia).
  destruct (Z.log2_spec z) as [Hlo Hhi]; [lia|].
  replace (Z.log2 z) with (52 + e) in Hlo by (unfold e; lia).
  replace (Z.succ (Z.log2 z)) with (53 + e) in Hhi by (unfold e; lia).
  rewrite Z.pow_add_r in Hlo, Hhi by lia.
  set (q := z / 2 ^ e).
  assert (Hq : 2 ^ 52 <= q < 2 ^ 53).
  { unfold q. split.
    - apply Z.div_le_lower_bound; lia.
    - apply Z.div_lt_upper_bound; lia. }
  unfold JsNumber.round_double, JsNumber.MAX_SAFE.
  destruct (Z.ltb_spec z (2 ^ 53)); [lia|].
  fold e. fold q. cbv zeta.
  repeat match goal with
         | |- context [if ?c then _ else _] => destruct c
         end;
    first [ exists q; split; [lia | reflexivity]
          | exists (q + 1); split; [lia | reflexivity] ].
Qed.

(** A number is its own nearest number. *)
Lemma round_double_idempotent (z : Z) :
  JsNumber.round_double (JsNumber.round_double z) = JsNumber.round_double z.
Proof.
  destruct (Z.ltb_spec z JsNumber.MAX_SAFE) as [Hsmall|Hbig].
  { rewrite (round_double_safe z Hsmall). apply round_double_safe, Hsmall. }
  unfold JsNumber.MAX_SAFE in Hbig.
  assert (Hlog : 53 <= Z.log2 z) by (apply Z.log2_le_pow2; lia).
  destruct (round_double_shape z Hbig) as (m & Hm & ->).
  set (e := Z.log2 z - 52).
  assert (He : 1 <= e) by (unfold e; lia).
  assert (Hpe : 0 < 2 ^ e) by (apply Z.pow_pos_nonneg; lia).
  unfold JsNumber.round_double, JsNumber.MAX_SAFE.
  assert (Hw : 2 ^ 53 <= m * 2 ^ e).
  { rewrite (pow2_split e He).
    assert (0 < 2 ^ (e - 1)) by (apply Z.pow_pos_nonneg; lia). nia. }
  destruct (Z.ltb_spec (m * 2 ^ e) (2 ^ 53)); [lia|].
  destruct (Z.eq_dec m (2 ^ 53)) as [->|Hne].
  - assert (Hl : Z.log2 (2 ^ 53 * 2 ^ e) = 53 + e).
    { rewrite <- Z.pow_add_r by lia. apply Z.log2_pow2. lia. }
    rewrite Hl. replace (53 + e - 52) with (e + 1) by lia.
    replace (2 ^ 53 * 2 ^ e) with (2 ^ 52 * 2 ^ (e + 1)).
    2:{ rewrite (Z.pow_add_r 2 e 1) by lia. lia. }
    assert (0 < 2 ^ (e + 1)) by (apply Z.pow_pos_nonneg; lia).
    rewrite Z.div_mul, Z.mod_mul by lia.
    replace (e + 1 - 1) with e by lia.
    destruct (Z.ltb_spec 0 (2 ^ e)); [reflexivity|lia].
  - assert (Hl : Z.log2 (m * 2 ^ e) = 52 + e).
    { apply Z.log2_unique; [lia|].
      replace (Z.succ (52 + e)) with (53 + e) by lia.
      rewrite !Z.pow_add_r by lia. nia. }
    rewrite Hl. replace (52 + e - 52) with e by lia.
    rewrite Z.div_mul, Z.mod_mul by lia.
    assert (0 < 2 ^ (e - 1)) by (apply Z.pow_pos_nonneg; lia).
    destruct (Z.ltb_spec 0 (2 ^ (e - 1))); [reflexivity|lia].
Qed.

(** Rounding does not go below a bound that is itself below [2^53]. *)
Lemma round_double_lower (k z : Z) :
  k <= 2 ^ 53 -> k <= z -> k <= JsNumber.round_double z.
Proof.
  intros Hk Hz.
  destruct (Z.ltb_spec z JsNumber.MAX_SAFE) as [Hsmall|Hbig].
  { rewrite (round_double_safe z Hsmall). exact Hz. }
  unfold JsNumber.MAX_SAFE in Hbig.
  assert (Hlog : 53 <= Z.log2 z) by (apply Z.log2_le_pow2; lia).
  destruct (round_double_shape z Hbig) as (m & Hm & ->).
  set (e := Z.log2 z - 52).
  assert (He : 1 <= e) by (unfold e; lia).
  rewrite (pow2_split e He).
  assert (0 < 2 ^ (e - 1)) by (apply Z.pow_pos_nonneg; lia). nia.
Qed.

Lemma readUInt8_app_l (b rest : Buffer) (pos v : Z) :
  readUInt8 b pos = Ok v -> readUInt8 (b ++ rest) pos = Ok v.
Proof.
  unfold readUInt8, buf_length. intros Hread.
  destruct (Z.leb_spec 0 pos); [|discriminate].
  destruct (Z.ltb_spec pos (Z.of_nat (List.length b))); [|discriminate].
  cbn [andb] in *. rewrite length_app.
  destruct (Z.ltb_spec pos (Z.of_nat (List.length b + List.length rest))); [|lia].
  rewrite nth_error_app1 by lia. exact Hread.
Qed.

Lemma readUInt8_in_range (b : Buffer) (pos v : Z) :
  readUInt8 b pos = Ok v -> 0 <= pos < buf_length b /\ 0 <= v.
Proof.
  unfold readUInt8. intros Hread.
  destruct (Z.leb_spec 0 pos); [|discriminate].
  destruct (Z.ltb_spec pos (buf_length b)); [|discriminate].
  cbn [andb] in Hread.
  destruct (nth_error b (Z.to_nat pos)) as [x|]; [|discriminate].
  injection Hread as <-. pose proof (byte_val_range x). lia.
Qed.

Lemma readLongLength_app_l (n : nat) (b rest : Buffer) (pos acc : Z) r :
  readLongLength n b pos acc = Ok r ->
  readLongLength n (b ++ rest) pos acc = Ok r.
Proof.
  revert pos acc. induction n as [|n IH]; intros pos acc Hloop.
  - exact Hloop.
  - cbn [readLongLength] in *.
    destruct (readUInt8 b pos) as [v| |] eqn:Hv; try discriminate.
    rewrite (readUInt8_app_l _ rest _ _ Hv).
    cbn [mbind result_bind] in *. apply IH, Hloop.
Qed.

Lemma readTag_app_l (b rest : Buffer) block_info :
  readTag b 0 = Ok block_info -> readTag (b ++ rest) 0 = Ok block_info.
Proof.
  unfold readTag. intros Hread.
  destruct (Z.ltb_spec 0 0); [lia|].
  destruct (Z.leb_spec (buf_length b) 0); [discriminate|].
  destruct (Z.leb_spec (buf_length (b ++ rest)) 0) as [Hle|_].
  { unfold buf_length in *. rewrite length_app in Hle. lia. }
  destruct (readUInt8 b 0) as [t| |] eqn:Ht; try discriminate.
  rewrite (readUInt8_app_l _ rest _ _ Ht).
  cbn [mbind result_bind] in *. change (0 + 1) with 1 in *.
  destruct (readUInt8 b 1) as [l| |] eqn:Hl; try discriminate.
  rewrite (readUInt8_app_l _ rest _ _ Hl).
  cbn [mbind result_bind] in *. change (1 + 1) with 2 in *.
  destruct (127 <? l); [|exact Hread].
  destruct (readLongLength _ b 2 0) as [r| |] eqn:Hr; try discriminate.
  rewrite (readLongLength_app_l _ _ rest _ _ _ Hr). exact Hread.
Qed.

Lemma readTag_two_bytes (b : Buffer) block_info :
  readTag b 0 = Ok block_info -> 2 <= buf_length b.
Proof.
  unfold readTag. intros Hread.
  destruct (0 <? 0); [discriminate|].
  destruct (buf_length b <=? 0); [discriminate|].
  destruct (readUInt8 b 0) as [t| |]; try discriminate.
  cbn [mbind result_bind] in Hread. change (0 + 1) with 1 in Hread.
  destruct (readUInt8 b 1) as [l| |] eqn:Hl; try discriminate.
  apply readUInt8_in_range in Hl. lia.
Qed.

Lemma readLongLength_bounds (n : nat) (buf : Buffer) (pos acc pos' len : Z) :
  0 <= acc ->
  readLongLength n buf pos acc = Ok (pos', len) ->
  pos' = pos + Z.of_nat n /\ 0 <= len.
Proof.
  revert pos acc. induction n as [|n IH]; intros pos acc Hacc Hloop.
  - cbn in Hloop. injection Hloop as <- <-. lia.
  - cbn [readLongLength] in Hloop.
    destruct (readUInt8 buf pos) as [v| |] eqn:Hv; try discriminate.
    cbn [mbind result_bind] in Hloop.
    apply readUInt8_in_range in Hv.
    apply IH in Hloop; [lia|].
    unfold JsNumber.add. apply round_double_lower; lia.
Qed.

Lemma readTag_bounds (buf : Buffer) block_info :
  readTag buf 0 = Ok block_info ->
  2 <= position block_info /\ 0 <= Asn1.length block_info.
Proof.
  unfold readTag. intros Hread.
  destruct (0 <? 0); [discriminate|].
  destruct (buf_length buf <=? 0); [discriminate|].
  destruct (readUInt8 buf 0) as [t| |]; try discriminate.
  cbn [mbind result_bind] in Hread. change (0 + 1) with 1 in Hread.
  destruct (readUInt8 buf 1) as [l| |] eqn:Hl; try discriminate.
  cbn [mbind result_bind] in Hread. change (1 + 1) with 2 in Hread.
  apply readUInt8_in_range in Hl.
  destruct (127 <? l).
  - destruct (readLongLength _ buf 2 0) as [[pos' len]| |] eqn:Hloop;
      try discriminate.
    cbn [mbind result_bind] in Hread. injection Hread as <-.
    apply readLongLength_bounds in Hloop; [|lia]. cbn. lia.
  - injection Hread as <-. cbn. lia.
Qed.

Lemma readUInt8_total (buf : Buffer) (pos : Z) : readUInt8 buf pos <> OutOfFuel.
Proof.
  unfold readUInt8. destruct (_ && _); [|discriminate].
  destruct (nth_error buf (Z.to_nat pos)); discriminate.
Qed.

Lemma readLongLength_total (n : nat) (buf : Buffer) (pos acc : Z) :
  readLongLength n buf pos acc <> OutOfFuel.
Proof.
  revert pos acc. induction n as [|n IH]; intros pos acc; [discriminate|].
  cbn [readLongLength]. pose proof (readUInt8_total buf pos).
  destruct (readUInt8 buf pos); cbn [mbind result_bind];
    [apply IH | discriminate | congruence].
Qed.

Lemma readTag_total (buf : Buffer) (pos : Z) : readTag buf pos <> OutOfFuel.
Proof.
  unfold readTag.
  destruct (pos <? 0); [discriminate|].
  destruct (buf_length buf <=? pos); [discriminate|].
  pose proof (readUInt8_total buf pos).
  destruct (readUInt8 buf pos); cbn [mbind result_bind];
    [| discriminate | congruence].
  pose proof (readUInt8_total buf (pos + 1)).
  destruct (readUInt8 buf (pos + 1)) as [l| |]; cbn [mbind result_bind];
    [| discriminate | congruence].
  destruct (127 <? l); [|discriminate].
  pose proof (readLongLength_total (Z.to_nat (Z.land l 127)) buf (pos + 1 + 1) 0).
  destruct (readLongLength _ buf (pos + 1 + 1) 0) as [[pos' len]| |];
    cbn [mbind result_bind]; [discriminate | discriminate | congruence].
Qed.

(** The loop of [split_der] ends: whatever the buffer, one unit of fuel per
    byte and one more are never used up. *)
Lemma split_der_loop_total (fuel : nat) :
  forall buf : Buffer,
    (List.length buf < fuel)%nat -> split_der_loop fuel buf <> OutOfFuel.
Proof.
  induction fuel as [|fuel IH]; intros buf Hfuel; [lia|].
  cbn [split_der_loop].
  pose proof (readTag_total buf 0).
  destruct (readTag buf 0) as [bi| |] eqn:Hread;
    cbn [mbind result_bind]; [| discriminate | congruence].
  pose proof (readTag_bounds buf bi Hread) as [Hpos Hlen].
  assert (Hcut : 2 <= JsNumber.add (position bi) (Asn1.length bi)).
  { unfold JsNumber.add. apply round_double_lower; lia. }
  set (cut := JsNumber.add (position bi) (Asn1.length bi)) in *.
  destruct (Z.ltb_spec 0 (buf_length (slice_from buf cut))) as [Hrest|];
    try discriminate.
  assert (Hshorter : (List.length (slice_from buf cut) < fuel)%nat).
  { unfold buf_length, slice_from in *. rewrite length_skipn in *. lia. }
  specialize (IH _ Hshorter).
  destruct (split_der_loop fuel (slice_from buf cut)) as [rest| |];
    cbn [mbind result_bind]; try discriminate.
  congruence.
Qed.

Lemma split_der_total (buf : Buffer) : split_der buf <> OutOfFuel.
Proof. unfold split_der. apply split_der_loop_total. lia. Qed.

Lemma slice_to_app (b rest : Buffer) :
  slice_to (b ++ rest) (buf_length b) = b.
Proof.
  unfold slice_to, buf_length. rewrite Nat2Z.id.
  rewrite firstn_app, Nat.sub_diag, firstn_all. cbn. apply app_nil_r.
Qed.

Lemma slice_from_app (b rest : Buffer) :
  slice_from (b ++ rest) (buf_length b) = rest.
Proof.
  unfold slice_from, buf_length. rewrite Nat2Z.id.
  rewrite skipn_app, Nat.sub_diag, skipn_all. reflexivity.
Qed.

Lemma well_formed_nonempty (blocks : list Buffer) :
  blocks <> [] -> Forall well_formed_block blocks ->
  0 < buf_length (concat blocks).
Proof.
  intros Hne Hwf. destruct blocks as [|b bs]; [congruence|].
  inversion Hwf as [|? ? (bi & Hread & _) _]; subst.
  apply readTag_two_bytes in Hread.
  unfold buf_length in *. cbn [concat]. rewrite length_app. lia.
Qed.

(** The loop cuts a concatenation of well-formed blocks back into these
    blocks, given one unit of fuel per block. *)
Lemma split_der_loop_concat (blocks : list Buffer) :
  blocks <> [] -> Forall well_formed_block blocks ->
  forall fuel, (List.length blocks <= fuel)%nat ->
  split_der_loop fuel (concat blocks) = Ok blocks.
Proof.
  induction blocks as [|b bs IH]; intros Hne Hwf fuel Hfuel; [congruence|].
  inversion Hwf as [|? ? (bi & Hread & Hextent) Hwf']; subst.
  destruct fuel as [|fuel]; [cbn in Hfuel; lia|].
  cbn [split_der_loop concat].
  rewrite (readTag_app_l _ (concat bs) _ Hread).
  cbn [mbind result_bind]. rewrite Hextent.
  rewrite slice_to_app, slice_from_app.
  destruct bs as [|b' bs'].
  - reflexivity.
  - pose proof (well_formed_nonempty (b' :: bs') ltac:(congruence) Hwf') as Hpos.
    destruct (Z.ltb_spec 0 (buf_length (concat (b' :: bs')))); [|lia].
    rewrite IH; [reflexivity | congruence | exact Hwf' | cbn in *; lia].
Qed.

Lemma block_count_le_length (blocks : list Buffer) :
  Forall well_formed_block blocks ->
  (List.length blocks <= List.length (concat blocks))%nat.
Proof.
  induction 1 as [|b bs (bi & Hread & _) _ IH]; [cbn; lia|].
  apply readTag_two_bytes in Hread. unfold buf_length in Hread.
  cbn [concat List.length]. rewrite length_app. lia.
Qed.

Lemma split_der_concat (blocks : list Buffer) :
  blocks <> [] -> Forall well_formed_block blocks ->
  split_der (concat blocks) = Ok blocks.
Proof.
  intros Hne Hwf. unfold split_der.
  apply split_der_loop_concat; [exact Hne | exact Hwf |].
  pose proof (block_count_le_length blocks Hwf). lia.
Qed.

Lemma split_der_single (block : Buffer) :
  well_formed_block block -> split_der block = Ok [block].
Proof.
  intros Hwf.
  assert (Hall : Forall well_formed_block [block])
    by (constructor; [exact Hwf | constructor]).
  pose proof (split_der_concat [block] ltac:(congruence) Hall) as Hsplit.
  cbn [concat] in Hsplit. rewrite app_nil_r in Hsplit. exact Hsplit.
Qed.

Lemma sanity_check_well_formed (certificates : list Buffer) :
  Forall well_formed_block certificates -> sanity_check certificates = Ok tt.
Proof.
  induction 1 as [|cert certs Hwf _ IH]; [reflexivity|].
  cbn [sanity_check]. rewrite (split_der_single cert Hwf).
  destruct Hwf as (bi & Hread & Hextent).
  cbn [mbind result_bind check_blocks]. rewrite Hread.
  cbn [mbind result_bind]. rewrite Hextent, Z.eqb_refl.
  assert (Hsum : JsNumber.add 0 (buf_length cert) = buf_length cert).
  { unfold JsNumber.add at 1. rewrite Z.add_0_l, <- Hextent.
    unfold JsNumber.add. apply round_double_idempotent. }
  rewrite Hsum. cbn [mbind result_bind]. rewrite Z.eqb_refl. exact IH.
Qed.

(** Blocks in the two forms of the encoding are well formed. *)
Lemma short_form_well_formed (t l : byte) (payload : Buffer) :
  byte_val l = buf_length payload ->
  byte_val l <= 127 ->
  well_formed_block (t :: l :: payload).
Proof.
  intros Hlen Hshort.
  exists {| tag := byte_val t; position := 2; Asn1.length := byte_val l |}.
  split.
  - unfold readTag.
    destruct (Z.ltb_spec 0 0); [lia|].
    destruct (Z.leb_spec (buf_length (t :: l :: payload)) 0) as [Hle|_].
    { unfold buf_length in Hle. cbn in Hle. lia. }
    rewrite (readUInt8_app [] t (l :: payload)
             : readUInt8 (t :: l :: payload) 0 = _).
    cbn [mbind result_bind].
    rewrite (readUInt8_app [t] l payload
             : readUInt8 (t :: l :: payload) (0 + 1) = _).
    cbn [mbind result_bind].
    destruct (Z.ltb_spec 127 (byte_val l)); [lia | reflexivity].
  - cbn [position Asn1.length]. unfold JsNumber.add.
    rewrite round_double_safe by (unfold JsNumber.MAX_SAFE; lia).
    unfold buf_length in *. cbn [List.length]. lia.
Qed.

Lemma long_form_well_formed (t l : byte) (bs payload : Buffer) :
  Z.testbit (byte_val l) 7 = true ->
  Z.of_nat (List.length bs) = Z.land (byte_val l) 0x7f ->
  big_endian bs = buf_length payload ->
  buf_length (t :: l :: bs ++ payload) < 2 ^ 53 ->
  well_formed_block (t :: l :: bs ++ payload).
Proof.
  intros Hbit Hn Hlen Hsafe.
  assert (Hsize : buf_length (t :: l :: bs ++ payload)
                  = 2 + buf_length bs + buf_length payload).
  { unfold buf_length. cbn [List.length]. rewrite length_app. lia. }
  assert (0 <= buf_length bs) by (unfold buf_length; lia).
  eexists. split.
  - apply (readTag_long_length [] t l bs payload Hbit Hn). lia.
  - cbn [position Asn1.length]. change (buf_length []) with 0.
    unfold JsNumber.add.
    rewrite round_double_safe by (unfold JsNumber.MAX_SAFE; lia).
    lia.
Qed.

(** C8: a buffer made of one or more well-formed top-level blocks is cut by
    [split_der] into exactly these blocks, and [combine_der] of the result
    passes its sanity check and gives the buffer back, byte for byte. *)
Theorem combine_der_split_der (blocks : list Buffer) :
  blocks <> [] ->
  Forall well_formed_block blocks ->
  split_der (concat blocks) = Ok blocks
  /\ (split_der (concat blocks) ≫= combine_der) = Ok (concat blocks).
Proof.
  intros Hne Hwf.
  rewrite (split_der_concat blocks Hne Hwf). split; [reflexivity|].
  cbn [mbind result_bind]. unfold combine_der.
  rewrite (sanity_check_well_formed blocks Hwf). reflexivity.
Qed.

Lemma combine_der_split_der_witness :
  split_der (concat [[x30; x01; xaa]; [x30; x81; x02; xbb; xcc]])
  = Ok [[x30; x01; xaa]; [x30; x81; x02; xbb; xcc]]
  /\ (split_der (concat [[x30; x01; xaa]; [x30; x81; x02; xbb; xcc]])
        ≫= combine_der)
     = Ok [x30; x01; xaa; x30; x81; x02; xbb; xcc].
Proof.
  apply (combine_der_split_der [[x30; x01; xaa]; [x30; x81; x02; xbb; xcc]]).
  - discriminate.
  - repeat constructor; eexists; (split; [vm_compute; reflexivity | reflexivity]).
Defined.

End DerFacts.

(** * Properties of the certificate manager *)

Module PkiFacts.

Import Pki.

Section Facts.

Context `{Collaborators}.

(** The issuer part of the body only calls [rec] one level up. *)
Lemma checkIssuer_ext rec1 rec2 certificate chain0 info level st :
  (forall c st', rec1 c true (level + 1)%nat st' = rec2 c true (level + 1)%nat st') ->
  checkIssuer rec1 certificate chain0 info level st
  = checkIssuer rec2 certificate chain0 info level st.
Proof.
  intros Hrec. unfold checkIssuer.
  destruct (truthy _); [|reflexivity].
  destruct (negb _); [|reflexivity].
  unfold mbind, M_bind, reads.
  destruct (findIssuerCertificate _ _) as [[issuer|]| |]; try reflexivity.
  rewrite Hrec. reflexivity.
Qed.

Lemma verify_body_ext rec1 rec2 certificate isIssuer level st :
  ((level < 5)%nat ->
   forall c st', rec1 c true (level + 1)%nat st' = rec2 c true (level + 1)%nat st') ->
  verify_body rec1 certificate isIssuer level st
  = verify_body rec2 certificate isIssuer level st.
Proof.
  intros Hrec. unfold verify_body.
  destruct (Nat.leb_spec 5 level) as [|Hlt]; [reflexivity|].
  unfold mbind, M_bind, lift.
  destruct (Der.split_der certificate) as [[|chain0 chain]| |]; try reflexivity.
  destruct (exploreCertificate chain0) as [info| |]; try reflexivity.
  rewrite (checkIssuer_ext rec1 rec2) by (apply Hrec, Hlt). reflexivity.
Qed.

(** [_innerVerifyCertificateAsync] satisfies its defining equation: the
    counter stands for the recursion of the source. *)
Lemma _innerVerifyCertificateAsync_unfold certificate isIssuer level st :
  _innerVerifyCertificateAsync certificate isIssuer level st
  = verify_body _innerVerifyCertificateAsync certificate isIssuer level st.
Proof.
  unfold _innerVerifyCertificateAsync at 1. cbn [innerVerify].
  apply verify_body_ext. intros Hlt c st'.
  unfold _innerVerifyCertificateAsync.
  replace (5 - level)%nat with (S (5 - (level + 1)))%nat by lia.
  reflexivity.
Qed.

Lemma level_limit rec certificate isIssuer level st :
  (5 <= level)%nat ->
  verify_body rec certificate isIssuer level st
  = (Ok BadSecurityChecksFailed, st).
Proof.
  intros Hlevel. unfold verify_body.
  destruct (Nat.leb_spec 5 level); [reflexivity | lia].
Qed.

Lemma issuer_chain_fails st n :
  (n <= 5)%nat ->
  forall c isIssuer,
    issuer_chain st n c ->
    _innerVerifyCertificateAsync c isIssuer (5 - n) st
    = (Ok BadSecurityChecksFailed, st).
Proof.
  induction n as [|n IH]; intros Hn c isIssuer Hchain.
  - rewrite _innerVerifyCertificateAsync_unfold. apply level_limit. lia.
  - inversion Hchain as [|? ? c' Hlink Hrest]; subst.
    destruct Hlink as (chain0 & chain & info & Hsplit & Hinfo & Hkey & Hself & Hissuer).
    rewrite _innerVerifyCertificateAsync_unfold. unfold verify_body.
    destruct (Nat.leb_spec 5 (5 - S n)); [lia|].
    unfold mbind, M_bind, lift. rewrite Hsplit, Hinfo.
    unfold checkIssuer. rewrite Hkey, Hself. cbn [negb].
    unfold mbind, M_bind, reads. rewrite Hissuer.
    replace (5 - S n + 1)%nat with (5 - n)%nat by lia.
    rewrite (IH ltac:(lia) c' true Hrest). reflexivity.
Qed.

Lemma issuer_chain_truncate st n :
  forall m c, (n <= m)%nat -> issuer_chain st m c -> issuer_chain st n c.
Proof.
  induction n as [|n IH]; intros m c Hle Hchain.
  - apply chain_end.
  - inversion Hchain as [|m' ? c' Hlink Hrest]; subst; [lia|].
    apply (chain_link _ _ _ c'); [exact Hlink|].
    apply (IH m'); [lia | exact Hrest].
Qed.

(** C2: at level 5 or more the body returns [BadSecurityChecksFailed]
    whatever the recursive call would do, so the verifier does too and
    leaves the store alone; hence verifying a certificate from which five
    or more issuer links lead on (six certificates or more, or a cycle)
    returns [BadSecurityChecksFailed]. *)
Theorem depth_bound :
  (forall rec certificate isIssuer level st,
      (5 <= level)%nat ->
      verify_body rec certificate isIssuer level st
      = (Ok BadSecurityChecksFailed, st))
  /\ (forall certificate isIssuer level st,
        (5 <= level)%nat ->
        _innerVerifyCertificateAsync certificate isIssuer level st
        = (Ok BadSecurityChecksFailed, st))
  /\ (forall st n c0,
        (5 <= n)%nat ->
        issuer_chain st n c0 ->
        verifyCertificateAsync c0 st = (Ok BadSecurityChecksFailed, st)).
Proof.
  split; [|split].
  - apply level_limit.
  - intros certificate isIssuer level st Hlevel.
    rewrite _innerVerifyCertificateAsync_unfold. apply level_limit, Hlevel.
  - intros st n c0 Hn Hchain. unfold verifyCertificateAsync.
    apply (issuer_chain_truncate st 5 n c0 Hn) in Hchain.
    exact (issuer_chain_fails st 5 ltac:(lia) c0 false Hchain).
Qed.

(** the body up to the issuer check, for a certificate below level 5 that
    splits and decodes *)
Lemma verify_body_decoded rec certificate isIssuer level st chain0 chain info :
  (level < 5)%nat ->
  Der.split_der certificate = Ok (chain0 :: chain) ->
  exploreCertificate chain0 = Ok info ->
  verify_body rec certificate isIssuer level st
  = match checkIssuer rec certificate chain0 info level st with
    | (Ok (Return verdict), st1) => (Ok verdict, st1)
    | (Ok (Continue hasValidIssuer hasTrustedIssuer), st1) =>
        match _checkRejectedOrTrusted certificate st1 with
        | (Ok rejected, st2) => (Ok BadCertificateUntrusted, st2)
        | (Ok status, st2) =>
            match exploreSecond (chain0 :: chain) with
            | Ok _ =>
                match exploreCertificateInfo certificate with
                | Ok certificateInfo =>
                    let invalid := isTimeInvalid certificateInfo (now level) in
                    match status with
                    | trusted =>
                        (Ok (if invalid then BadCertificateTimeInvalid else Good), st2)
                    | _ =>
                        if truthy (ext_authorityKeyIdentifier_keyIdentifier info)
                        then
                          if negb hasTrustedIssuer then (Ok BadCertificateUntrusted, st2)
                          else if negb hasValidIssuer then (Ok BadCertificateUntrusted, st2)
                          else (Ok (if invalid then BadCertificateTimeInvalid else Good), st2)
                        else (Ok BadCertificateUntrusted, st2)
                    end
                | Throw e => (Throw e, st2)
                | OutOfFuel => (OutOfFuel, st2)
                end
            | Throw e => (Throw e, st2)
            | OutOfFuel => (OutOfFuel, st2)
            end
        | (Throw e, st2) => (Throw e, st2)
        | (OutOfFuel, st2) => (OutOfFuel, st2)
        end
    | (Throw e, st1) => (Throw e, st1)
    | (OutOfFuel, st1) => (OutOfFuel, st1)
    end.
Proof.
  intros Hlevel Hsplit Hinfo. unfold verify_body.
  destruct (Nat.leb_spec 5 level); [lia|].
  unfold mbind, M_bind, lift. rewrite Hsplit, Hinfo.
  destruct (checkIssuer _ _ _ _ _ _) as [[[verdict|hv ht]| |] st1]; try reflexivity.
  destruct (_checkRejectedOrTrusted certificate st1) as [[status| |] st2];
    try reflexivity.
  destruct status; try reflexivity.
  destruct (exploreSecond _) as [[]| |]; try reflexivity.
  destruct (exploreCertificateInfo certificate) as [ci| |]; try reflexivity.
  destruct (truthy _); [|reflexivity].
  destruct (negb ht); [reflexivity|].
  destruct (negb hv); reflexivity.
Qed.

(** the issuer check of a certificate that is not self-signed and whose
    issuer is resolved, up to the verdict of the issuer *)
Lemma checkIssuer_resolved rec certificate chain0 info level st issuerCertificate :
  truthy (ext_authorityKeyIdentifier_keyIdentifier info) = true ->
  isSelfSigned2 info = false ->
  findIssuerCertificate (_thumbs st) chain0 = Ok (Some issuerCertificate) ->
  checkIssuer rec certificate chain0 info level st
  = match rec issuerCertificate true (level + 1)%nat st with
    | (Ok issuerStatus, st1) =>
        if bool_decide (issuerStatus = BadCertificateRevocationUnknown) then
          (Ok (Return BadCertificateIssuerRevocationUnknown), st1)
        else if bool_decide (issuerStatus = BadCertificateIssuerRevocationUnknown) then
          (Ok (Return BadCertificateIssuerRevocationUnknown), st1)
        else if bool_decide (issuerStatus = BadCertificateTimeInvalid) then
          (Ok (Return BadCertificateIssuerTimeInvalid), st1)
        else if bool_decide (issuerStatus ≠ Good)
                && bool_decide (issuerStatus ≠ BadCertificateUntrusted) then
          (Ok (Return BadSecurityChecksFailed), st1)
        else
          match verifyCertificateSignature certificate issuerCertificate with
          | Ok false => (Ok (Return BadSecurityChecksFailed), st1)
          | Ok true =>
              match isCertificateRevoked (_thumbs st1) certificate None with
              | Ok revokedStatus =>
                  if bool_decide (revokedStatus = BadCertificateRevocationUnknown)
                  then (Ok (Return BadCertificateRevocationUnknown), st1)
                  else if bool_decide (revokedStatus ≠ Good)
                  then (Ok (Return revokedStatus), st1)
                  else
                    match _checkRejectedOrTrusted issuerCertificate st1 with
                    | (Ok unknown, st2) => (Ok (Continue true false), st2)
                    | (Ok trusted, st2) => (Ok (Continue true true), st2)
                    | (Ok rejected, st2) => (Ok (Return BadSecurityChecksFailed), st2)
                    | (Throw e, st2) => (Throw e, st2)
                    | (OutOfFuel, st2) => (OutOfFuel, st2)
                    end
              | Throw e => (Throw e, st1)
              | OutOfFuel => (OutOfFuel, st1)
              end
          | Throw e => (Throw e, st1)
          | OutOfFuel => (OutOfFuel, st1)
          end
    | (Throw e, st1) => (Throw e, st1)
    | (OutOfFuel, st1) => (OutOfFuel, st1)
    end.
Proof.
  intros Hkey Hself Hissuer. unfold checkIssuer.
  rewrite Hkey, Hself. cbn [negb].
  unfold mbind, M_bind, reads, lift. rewrite Hissuer.
  destruct (rec issuerCertificate true _ st) as [[issuerStatus| |] st1];
    try reflexivity.
  repeat (match goal with
          | |- context [if ?c then _ else _] => destruct c
          end; try reflexivity).
  destruct (verifyCertificateSignature _ _) as [[|]| |]; try reflexivity.
  cbn [negb].
  destruct (isCertificateRevoked _ _ _) as [revokedStatus| |]; try reflexivity.
  repeat (match goal with
          | |- context [if ?c then _ else _] => destruct c
          end; try reflexivity).
  destruct (_checkRejectedOrTrusted issuerCertificate st1) as [[[]| |] st2];
    reflexivity.
Qed.

(** C4 (as amended): for a certificate that is not self-signed and whose
    issuer is resolved, the verdict [issuerStatus] of the issuer, verified
    one level up, is mapped as follows.  [BadCertificateRevocationUnknown]
    and [BadCertificateIssuerRevocationUnknown] both give
    [BadCertificateIssuerRevocationUnknown]; [BadCertificateTimeInvalid]
    gives [BadCertificateIssuerTimeInvalid]; every other verdict than [Good]
    and [BadCertificateUntrusted] gives [BadSecurityChecksFailed]; only for
    [Good] and [BadCertificateUntrusted] is the signature checked, and a
    mismatch gives [BadSecurityChecksFailed]. *)
Theorem issuer_verdict_mapping
  certificate isIssuer level st chain0 chain info issuerCertificate
  issuerStatus st1 :
  (level < 5)%nat ->
  Der.split_der certificate = Ok (chain0 :: chain) ->
  exploreCertificate chain0 = Ok info ->
  truthy (ext_authorityKeyIdentifier_keyIdentifier info) = true ->
  isSelfSigned2 info = false ->
  findIssuerCertificate (_thumbs st) chain0 = Ok (Some issuerCertificate) ->
  _innerVerifyCertificateAsync issuerCertificate true (level + 1)%nat st
  = (Ok issuerStatus, st1) ->
  let verdict := _innerVerifyCertificateAsync certificate isIssuer level st in
  (issuerStatus = BadCertificateRevocationUnknown ->
   verdict = (Ok BadCertificateIssuerRevocationUnknown, st1))
  /\ (issuerStatus = BadCertificateIssuerRevocationUnknown ->
      verdict = (Ok BadCertificateIssuerRevocationUnknown, st1))
  /\ (issuerStatus = BadCertificateTimeInvalid ->
      verdict = (Ok BadCertificateIssuerTimeInvalid, st1))
  /\ (issuerStatus <> BadCertificateRevocationUnknown ->
      issuerStatus <> BadCertificateIssuerRevocationUnknown ->
      issuerStatus <> BadCertificateTimeInvalid ->
      issuerStatus <> Good ->
      issuerStatus <> BadCertificateUntrusted ->
      verdict = (Ok BadSecurityChecksFailed, st1))
  /\ (issuerStatus = Good \/ issuerStatus = BadCertificateUntrusted ->
      verifyCertificateSignature certificate issuerCertificate = Ok false ->
      verdict = (Ok BadSecurityChecksFailed, st1)).
Proof.
  intros Hlevel Hsplit Hinfo Hkey Hself Hissuer Hrec verdict.
  assert (Hverdict :
    verdict
    = match checkIssuer _innerVerifyCertificateAsync certificate chain0 info
              level st with
      | (Ok (Return v), st') => (Ok v, st')
      | _ =>
          verify_body _innerVerifyCertificateAsync certificate isIssuer level st
      end).
  { unfold verdict. rewrite _innerVerifyCertificateAsync_unfold.
    rewrite (verify_body_decoded _ _ _ _ _ _ _ _ Hlevel Hsplit Hinfo).
    destruct (checkIssuer _ _ _ _ _ _) as [[[v|hv ht]| |] st']; reflexivity. }
  rewrite Hverdict.
  rewrite (checkIssuer_resolved _ _ _ _ _ _ _ Hkey Hself Hissuer), Hrec.
  repeat split.
  - intros ->. reflexivity.
  - intros ->. reflexivity.
  - intros ->. reflexivity.
  - intros H1 H2 H3 H4 H5. destruct issuerStatus; try congruence; reflexivity.
  - intros [-> | ->] ->; reflexivity.
Qed.

Lemma checkIssuer_no_key rec certificate chain0 info level st :
  truthy (ext_authorityKeyIdentifier_keyIdentifier info) = false ->
  checkIssuer rec certificate chain0 info level st
  = (Ok (Continue false false), st).
Proof. intros Hkey. unfold checkIssuer. rewrite Hkey. reflexivity. Qed.

(** the two date tests on dates that are valid times *)
Lemma isTimeInvalid_interval certificateInfo (now notBefore notAfter : Z) :
  info_notBefore certificateInfo = DateOf notBefore ->
  info_notAfter certificateInfo = DateOf notAfter ->
  isTimeInvalid certificateInfo now
  = negb ((notBefore <=? now) && (now <? notAfter)).
Proof.
  intros Hnb Hna. unfold isTimeInvalid. rewrite Hnb, Hna. cbn.
  destruct (Z.ltb_spec now notBefore), (Z.leb_spec notBefore now),
    (Z.leb_spec notAfter now), (Z.ltb_spec now notAfter);
    try lia; reflexivity.
Qed.

(** the verdict of a certificate that is not rejected, once the issuer
    check has let it through: [exploreCertificateInfo] is run on the second
    certificate of the chain and on the certificate, and what it throws is
    thrown *)
Lemma verify_body_continue
  certificate isIssuer level st chain0 chain info hasValidIssuer hasTrustedIssuer
  st1 status st2 :
  (level < 5)%nat ->
  Der.split_der certificate = Ok (chain0 :: chain) ->
  exploreCertificate chain0 = Ok info ->
  checkIssuer _innerVerifyCertificateAsync certificate chain0 info level st
  = (Ok (Continue hasValidIssuer hasTrustedIssuer), st1) ->
  _checkRejectedOrTrusted certificate st1 = (Ok status, st2) ->
  status <> rejected ->
  (forall certificateInfo,
      exploreSecond (chain0 :: chain) = Ok tt ->
      exploreCertificateInfo certificate = Ok certificateInfo ->
      _innerVerifyCertificateAsync certificate isIssuer level st
      = (Ok (match status with
             | trusted =>
                 if isTimeInvalid certificateInfo (now level)
                 then BadCertificateTimeInvalid else Good
             | _ =>
                 if truthy (ext_authorityKeyIdentifier_keyIdentifier info)
                    && hasTrustedIssuer && hasValidIssuer
                 then if isTimeInvalid certificateInfo (now level)
                      then BadCertificateTimeInvalid else Good
                 else BadCertificateUntrusted
             end), st2))
  /\ (forall e,
        exploreSecond (chain0 :: chain) = Throw e
        \/ (exploreSecond (chain0 :: chain) = Ok tt
            /\ exploreCertificateInfo certificate = Throw e) ->
        _innerVerifyCertificateAsync certificate isIssuer level st
        = (Throw e, st2)).
Proof.
  intros Hlevel Hsplit Hinfo Hissuer Hstatus Hnot.
  rewrite _innerVerifyCertificateAsync_unfold.
  rewrite (verify_body_decoded _ _ _ _ _ _ _ _ Hlevel Hsplit Hinfo).
  rewrite Hissuer, Hstatus. split.
  - intros certificateInfo Hsecond Hci.
    destruct status; [| |contradiction]; rewrite Hsecond, Hci.
    + destruct (truthy _); [|reflexivity].
      destruct hasTrustedIssuer; [|reflexivity].
      destruct hasValidIssuer; reflexivity.
    + reflexivity.
  - intros e [Hsecond | [Hsecond Hci]];
      (destruct status; [| |contradiction]); rewrite Hsecond, ?Hci; reflexivity.
Qed.

(** C1 (as amended): a certificate without authority key identifier, verified
    below level 5, gets [BadCertificateUntrusted] when its fingerprint is in
    the rejected map.  Otherwise [exploreCertificateInfo] is run on the
    second certificate of its chain, if any, and on the certificate, and
    what it throws is thrown by the verification; when it accepts them, the
    verdict is [BadCertificateUntrusted] when the fingerprint is in neither
    map, and [Good] or [BadCertificateTimeInvalid] when it is in the
    trusted map only: for validity dates that are valid times, [Good]
    exactly when [notBefore <= now < notAfter]. *)
Theorem unchained_certificate_verdict
  certificate isIssuer level st chain0 chain info status st' :
  (level < 5)%nat ->
  Der.split_der certificate = Ok (chain0 :: chain) ->
  exploreCertificate chain0 = Ok info ->
  truthy (ext_authorityKeyIdentifier_keyIdentifier info) = false ->
  _checkRejectedOrTrusted certificate st = (Ok status, st') ->
  let verdict := _innerVerifyCertificateAsync certificate isIssuer level st in
  match status with
  | rejected => verdict = (Ok BadCertificateUntrusted, st')
  | unknown =>
      (forall certificateInfo,
          exploreSecond (chain0 :: chain) = Ok tt ->
          exploreCertificateInfo certificate = Ok certificateInfo ->
          verdict = (Ok BadCertificateUntrusted, st'))
      /\ (forall e,
            exploreSecond (chain0 :: chain) = Throw e
            \/ (exploreSecond (chain0 :: chain) = Ok tt
                /\ exploreCertificateInfo certificate = Throw e) ->
            verdict = (Throw e, st'))
  | trusted =>
      (forall certificateInfo,
          exploreSecond (chain0 :: chain) = Ok tt ->
          exploreCertificateInfo certificate = Ok certificateInfo ->
          (verdict = (Ok Good, st')
           \/ verdict = (Ok BadCertificateTimeInvalid, st'))
          /\ forall notBefore notAfter,
               info_notBefore certificateInfo = DateOf notBefore ->
               info_notAfter certificateInfo = DateOf notAfter ->
               verdict
               = (Ok (if (notBefore <=? now level) && (now level <? notAfter)
                      then Good else BadCertificateTimeInvalid), st'))
      /\ (forall e,
            exploreSecond (chain0 :: chain) = Throw e
            \/ (exploreSecond (chain0 :: chain) = Ok tt
                /\ exploreCertificateInfo certificate = Throw e) ->
            verdict = (Throw e, st'))
  end.
Proof.
  intros Hlevel Hsplit Hinfo Hkey Hstatus verdict. unfold verdict.
  pose proof (checkIssuer_no_key _innerVerifyCertificateAsync certificate chain0
                info level st Hkey) as Hissuer.
  destruct status.
  - destruct (verify_body_continue certificate isIssuer level st chain0 chain info
                false false st unknown st' Hlevel Hsplit Hinfo Hissuer Hstatus
                ltac:(discriminate)) as [Hok Hthrow].
    split; [|exact Hthrow].
    intros ci Hsecond Hci. rewrite (Hok ci Hsecond Hci), Hkey. reflexivity.
  - destruct (verify_body_continue certificate isIssuer level st chain0 chain info
                false false st trusted st' Hlevel Hsplit Hinfo Hissuer Hstatus
                ltac:(discriminate)) as [Hok Hthrow].
    split; [|exact Hthrow].
    intros ci Hsecond Hci. rewrite (Hok ci Hsecond Hci). split.
    + destruct (isTimeInvalid ci (now level)); auto.
    + intros notBefore notAfter Hnb Hna.
      rewrite (isTimeInvalid_interval ci _ _ _ Hnb Hna).
      destruct ((notBefore <=? now level) && (now level <? notAfter)); reflexivity.
  - rewrite _innerVerifyCertificateAsync_unfold.
    rewrite (verify_body_decoded _ _ _ _ _ _ _ _ Hlevel Hsplit Hinfo).
    rewrite Hissuer, Hstatus. reflexivity.
Qed.

Lemma isTimeInvalid_dates certificateInfo (now notBefore notAfter : Z) :
  info_notBefore certificateInfo = DateOf notBefore ->
  info_notAfter certificateInfo = DateOf notAfter ->
  isTimeInvalid certificateInfo now = false <-> notBefore <= now < notAfter.
Proof.
  intros Hnb Hna. unfold isTimeInvalid. rewrite Hnb, Hna. cbn.
  destruct (Z.ltb_spec now notBefore), (Z.leb_spec notAfter now); cbn;
    split; intros; try discriminate; try lia; reflexivity.
Qed.

(** C6 (as amended): for validity dates that are valid times, the two date
    tests of the body judge the certificate time-valid exactly when
    [notBefore <= now < notAfter]; and for a certificate below level 5
    whose issuer check returns no verdict, whose fingerprint is found in
    the trusted map (and not in the rejected map) and which
    [exploreCertificateInfo] accepts, as it does the second certificate of
    the chain, if any, the verdict is [Good] or [BadCertificateTimeInvalid],
    and with validity dates that are valid times it is [Good] when
    time-valid and [BadCertificateTimeInvalid] when not; what
    [exploreCertificateInfo] throws is thrown by the verification. *)
Theorem trusted_certificate_verdict :
  (forall certificateInfo (now notBefore notAfter : Z),
      info_notBefore certificateInfo = DateOf notBefore ->
      info_notAfter certificateInfo = DateOf notAfter ->
      isTimeInvalid certificateInfo now = false
      <-> notBefore <= now < notAfter)
  /\ (forall certificate isIssuer level st chain0 chain info
             hasValidIssuer hasTrustedIssuer st1 st2,
        (level < 5)%nat ->
        Der.split_der certificate = Ok (chain0 :: chain) ->
        exploreCertificate chain0 = Ok info ->
        checkIssuer _innerVerifyCertificateAsync certificate chain0 info level st
        = (Ok (Continue hasValidIssuer hasTrustedIssuer), st1) ->
        _checkRejectedOrTrusted certificate st1 = (Ok trusted, st2) ->
        let verdict := _innerVerifyCertificateAsync certificate isIssuer level st in
        (forall certificateInfo,
            exploreSecond (chain0 :: chain) = Ok tt ->
            exploreCertificateInfo certificate = Ok certificateInfo ->
            (verdict = (Ok Good, st2)
             \/ verdict = (Ok BadCertificateTimeInvalid, st2))
            /\ forall notBefore notAfter,
                 info_notBefore certificateInfo = DateOf notBefore ->
                 info_notAfter certificateInfo = DateOf notAfter ->
                 (notBefore <= now level < notAfter ->
                  verdict = (Ok Good, st2))
                 /\ (~ notBefore <= now level < notAfter ->
                     verdict = (Ok BadCertificateTimeInvalid, st2)))
        /\ (forall e,
              exploreSecond (chain0 :: chain) = Throw e
              \/ (exploreSecond (chain0 :: chain) = Ok tt
                  /\ exploreCertificateInfo certificate = Throw e) ->
              verdict = (Throw e, st2))).
Proof.
  split.
  - apply isTimeInvalid_dates.
  - intros certificate isIssuer level st chain0 chain info hv ht st1 st2
           Hlevel Hsplit Hinfo Hissuer Hstatus verdict. unfold verdict.
    destruct (verify_body_continue certificate isIssuer level st chain0 chain info
                hv ht st1 trusted st2 Hlevel Hsplit Hinfo Hissuer Hstatus
                ltac:(discriminate)) as [Hok Hthrow].
    split; [|exact Hthrow].
    intros ci Hsecond Hci. rewrite (Hok ci Hsecond Hci). split.
    + destruct (isTimeInvalid ci (now level)); auto.
    + intros notBefore notAfter Hnb Hna.
      pose proof (isTimeInvalid_dates ci (now level) _ _ Hnb Hna) as Hdates.
      destruct (isTimeInvalid ci (now level)); split; intros Hin;
        try reflexivity.
      * apply Hdates in Hin. discriminate.
      * exfalso. apply Hin, Hdates. reflexivity.
Qed.

(** a certificate with a serial number is looked up under it *)
Lemma lookedUpSerialNumber_own certInfo :
  serialNumber (tbsCertificate certInfo) <> ""%string ->
  lookedUpSerialNumber certInfo = serialNumber (tbsCertificate certInfo).
Proof.
  intros Hserial. unfold lookedUpSerialNumber, or_else. cbn [truthy].
  rewrite (bool_decide_eq_false_2 _ Hserial). reflexivity.
Qed.

Lemma strict_eq_spec (a b : JsString) : strict_eq a b = true <-> a = b.
Proof.
  destruct a as [| |s], b as [| |t]; cbn; split; intros Heq;
    try discriminate; try reflexivity.
  - apply bool_decide_eq_true in Heq. congruence.
  - injection Heq as ->. apply bool_decide_eq_true. reflexivity.
Qed.

(** the CRL data [_findAssociatedCRLs] hands back: the entry of the issuer
    CRL index, and the entry of the direct CRL index only when the former
    is missing *)
Lemma _findAssociatedCRLs_found t issuerCertificate issuerInfo :
  exploreCertificate issuerCertificate = Ok issuerInfo ->
  (forall crls,
      thumbs_issuersCrl t !! subjectFingerPrint (tbsCertificate issuerInfo)
      = Some crls
      \/ (thumbs_issuersCrl t !! subjectFingerPrint (tbsCertificate issuerInfo)
          = None
          /\ thumbs_crl t !! subjectFingerPrint (tbsCertificate issuerInfo)
             = Some crls) ->
      _findAssociatedCRLs t issuerCertificate = Ok (Some crls))
  /\ (thumbs_issuersCrl t !! subjectFingerPrint (tbsCertificate issuerInfo)
      = None ->
      thumbs_crl t !! subjectFingerPrint (tbsCertificate issuerInfo) = None ->
      _findAssociatedCRLs t issuerCertificate = Ok None).
Proof.
  intros Hinfo. unfold _findAssociatedCRLs. rewrite Hinfo.
  cbn [mbind result_bind]. split.
  - intros crls [-> | [-> ->]]; reflexivity.
  - intros -> ->. reflexivity.
Qed.

(** the key of the second lookup *)
Lemma lookedUpCrlKey_named certInfo (key : string) :
  (ext_authorityCertIssuerFingerPrint certInfo = Str key /\ key <> ""%string)
  \/ ((ext_authorityCertIssuerFingerPrint certInfo = Undefined
       \/ ext_authorityCertIssuerFingerPrint certInfo = Str "")
      /\ key = "<unknown>"%string) ->
  lookedUpCrlKey certInfo = key.
Proof.
  unfold lookedUpCrlKey, or_else.
  intros [[-> Hkey] | [[-> | ->] ->]]; cbn [truthy]; try reflexivity.
  rewrite (bool_decide_eq_false_2 _ Hkey). reflexivity.
Qed.

(** C3 (as amended): [isCertificateRevoked] returns [Good] for a self-signed
    certificate.  For another certificate it returns
    [BadCertificateChainIncomplete] when no issuer is given or found.  With
    an issuer of subject fingerprint [F], the CRL data of the issuer is the
    entry of the issuer CRL index under [F], or, only when that index has
    none, the entry of the direct CRL index under [F]:
    [BadCertificateRevocationUnknown] is returned when neither index has an
    entry under [F]; otherwise a certificate whose serial number is not
    empty gets [BadCertificateRevoked] when that serial number is bound in
    the CRL data of the issuer, or in the entry of the direct CRL index
    under the certificate's authorityCertIssuerFingerPrint (under
    ["<unknown>"] when it has none), and [Good] when it is bound in
    neither. *)
Theorem isCertificateRevoked_verdicts t certificate given certInfo :
  exploreCertificate certificate = Ok certInfo ->
  (ext_subjectKeyIdentifier certInfo
   = ext_authorityKeyIdentifier_keyIdentifier certInfo ->
   isCertificateRevoked t certificate given = Ok Good)
  /\ (ext_subjectKeyIdentifier certInfo
      <> ext_authorityKeyIdentifier_keyIdentifier certInfo ->
      (resolvesIssuer t certificate given None ->
       isCertificateRevoked t certificate given
       = Ok BadCertificateChainIncomplete)
      /\ (forall issuerCertificate issuerInfo,
            resolvesIssuer t certificate given (Some issuerCertificate) ->
            exploreCertificate issuerCertificate = Ok issuerInfo ->
            let F := subjectFingerPrint (tbsCertificate issuerInfo) in
            let serial := serialNumber (tbsCertificate certInfo) in
            (thumbs_issuersCrl t !! F = None ->
             thumbs_crl t !! F = None ->
             isCertificateRevoked t certificate given
             = Ok BadCertificateRevocationUnknown)
            /\ (forall crls (key : string),
                  thumbs_issuersCrl t !! F = Some crls
                  \/ (thumbs_issuersCrl t !! F = None
                      /\ thumbs_crl t !! F = Some crls) ->
                  serial <> ""%string ->
                  (ext_authorityCertIssuerFingerPrint certInfo = Str key
                   /\ key <> ""%string)
                  \/ ((ext_authorityCertIssuerFingerPrint certInfo = Undefined
                       \/ ext_authorityCertIssuerFingerPrint certInfo = Str "")
                      /\ key = "<unknown>"%string) ->
                  (is_Some (serialNumbers crls !! serial)
                   \/ (exists crl2,
                         thumbs_crl t !! key = Some crl2
                         /\ is_Some (serialNumbers crl2 !! serial)) ->
                   isCertificateRevoked t certificate given
                   = Ok BadCertificateRevoked)
                  /\ (serialNumbers crls !! serial = None ->
                      (forall crl2,
                          thumbs_crl t !! key = Some crl2 ->
                          serialNumbers crl2 !! serial = None) ->
                      isCertificateRevoked t certificate given = Ok Good)))).
Proof.
  intros Hinfo. split.
  - intros Hself. apply strict_eq_spec in Hself.
    unfold isCertificateRevoked, isSelfSigned3. rewrite Hinfo.
    cbn [mbind result_bind]. unfold isSelfSigned2. rewrite Hself. reflexivity.
  - intros Hnot.
    assert (Hself : isSelfSigned2 certInfo = false).
    { unfold isSelfSigned2. destruct (strict_eq _ _) eqn:Heq; [|reflexivity].
      apply strict_eq_spec in Heq. contradiction. }
    assert (Hstart : forall issuer,
      resolvesIssuer t certificate given issuer ->
      isCertificateRevoked t certificate given
      = match issuer with
        | None => Ok BadCertificateChainIncomplete
        | Some issuerCertificate =>
            crls ← _findAssociatedCRLs t issuerCertificate;
            match crls with
            | None => Ok BadCertificateRevocationUnknown
            | Some crls =>
                if listsSerial crls (lookedUpSerialNumber certInfo)
                   || match thumbs_crl t !! lookedUpCrlKey certInfo with
                      | Some crl2 => listsSerial crl2 (lookedUpSerialNumber certInfo)
                      | None => false
                      end
                then Ok BadCertificateRevoked else Ok Good
            end
        end).
    { intros issuer Hres.
      unfold isCertificateRevoked, isSelfSigned3. rewrite Hinfo.
      cbn [mbind result_bind]. rewrite Hself.
      destruct given as [c|]; cbn in Hres.
      - subst issuer. cbn [mbind result_bind].
        destruct (_findAssociatedCRLs t c) as [[crls|]| |]; reflexivity.
      - rewrite Hres. cbn [mbind result_bind].
        destruct issuer as [c|]; [|reflexivity].
        destruct (_findAssociatedCRLs t c) as [[crls|]| |]; reflexivity. }
    split.
    + intros Hres. exact (Hstart None Hres).
    + intros issuerCertificate issuerInfo Hres HissuerInfo F serial.
      rewrite (Hstart _ Hres).
      destruct (_findAssociatedCRLs_found t _ _ HissuerInfo) as [Hfound Hnone].
      fold F in Hfound, Hnone. split.
      * intros Hissuers Hcrl. rewrite (Hnone Hissuers Hcrl). reflexivity.
      * intros crls key Hcrls Hserial Hkey.
        rewrite (Hfound crls Hcrls). cbn [mbind result_bind].
        rewrite (lookedUpSerialNumber_own certInfo Hserial).
        rewrite (lookedUpCrlKey_named certInfo key Hkey).
        fold serial. unfold listsSerial. split.
        -- intros [Hin | (crl2 & Hcrl2 & Hin)].
           ++ rewrite (bool_decide_eq_true_2 _ Hin). reflexivity.
           ++ rewrite Hcrl2, (bool_decide_eq_true_2 _ Hin), orb_true_r.
              reflexivity.
        -- intros Hout Hout2.
           rewrite bool_decide_eq_false_2
             by (rewrite Hout; intros [? ?]; discriminate).
           destruct (thumbs_crl t !! key) as [crl2|]; [|reflexivity].
           rewrite bool_decide_eq_false_2; [reflexivity|].
           rewrite (Hout2 crl2 eq_refl). intros [? ?]; discriminate.
Qed.

Lemma obj_get_set {V} (o : JsObject V) (k : string) (v : V) :
  obj_get (obj_set o k v) k = Some v.
Proof.
  induction o as [|[k' v'] o IH]; cbn.
  - rewrite bool_decide_eq_true_2; reflexivity.
  - destruct (bool_decide (k' = k)) eqn:Hk; cbn; rewrite Hk; [reflexivity | exact IH].
Qed.


Lemma injectSerialNumber_lookup m r (s : string) :
  injectSerialNumber m r !! s
  = match m !! s with
    | Some d => Some d
    | None =>
        if bool_decide (userCertificate r = s) then Some (revocationDate r)
        else None
    end.
Proof.
  unfold injectSerialNumber.
  destruct (bool_decide (userCertificate r = s)) eqn:Hs.
  - apply bool_decide_eq_true in Hs. subst s.
    destruct (m !! userCertificate r) as [d|] eqn:Hm.
    + rewrite Hm. reflexivity.
    + rewrite lookup_insert_eq. reflexivity.
  - apply bool_decide_eq_false in Hs.
    destruct (m !! userCertificate r) as [d|] eqn:Hm.
    + destruct (m !! s); reflexivity.
    + rewrite lookup_insert_ne by exact Hs. destruct (m !! s); reflexivity.
Qed.

(** the loop over the revoked certificates of one CRL *)
Lemma inject_all_lookup revoked (m : gmap string Date) (s : string) :
  fold_left injectSerialNumber revoked m !! s
  = match m !! s with
    | Some d => Some d
    | None => firstRevocationDate revoked s
    end.
Proof.
  revert m. induction revoked as [|r revoked IH]; intros m; cbn.
  - destruct (m !! s); reflexivity.
  - rewrite IH, injectSerialNumber_lookup.
    destruct (m !! s); [reflexivity|].
    destruct (bool_decide (userCertificate r = s)); reflexivity.
Qed.

Lemma indexCrl_lookup crlInfo filename (index : gmap string CRLData) :
  exists data',
    indexCrl crlInfo filename index !! issuerFingerprint (tbsCertList crlInfo)
    = Some data'
    /\ forall s : string,
         serialNumbers data' !! s
         = match index !! issuerFingerprint (tbsCertList crlInfo)
                 ≫= (λ data, serialNumbers data !! s) with
           | Some d => Some d
           | None => firstRevocationDate
                       (revokedCertificates (tbsCertList crlInfo)) s
           end.
Proof.
  unfold indexCrl. eexists. split; [apply lookup_insert_eq|].
  intros s. cbn [serialNumbers]. rewrite inject_all_lookup.
  destruct (index !! issuerFingerprint (tbsCertList crlInfo)) as [data|]; cbn.
  - reflexivity.
  - rewrite lookup_empty. reflexivity.
Qed.

Lemma indexCrl_preserves crlInfo filename (index : gmap string CRLData)
  (fp s : string) data d :
  index !! fp = Some data ->
  serialNumbers data !! s = Some d ->
  exists data',
    indexCrl crlInfo filename index !! fp = Some data'
    /\ serialNumbers data' !! s = Some d.
Proof.
  intros Hdata Hs.
  destruct (decide (issuerFingerprint (tbsCertList crlInfo) = fp)) as [<-|Hne].
  - destruct (indexCrl_lookup crlInfo filename index) as (data' & Hdata' & Hlookup).
    exists data'. split; [exact Hdata'|].
    rewrite Hlookup, Hdata. cbn. rewrite Hs. reflexivity.
  - exists data. split; [|exact Hs].
    unfold indexCrl. rewrite lookup_insert_ne by exact Hne. exact Hdata.
Qed.

Lemma get_set_index i m t : get_index i (set_index i m t) = m.
Proof. destruct i; reflexivity. Qed.

Lemma get_set_index_other i j m t :
  i <> j -> get_index i (set_index j m t) = get_index i t.
Proof. destruct i, j; intros Hne; try congruence; reflexivity. Qed.

(** the fields a resumed call leaves alone *)
Lemma indexReadCrl_fields item read st :
  queue (indexReadCrl item read st) = queue st
  /\ _pending_crl_to_process (indexReadCrl item read st)
     = _pending_crl_to_process st
  /\ fs (indexReadCrl item read st) = fs st.
Proof.
  unfold indexReadCrl.
  match goal with
  | |- context [match ?x with Ok _ => _ | Throw _ => _ | OutOfFuel => _ end] =>
      destruct x
  end; auto.
Qed.

Lemma indexReadCrl_preserves item read st i (fp s : string) data d :
  get_index i (_thumbs st) !! fp = Some data ->
  serialNumbers data !! s = Some d ->
  exists data',
    get_index i (_thumbs (indexReadCrl item read st)) !! fp = Some data'
    /\ serialNumbers data' !! s = Some d.
Proof.
  intros Hdata Hs. unfold indexReadCrl.
  match goal with
  | |- context [match ?x with Ok _ => _ | Throw _ => _ | OutOfFuel => _ end] =>
      destruct x as [crlInfo| |]
  end; [|eauto..].
  cbn [_thumbs set_thumbs].
  destruct (decide (i = index item)) as [->|Hne].
  - rewrite get_set_index. apply (indexCrl_preserves _ _ _ _ _ _ _ Hdata Hs).
  - rewrite get_set_index_other by exact Hne. eauto.
Qed.


(** the end of a call and the start of the next leave the index alone *)
Lemma finish_crl_thumbs (next : M (option QueueItem)) st :
  (forall st', _thumbs (snd (next st')) = _thumbs st') ->
  _thumbs (snd (finish_crl next st)) = _thumbs st.
Proof.
  intros Hnext. unfold finish_crl.
  destruct (_ =? 0).
  - cbn [snd]. destruct (_on_crl_process _); reflexivity.
  - rewrite Hnext. reflexivity.
Qed.

Lemma process_next_crl_thumbs fuel :
  forall st, _thumbs (snd (process_next_crl fuel st)) = _thumbs st.
Proof.
  induction fuel as [|fuel IH]; intros st; [reflexivity|].
  cbn [process_next_crl].
  destruct (queue st); [|reflexivity].
  apply finish_crl_thumbs, IH.
Qed.

Lemma _process_next_crl_thumbs st :
  _thumbs (snd (_process_next_crl st)) = _thumbs st.
Proof. apply process_next_crl_thumbs. Qed.

Lemma _process_next_crl_resume_thumbs item read st :
  _thumbs (snd (_process_next_crl_resume item read st))
  = _thumbs (indexReadCrl item read st).
Proof. apply finish_crl_thumbs, _process_next_crl_thumbs. Qed.

Lemma crl_chain_done fuel st : crl_chain fuel None st = (Ok tt, st).
Proof. destruct fuel; reflexivity. Qed.

Lemma crl_chain_preserves fuel :
  forall waiting st i (fp s : string) data d,
    get_index i (_thumbs st) !! fp = Some data ->
    serialNumbers data !! s = Some d ->
    exists data',
      get_index i (_thumbs (snd (crl_chain fuel waiting st))) !! fp = Some data'
      /\ serialNumbers data' !! s = Some d.
Proof.
  induction fuel as [|fuel IH]; intros waiting st i fp s data d Hdata Hs.
  - destruct waiting; cbn; eauto.
  - destruct waiting as [item|]; [|cbn; eauto].
    cbn [crl_chain].
    destruct (indexReadCrl_preserves item
                (readCertificateRevocationList (fs st) (item_filename item))
                st i fp s data d Hdata Hs) as (data1 & Hdata1 & Hs1).
    rewrite <- _process_next_crl_resume_thumbs in Hdata1.
    destruct (_process_next_crl_resume item _ st) as [[waiting'| |] st'];
      cbn [snd] in *; eauto.
Qed.


(** C10: [verifyCertificate] without a certificate does not throw; it
    reports [BadSecurityChecksFailed], a value of [VerificationStatus], and
    leaves the store alone. *)
Theorem verifyCertificate_missing st :
  verifyCertificate None st = (Ok BadSecurityChecksFailed, st).
Proof. reflexivity. Qed.

(** *** The counters are never used up *)

Lemma processQueueHead_pending st :
  _pending_crl_to_process (processQueueHead st) = _pending_crl_to_process st.
Proof.
  unfold processQueueHead. destruct (queue st) as [|item queue']; [reflexivity|].
  exact (proj1 (proj2 (indexReadCrl_fields item _ (set_queue queue' st)))).
Qed.

(** A call started on a queue that is not empty waits for the file of the
    head. *)
Lemma process_next_crl_waits (fuel : nat) st item queue' :
  queue st = item :: queue' ->
  process_next_crl (S fuel) st = (Ok (Some item), set_queue queue' st).
Proof. intros Hqueue. cbn [process_next_crl]. rewrite Hqueue. reflexivity. Qed.

Lemma _process_next_crl_waits st item queue' :
  queue st = item :: queue' ->
  _process_next_crl st = (Ok (Some item), set_queue queue' st).
Proof. apply process_next_crl_waits. Qed.

(** Started on an empty queue with items counted as pending, the call and
    the calls it starts run to their end. *)
Lemma process_next_crl_returns (fuel : nat) :
  forall st,
    queue st = [] ->
    1 <= _pending_crl_to_process st <= Z.of_nat fuel ->
    fst (process_next_crl fuel st) = Ok None.
Proof.
  induction fuel as [|fuel IH]; intros st Hqueue Hpending; [lia|].
  cbn [process_next_crl]. rewrite Hqueue. unfold finish_crl.
  cbn [_pending_crl_to_process set_pending].
  destruct (Z.eqb_spec (_pending_crl_to_process st - 1) 0); [reflexivity|].
  apply IH; [exact Hqueue | cbn; lia].
Qed.

Lemma _process_next_crl_returns st :
  queue st <> [] \/ 1 <= _pending_crl_to_process st ->
  exists waiting, fst (_process_next_crl st) = Ok waiting.
Proof.
  intros Hstart. destruct (queue st) as [|item queue'] eqn:Hqueue.
  - destruct Hstart as [Hne|Hpending]; [contradiction|].
    exists None. apply process_next_crl_returns; [exact Hqueue | lia].
  - exists (Some item). rewrite (_process_next_crl_waits st item queue' Hqueue).
    reflexivity.
Qed.

Lemma bind_total {A B} (r : result A) (k : A -> result B) :
  r <> OutOfFuel -> (forall a, k a <> OutOfFuel) -> r ≫= k <> OutOfFuel.
Proof.
  intros Hr Hk. destruct r; cbn [mbind result_bind];
    [apply Hk | discriminate | congruence].
Qed.

Section Totality.

Hypothesis Htotal : total_collaborators.

Lemma exploreCertificate_total c : exploreCertificate c <> OutOfFuel.
Proof. apply Htotal. Qed.

Lemma exploreCertificateInfo_total c : exploreCertificateInfo c <> OutOfFuel.
Proof.
  unfold exploreCertificateInfo. pose proof (exploreCertificate_total c).
  destruct (exploreCertificate c); cbn [mbind result_bind];
    [| discriminate | congruence].
  destruct (negb _); discriminate.
Qed.

Lemma exploreSecond_total chain : exploreSecond chain <> OutOfFuel.
Proof.
  destruct chain as [|c0 [|c1 chain]]; cbn; try discriminate.
  pose proof (exploreCertificateInfo_total c1).
  destruct (exploreCertificateInfo c1); cbn [mbind result_bind];
    [discriminate | discriminate | congruence].
Qed.

Lemma findMatchingIssuerKey_total entries wanted :
  findMatchingIssuerKey entries wanted <> OutOfFuel.
Proof.
  induction entries as [|entry entries IH]; cbn [findMatchingIssuerKey];
    [discriminate|].
  pose proof (exploreCertificate_total (entry_certificate entry)).
  destruct (exploreCertificate _); cbn [mbind result_bind];
    [| discriminate | congruence].
  destruct (findMatchingIssuerKey entries wanted); cbn [mbind result_bind];
    [discriminate | discriminate | congruence].
Qed.

Lemma dumpCertificates_total entries : dumpCertificates entries <> OutOfFuel.
Proof.
  induction entries as [|entry entries IH]; cbn [dumpCertificates];
    [discriminate|].
  apply bind_total; [apply Htotal | intros _; exact IH].
Qed.

Lemma findIssuerCertificate_total t c : findIssuerCertificate t c <> OutOfFuel.
Proof.
  unfold findIssuerCertificate. pose proof (exploreCertificate_total c).
  destruct (exploreCertificate c) as [info| |]; cbn [mbind result_bind];
    [| discriminate | congruence].
  destruct (isSelfSigned2 info); [discriminate|].
  destruct (ext_authorityKeyIdentifier_keyIdentifier info) as [| |wanted];
    try discriminate.
  destruct (negb _); [discriminate|].
  pose proof (findMatchingIssuerKey_total
                (obj_values (thumbs_issuers_certs t)) wanted).
  destruct (findMatchingIssuerKey (obj_values (thumbs_issuers_certs t)) wanted)
    as [[|e es]| |]; cbn [mbind result_bind]; try discriminate; try congruence.
  pose proof (findMatchingIssuerKey_total
                (obj_values (thumbs_trusted t)) wanted).
  destruct (findMatchingIssuerKey (obj_values (thumbs_trusted t)) wanted)
    as [selected| |]; cbn [mbind result_bind]; try discriminate; try congruence.
  apply bind_total.
  - destruct (1 <? List.length selected)%nat;
      [apply dumpCertificates_total | discriminate].
  - intros _. destruct selected; discriminate.
Qed.

Lemma _findAssociatedCRLs_total t c : _findAssociatedCRLs t c <> OutOfFuel.
Proof.
  unfold _findAssociatedCRLs. apply bind_total; [apply exploreCertificate_total|].
  intros issuerInfo. destruct (thumbs_issuersCrl t !! _); [discriminate|].
  destruct (thumbs_crl t !! _); discriminate.
Qed.

Lemma isCertificateRevoked_total t c given :
  isCertificateRevoked t c given <> OutOfFuel.
Proof.
  unfold isCertificateRevoked. apply bind_total.
  { unfold isSelfSigned3. apply bind_total; [apply exploreCertificate_total|].
    discriminate. }
  intros [|]; [discriminate|]. apply bind_total.
  { destruct given; [discriminate | apply findIssuerCertificate_total]. }
  intros [issuer|]; [|discriminate].
  apply bind_total; [apply _findAssociatedCRLs_total|].
  intros [crls|]; [|discriminate].
  apply bind_total; [apply exploreCertificate_total|].
  intros certInfo. destruct (_ || _); discriminate.
Qed.

Lemma _checkRejectedOrTrusted_total c st :
  fst (_checkRejectedOrTrusted c st) <> OutOfFuel.
Proof.
  unfold _checkRejectedOrTrusted, _readCertificates, mbind, M_bind, reads.
  destruct (_readCertificatesCalled st).
  - destruct (obj_has _ _); [discriminate|]. destruct (obj_has _ _); discriminate.
  - destruct Htotal as (_ & _ & Hwalk & _).
    specialize (Hwalk (set_readCertificatesCalled true st)).
    destruct (walkFolders _) as [[[]| |] st']; cbn in *;
      [| discriminate | congruence].
    destruct (obj_has _ _); [discriminate|]. destruct (obj_has _ _); discriminate.
Qed.

Lemma checkIssuer_total rec certificate chain0 info level st :
  (forall c st', fst (rec c true (level + 1)%nat st') <> OutOfFuel) ->
  fst (checkIssuer rec certificate chain0 info level st) <> OutOfFuel.
Proof.
  intros Hrec. unfold checkIssuer.
  destruct Htotal as (_ & Hsig & _).
  destruct (truthy _); [|discriminate].
  destruct (negb (isSelfSigned2 info)).
  - unfold mbind, M_bind, reads, lift.
    pose proof (findIssuerCertificate_total (_thumbs st) chain0).
    destruct (findIssuerCertificate _ chain0) as [[issuer|]| |];
      try discriminate; try (cbn; congruence).
    specialize (Hrec issuer st).
    destruct (rec issuer true _ st) as [[issuerStatus| |] st1];
      try discriminate; try (cbn in *; congruence).
    repeat (match goal with
            | |- context [if bool_decide ?c then _ else _] =>
                destruct (bool_decide c)
            | |- context [if ?a && ?b then _ else _] => destruct (a && b)
            end; try discriminate).
    specialize (Hsig certificate issuer).
    destruct (verifyCertificateSignature certificate issuer) as [[|]| |];
      try discriminate; try (cbn; congruence).
    cbn [negb].
    pose proof (isCertificateRevoked_total (_thumbs st1) certificate None).
    destruct (isCertificateRevoked _ certificate None) as [revokedStatus| |];
      try discriminate; try (cbn; congruence).
    repeat (match goal with
            | |- context [if bool_decide ?c then _ else _] =>
                destruct (bool_decide c)
            end; try discriminate).
    pose proof (_checkRejectedOrTrusted_total issuer st1).
    destruct (_checkRejectedOrTrusted issuer st1) as [[[]| |] st2];
      try discriminate; cbn in *; congruence.
  - unfold mbind, M_bind, reads, lift.
    specialize (Hsig certificate certificate).
    destruct (verifyCertificateSignature certificate certificate) as [[|]| |];
      try discriminate; try (cbn; congruence).
    cbn [negb].
    pose proof (isCertificateRevoked_total (_thumbs st) certificate None).
    destruct (isCertificateRevoked _ certificate None);
      try discriminate; cbn; congruence.
Qed.

Lemma verify_body_total rec certificate isIssuer level st :
  ((level < 5)%nat ->
   forall c st', fst (rec c true (level + 1)%nat st') <> OutOfFuel) ->
  fst (verify_body rec certificate isIssuer level st) <> OutOfFuel.
Proof.
  intros Hrec. unfold verify_body.
  destruct (Nat.leb_spec 5 level) as [|Hlevel]; [discriminate|].
  unfold mbind, M_bind, lift.
  pose proof (DerFacts.split_der_total certificate).
  destruct (Der.split_der certificate) as [[|chain0 chain]| |];
    try discriminate; try (cbn; congruence).
  pose proof (exploreCertificate_total chain0).
  destruct (exploreCertificate chain0) as [info| |];
    try discriminate; try (cbn; congruence).
  pose proof (checkIssuer_total rec certificate chain0 info level st
                (Hrec Hlevel)).
  destruct (checkIssuer _ _ _ _ _ _) as [[[verdict|hv ht]| |] st1];
    try discriminate; try (cbn in *; congruence).
  pose proof (_checkRejectedOrTrusted_total certificate st1).
  destruct (_checkRejectedOrTrusted certificate st1) as [[status| |] st2];
    try discriminate; try (cbn in *; congruence).
  pose proof (exploreSecond_total (chain0 :: chain)).
  pose proof (exploreCertificateInfo_total certificate).
  destruct status; try discriminate;
    destruct (exploreSecond _) as [[]| |];
    try discriminate; try (cbn; congruence);
    destruct (exploreCertificateInfo certificate);
    try discriminate; try (cbn; congruence).
  destruct (truthy _); [|discriminate].
  destruct (negb ht); [discriminate|]. destruct (negb hv); discriminate.
Qed.

Lemma innerVerify_total (fuel : nat) :
  forall certificate isIssuer level st,
    (5 - level < fuel)%nat ->
    fst (innerVerify fuel certificate isIssuer level st) <> OutOfFuel.
Proof.
  induction fuel as [|fuel IH]; intros certificate isIssuer level st Hfuel;
    [lia|].
  cbn [innerVerify]. apply verify_body_total.
  intros Hlevel c st'. apply IH. lia.
Qed.

(** The depth bound makes the verifier total: whatever the certificates and
    the store, it returns a verdict or throws. *)
Lemma _innerVerifyCertificateAsync_total certificate isIssuer level st :
  fst (_innerVerifyCertificateAsync certificate isIssuer level st) <> OutOfFuel.
Proof. unfold _innerVerifyCertificateAsync. apply innerVerify_total. lia. Qed.

End Totality.

End Facts.

(** *** The theorems at work in the small world *)

Import Scenario.

Ltac link :=
  eexists _, _, _; repeat split; reflexivity.

Lemma depth_bound_witness :
  @verifyCertificateAsync world (cert x01 x02) cyclic_store
  = (Ok BadSecurityChecksFailed, cyclic_store).
Proof.
  apply (proj2 (proj2 (@depth_bound world)) cyclic_store 6%nat (cert x01 x02));
    [lia|].
  apply (chain_link _ _ _ (cert x02 x01)); [link|].
  apply (chain_link _ _ _ (cert x01 x02)); [link|].
  apply (chain_link _ _ _ (cert x02 x01)); [link|].
  apply (chain_link _ _ _ (cert x01 x02)); [link|].
  apply (chain_link _ _ _ (cert x02 x01)); [link|].
  apply (chain_link _ _ _ (cert x01 x02)); [link|].
  apply chain_end.
Defined.

(** C1 as stated fails: a trusted certificate without authority key
    identifier is judged [Good]. *)
Lemma unchained_certificate_counterexample :
  ~ (forall (C : Collaborators) certificate isIssuer level st chain0 chain info,
        Der.split_der certificate = Ok (chain0 :: chain) ->
        exploreCertificate chain0 = Ok info ->
        ext_authorityKeyIdentifier_keyIdentifier info = Undefined ->
        fst (_innerVerifyCertificateAsync certificate isIssuer level st)
        = Ok BadCertificateUntrusted).
Proof.
  intros Hall.
  specialize (Hall world (cert x01 x00) false 0%nat
                (store true [cert x01 x00] [] [] ∅ ∅)
                (cert x01 x00) [] _ eq_refl eq_refl eq_refl).
  vm_compute in Hall. discriminate Hall.
Qed.

Lemma unchained_certificate_verdict_witness :
  @_innerVerifyCertificateAsync world (cert x01 x00) false 0
     (store true [cert x01 x00] [] [] ∅ ∅)
  = (Ok Good, store true [cert x01 x00] [] [] ∅ ∅)
  /\ @_innerVerifyCertificateAsync world (cert x01 x00) false 0
       (store true [] [] [] ∅ ∅)
     = (Ok BadCertificateUntrusted, store true [] [] [] ∅ ∅)
  /\ @_innerVerifyCertificateAsync short_key_world (cert x01 x00) false 0
       (store true [cert x01 x00] [] [] ∅ ∅)
     = (Throw (Error "Invalid public key length"),
        store true [cert x01 x00] [] [] ∅ ∅).
Proof.
  split; [|split].
  - exact (proj2 (proj1 (@unchained_certificate_verdict world (cert x01 x00)
                           false 0%nat (store true [cert x01 x00] [] [] ∅ ∅)
                           (cert x01 x00) [] _ trusted _
                           ltac:(lia) eq_refl eq_refl eq_refl eq_refl)
                    dated eq_refl eq_refl)
             100 200 eq_refl eq_refl).
  - exact (proj1 (@unchained_certificate_verdict world (cert x01 x00)
                    false 0%nat (store true [] [] [] ∅ ∅)
                    (cert x01 x00) [] _ unknown _
                    ltac:(lia) eq_refl eq_refl eq_refl eq_refl)
             dated eq_refl eq_refl).
  - exact (proj2 (@unchained_certificate_verdict short_key_world (cert x01 x00)
                    false 0%nat (store true [cert x01 x00] [] [] ∅ ∅)
                    (cert x01 x00) [] _ trusted _
                    ltac:(lia) eq_refl eq_refl eq_refl eq_refl)
             (Error "Invalid public key length")
             (or_intror (conj eq_refl eq_refl))).
Defined.

(** C3 as stated fails: a serial number listed in the direct CRL index
    under the issuer's subject fingerprint is not seen when the issuer CRL
    index has an entry for that issuer. *)
Lemma isCertificateRevoked_counterexample :
  ~ (forall (C : Collaborators) t certificate issuerCertificate certInfo
            issuerInfo crls,
        exploreCertificate certificate = Ok certInfo ->
        ext_subjectKeyIdentifier certInfo
        <> ext_authorityKeyIdentifier_keyIdentifier certInfo ->
        exploreCertificate issuerCertificate = Ok issuerInfo ->
        thumbs_crl t !! subjectFingerPrint (tbsCertificate issuerInfo)
        = Some crls ->
        is_Some (serialNumbers crls !! serialNumber (tbsCertificate certInfo)) ->
        isCertificateRevoked t certificate (Some issuerCertificate)
        = Ok BadCertificateRevoked).
Proof.
  intros Hall.
  specialize (Hall world (_thumbs shadow_store) (cert x05 x06) (cert x06 x06)
                _ _ (mkCRLData {[ key_name x05 := DateOf 7 ]} [])
                eq_refl ltac:(discriminate) eq_refl eq_refl
                ltac:(eexists; reflexivity)).
  vm_compute in Hall. discriminate Hall.
Qed.

Lemma isCertificateRevoked_verdicts_witness :
  @isCertificateRevoked world (_thumbs revoking_store) (cert x06 x06) None
  = Ok Good
  /\ @isCertificateRevoked world (_thumbs revoking_store) (cert x05 x06) None
     = Ok BadCertificateRevoked
  /\ @isCertificateRevoked world (_thumbs revoking_store) (cert x07 x06) None
     = Ok Good
  /\ @isCertificateRevoked world (_thumbs chain_store) (cert x03 x04) None
     = Ok BadCertificateRevocationUnknown
  /\ @isCertificateRevoked world (_thumbs chain_store) (cert x08 x09) None
     = Ok BadCertificateChainIncomplete
  /\ @isCertificateRevoked world (_thumbs shadow_store) (cert x05 x06) None
     = Ok Good.
Proof.
  split; [|split; [|split; [|split; [|split]]]].
  - exact (proj1 (@isCertificateRevoked_verdicts world (_thumbs revoking_store)
                    (cert x06 x06) None _ eq_refl) eq_refl).
  - refine (proj1 (proj2 (proj2 (proj2 (@isCertificateRevoked_verdicts world
                     (_thumbs revoking_store) (cert x05 x06) None _ eq_refl)
                     ltac:(discriminate))
                     (cert x06 x06) _ eq_refl eq_refl)
                     (mkCRLData {[ key_name x05 := DateOf 7 ]} []) "<unknown>"
                     ltac:(left; reflexivity) ltac:(discriminate)
                     ltac:(right; split; [right; reflexivity | reflexivity])) _).
    left. eexists. reflexivity.
  - refine (proj2 (proj2 (proj2 (proj2 (@isCertificateRevoked_verdicts world
                     (_thumbs revoking_store) (cert x07 x06) None _ eq_refl)
                     ltac:(discriminate))
                     (cert x06 x06) _ eq_refl eq_refl)
                     (mkCRLData {[ key_name x05 := DateOf 7 ]} []) "<unknown>"
                     ltac:(left; reflexivity) ltac:(discriminate)
                     ltac:(right; split; [right; reflexivity | reflexivity]))
                  eq_refl _).
    intros crl2 Hcrl2. vm_compute in Hcrl2. discriminate Hcrl2.
  - exact (proj1 (proj2 (proj2 (@isCertificateRevoked_verdicts world
                     (_thumbs chain_store) (cert x03 x04) None _ eq_refl)
                     ltac:(discriminate))
                     (cert x04 x00) _ eq_refl eq_refl) eq_refl eq_refl).
  - exact (proj1 (proj2 (@isCertificateRevoked_verdicts world
                     (_thumbs chain_store) (cert x08 x09) None _ eq_refl)
                     ltac:(discriminate)) eq_refl).
  - refine (proj2 (proj2 (proj2 (proj2 (@isCertificateRevoked_verdicts world
                     (_thumbs shadow_store) (cert x05 x06) None _ eq_refl)
                     ltac:(discriminate))
                     (cert x06 x06) _ eq_refl eq_refl)
                     (mkCRLData ∅ []) "<unknown>"
                     ltac:(left; reflexivity) ltac:(discriminate)
                     ltac:(right; split; [right; reflexivity | reflexivity]))
                  eq_refl _).
    intros crl2 Hcrl2. vm_compute in Hcrl2. discriminate Hcrl2.
Defined.

Lemma issuer_verdict_mapping_witness :
  @_innerVerifyCertificateAsync world (cert x02 x03) false 0 chain_store
  = (Ok BadCertificateIssuerRevocationUnknown, chain_store).
Proof.
  exact (proj1 (@issuer_verdict_mapping world (cert x02 x03) false 0%nat
                  chain_store (cert x02 x03) [] _ (cert x03 x04)
                  BadCertificateRevocationUnknown chain_store
                  ltac:(lia) eq_refl eq_refl eq_refl eq_refl eq_refl eq_refl)
           eq_refl).
Defined.

(** C4 as stated fails: an issuer verdict
    [BadCertificateIssuerRevocationUnknown] is neither [Good] nor
    [BadCertificateUntrusted] nor one of the two named cases, and is passed
    on, not turned into [BadSecurityChecksFailed]. *)
Lemma issuer_verdict_mapping_counterexample :
  ~ (forall (C : Collaborators) certificate isIssuer level st chain0 chain info
            issuerCertificate issuerStatus st1,
        (level < 5)%nat ->
        Der.split_der certificate = Ok (chain0 :: chain) ->
        exploreCertificate chain0 = Ok info ->
        truthy (ext_authorityKeyIdentifier_keyIdentifier info) = true ->
        isSelfSigned2 info = false ->
        findIssuerCertificate (_thumbs st) chain0 = Ok (Some issuerCertificate) ->
        _innerVerifyCertificateAsync issuerCertificate true (level + 1)%nat st
        = (Ok issuerStatus, st1) ->
        issuerStatus <> Good ->
        issuerStatus <> BadCertificateUntrusted ->
        issuerStatus <> BadCertificateRevocationUnknown ->
        issuerStatus <> BadCertificateTimeInvalid ->
        _innerVerifyCertificateAsync certificate isIssuer level st
        = (Ok BadSecurityChecksFailed, st1)).
Proof.
  intros Hall.
  specialize (Hall world (cert x01 x02) false 0%nat chain_store
                (cert x01 x02) [] _ (cert x02 x03)
                BadCertificateIssuerRevocationUnknown chain_store
                ltac:(lia) eq_refl eq_refl eq_refl eq_refl eq_refl eq_refl
                ltac:(discriminate) ltac:(discriminate)
                ltac:(discriminate) ltac:(discriminate)).
  vm_compute in Hall. discriminate Hall.
Qed.



Lemma trusted_certificate_verdict_witness :
  (@isTimeInvalid dated 150 = false <-> 100 <= 150 < 200)
  /\ @_innerVerifyCertificateAsync world (cert x01 x00) false 0
       (store true [cert x01 x00] [] [] ∅ ∅)
     = (Ok Good, store true [cert x01 x00] [] [] ∅ ∅)
  /\ @_innerVerifyCertificateAsync (collaborators true 200) (cert x01 x00)
       false 0 (store true [cert x01 x00] [] [] ∅ ∅)
     = (Ok BadCertificateTimeInvalid, store true [cert x01 x00] [] [] ∅ ∅)
  /\ @_innerVerifyCertificateAsync short_key_world (cert x01 x00) false 0
       (store true [cert x01 x00] [] [] ∅ ∅)
     = (Throw (Error "Invalid public key length"),
        store true [cert x01 x00] [] [] ∅ ∅).
Proof.
  split; [|split; [|split]].
  - exact (proj1 (@trusted_certificate_verdict world) dated 150 100 200
             eq_refl eq_refl).
  - refine (proj1 (proj2 (proj1 (proj2 (@trusted_certificate_verdict world)
                     (cert x01 x00) false 0%nat
                     (store true [cert x01 x00] [] [] ∅ ∅) (cert x01 x00) [] _
                     false false _ _
                     ltac:(lia) eq_refl eq_refl eq_refl eq_refl)
                     dated eq_refl eq_refl)
                     100 200 eq_refl eq_refl) _).
    change (100 <= 150 < 200). lia.
  - refine (proj2 (proj2 (proj1 (proj2 (@trusted_certificate_verdict
                                          (collaborators true 200))
                     (cert x01 x00) false 0%nat
                     (store true [cert x01 x00] [] [] ∅ ∅) (cert x01 x00) [] _
                     false false _ _
                     ltac:(lia) eq_refl eq_refl eq_refl eq_refl)
                     dated eq_refl eq_refl)
                     100 200 eq_refl eq_refl) _).
    change (~ 100 <= 200 < 200). lia.
  - exact (proj2 (proj2 (@trusted_certificate_verdict short_key_world)
                    (cert x01 x00) false 0%nat
                    (store true [cert x01 x00] [] [] ∅ ∅) (cert x01 x00) [] _
                    false false _ _
                    ltac:(lia) eq_refl eq_refl eq_refl eq_refl)
             (Error "Invalid public key length")
             (or_intror (conj eq_refl eq_refl))).
Defined.

(** C6 as stated fails twice: a [notBefore] that is not a valid time passes
    the date tests, and a trusted certificate whose issuer cannot be
    resolved gets [BadSecurityChecksFailed], neither [Good] nor
    [BadCertificateTimeInvalid]. *)
Lemma trusted_certificate_counterexample :
  ~ (forall certificateInfo (now : Z),
        isTimeInvalid certificateInfo now = false
        <-> exists notBefore notAfter,
              getTime (info_notBefore certificateInfo) = Some notBefore
              /\ getTime (info_notAfter certificateInfo) = Some notAfter
              /\ notBefore <= now < notAfter)
  /\ ~ (forall (C : Collaborators) certificate isIssuer level st certificateInfo,
          obj_has (thumbs_trusted (_thumbs st)) (makeFingerprint certificate)
          = true ->
          exploreCertificateInfo certificate = Ok certificateInfo ->
          fst (_innerVerifyCertificateAsync certificate isIssuer level st)
          = Ok (if isTimeInvalid certificateInfo (now level)
                then BadCertificateTimeInvalid else Good)).
Proof.
  split.
  - intros Hall.
    destruct (proj1 (Hall undated 150) eq_refl) as (nb & na & Hnb & _).
    discriminate Hnb.
  - intros Hall.
    specialize (Hall world (cert x01 x09) false 0%nat
                  (store true [cert x01 x09] [] [] ∅ ∅) dated eq_refl eq_refl).
    vm_compute in Hall. discriminate Hall.
Qed.


End PkiFacts.

(** * Properties of the further operations of the manager *)

Module PkiOpsFacts.

Import Pki PkiOps.

Lemma obj_get_set_ne {V} (o : JsObject V) (k k' : string) (v : V) :
  k <> k' -> obj_get (obj_set o k v) k' = obj_get o k'.
Proof.
  intros Hne. induction o as [|[k0 v0] o IH]; cbn.
  - rewrite bool_decide_eq_false_2 by exact Hne. reflexivity.
  - destruct (bool_decide (k0 = k)) eqn:Hk; cbn.
    + apply bool_decide_eq_true in Hk. subst k0.
      rewrite !bool_decide_eq_false_2 by exact Hne. reflexivity.
    + rewrite IH. reflexivity.
Qed.

Lemma obj_get_delete {V} (o : JsObject V) (k : string) :
  obj_get (obj_delete o k) k = None.
Proof.
  unfold obj_delete.
  induction o as [|[k0 v0] o IH]; cbn; [reflexivity|].
  destruct (bool_decide (k0 = k)) eqn:Hk; cbn; [exact IH|].
  rewrite Hk. exact IH.
Qed.

Lemma obj_get_delete_ne {V} (o : JsObject V) (k k' : string) :
  k <> k' -> obj_get (obj_delete o k) k' = obj_get o k'.
Proof.
  intros Hne. unfold obj_delete.
  induction o as [|[k0 v0] o IH]; cbn; [reflexivity|].
  destruct (bool_decide (k0 = k)) eqn:Hk; cbn.
  - apply bool_decide_eq_true in Hk. subst k0.
    rewrite bool_decide_eq_false_2 by exact Hne. exact IH.
  - rewrite IH. reflexivity.
Qed.

Lemma obj_has_get {V} (o : JsObject V) (k : string) :
  obj_has o k = true <-> is_Some (obj_get o k).
Proof.
  unfold obj_has. destruct (obj_get o k); split; intros Hx;
    try discriminate; try reflexivity; eauto.
  destruct Hx as [? Hx]. discriminate Hx.
Qed.

Section Facts.

Context `{Collaborators} `{PathModule}.

(** what [_checkRejectedOrTrusted] answers is what the index it leaves
    holds: the rejected map is asked first *)
Lemma _checkRejectedOrTrusted_status certificate st status st1 :
  _checkRejectedOrTrusted certificate st = (Ok status, st1) ->
  match status with
  | rejected =>
      obj_has (thumbs_rejected (_thumbs st1)) (makeFingerprint certificate) = true
  | trusted =>
      obj_has (thumbs_rejected (_thumbs st1)) (makeFingerprint certificate) = false
      /\ obj_has (thumbs_trusted (_thumbs st1)) (makeFingerprint certificate) = true
  | unknown =>
      obj_has (thumbs_rejected (_thumbs st1)) (makeFingerprint certificate) = false
      /\ obj_has (thumbs_trusted (_thumbs st1)) (makeFingerprint certificate) = false
  end.
Proof.
  unfold _checkRejectedOrTrusted, mbind, M_bind, reads.
  destruct (_readCertificates st) as [[[]| |] st0]; try discriminate.
  destruct (obj_has (thumbs_rejected _) _) eqn:Hr.
  { intros [= <- <-]. exact Hr. }
  destruct (obj_has (thumbs_trusted _) _) eqn:Ht; intros [= <- <-]; auto.
Qed.

Lemma _checkRejectedOrTrusted_ready certificate st :
  _readCertificatesCalled st = true ->
  _checkRejectedOrTrusted certificate st
  = (Ok (if obj_has (thumbs_rejected (_thumbs st)) (makeFingerprint certificate)
         then rejected
         else if obj_has (thumbs_trusted (_thumbs st)) (makeFingerprint certificate)
              then trusted else unknown), st).
Proof.
  intros Hcalled.
  unfold _checkRejectedOrTrusted, mbind, M_bind, reads, _readCertificates.
  rewrite Hcalled.
  destruct (obj_has (thumbs_rejected _) _); [reflexivity|].
  destruct (obj_has (thumbs_trusted _) _); reflexivity.
Qed.

Lemma initialize_ready st : ready st -> initialize st = (Ok tt, st).
Proof.
  intros [Hstate _]. unfold initialize.
  destruct (state st); try reflexivity. contradiction.
Qed.

(** the answer of [getCertificateStatus] and the index it leaves *)
Lemma getCertificateStatus_answer certificate st status st' :
  getCertificateStatus certificate st = (Ok status, st') ->
  match status with
  | rejected =>
      obj_has (thumbs_rejected (_thumbs st')) (makeFingerprint certificate) = true
  | trusted =>
      obj_has (thumbs_rejected (_thumbs st')) (makeFingerprint certificate) = false
      /\ obj_has (thumbs_trusted (_thumbs st')) (makeFingerprint certificate) = true
  | unknown => False
  end.
Proof.
  unfold getCertificateStatus.
  destruct (initialize st) as [r0 st0]. unfold mbind, M_bind.
  destruct (_checkRejectedOrTrusted certificate st0) as [[status0| |] st1] eqn:Hstatus;
    try discriminate.
  apply _checkRejectedOrTrusted_status in Hstatus.
  destruct status0.
  - destruct (fs_writeFile _ _ _) as [[[]| |] fs']; try discriminate.
    intros [= <- <-]. cbn.
    apply obj_has_get. rewrite PkiFacts.obj_get_set. eauto.
  - intros [= <- <-]. exact Hstatus.
  - intros [= <- <-]. exact Hstatus.
Qed.

Lemma getCertificateStatus_first_sighting certificate st :
  ready st ->
  obj_has (thumbs_rejected (_thumbs st)) (makeFingerprint certificate) = false ->
  obj_has (thumbs_trusted (_thumbs st)) (makeFingerprint certificate) = false ->
  exists fs',
    snd (getCertificateStatus certificate st)
    = set_thumbs
        (set_rejected
           (obj_set (thumbs_rejected (_thumbs st)) (makeFingerprint certificate)
              (mkEntry certificate
                 (path_join (rejectedFolder st)
                    (buildIdealCertificateName certificate ++ ".pem"))))
           (_thumbs st))
        (set_fs fs' st).
Proof.
  intros Hready Hr Ht. unfold getCertificateStatus.
  rewrite (initialize_ready st Hready). unfold mbind, M_bind.
  rewrite (_checkRejectedOrTrusted_ready certificate st (proj2 Hready)), Hr, Ht.
  destruct (fs_writeFile _ _ _) as [[[]| |] fs']; exists fs'; reflexivity.
Qed.

(** X1: [getCertificateStatus] never answers "unknown" (the assertion of
    [_moveCertificate] cannot fail), and its answer is what the index holds
    afterwards.  On a store whose index has been read, a certificate seen
    for the first time is reported "rejected" by the next call, which
    changes nothing more: also when the first call failed to write the
    file. *)
Theorem getCertificateStatus_settles :
  (forall certificate st status st',
      getCertificateStatus certificate st = (Ok status, st') ->
      match status with
      | rejected =>
          obj_has (thumbs_rejected (_thumbs st')) (makeFingerprint certificate)
          = true
      | trusted =>
          obj_has (thumbs_rejected (_thumbs st')) (makeFingerprint certificate)
          = false
          /\ obj_has (thumbs_trusted (_thumbs st')) (makeFingerprint certificate)
             = true
      | unknown => False
      end)
  /\ (forall certificate st,
        ready st ->
        obj_has (thumbs_rejected (_thumbs st)) (makeFingerprint certificate)
        = false ->
        obj_has (thumbs_trusted (_thumbs st)) (makeFingerprint certificate)
        = false ->
        let st1 := snd (getCertificateStatus certificate st) in
        ready st1 /\ getCertificateStatus certificate st1 = (Ok rejected, st1)).
Proof.
  split; [apply getCertificateStatus_answer|].
  intros certificate st Hready Hr Ht st1.
  destruct (getCertificateStatus_first_sighting certificate st Hready Hr Ht)
    as (fs' & Hst1).
  fold st1 in Hst1.
  assert (Hready1 : ready st1).
  { rewrite Hst1. destruct Hready as [Hs Hc]. split; [exact Hs | exact Hc]. }
  split; [exact Hready1|].
  unfold getCertificateStatus.
  rewrite (initialize_ready st1 Hready1). unfold mbind, M_bind.
  rewrite (_checkRejectedOrTrusted_ready certificate st1 (proj2 Hready1)).
  assert (Hnow : obj_has (thumbs_rejected (_thumbs st1))
                         (makeFingerprint certificate) = true).
  { rewrite Hst1. cbn. apply obj_has_get. rewrite PkiFacts.obj_get_set. eauto. }
  rewrite Hnow. reflexivity.
Qed.

(** X2: when [trustCertificate] reports success the fingerprint is in the
    trusted map and no longer in the rejected map; when [rejectCertificate]
    reports success the fingerprint is in the rejected map.  Neither
    depends on whether the file could be moved. *)
Theorem moveCertificate_index :
  (forall certificate st st',
      trustCertificate certificate st = (Ok tt, st') ->
      obj_has (thumbs_trusted (_thumbs st')) (makeFingerprint certificate) = true
      /\ obj_has (thumbs_rejected (_thumbs st')) (makeFingerprint certificate)
         = false)
  /\ (forall certificate st st',
        rejectCertificate certificate st = (Ok tt, st') ->
        obj_has (thumbs_rejected (_thumbs st')) (makeFingerprint certificate)
        = true).
Proof.
  split.
  - intros certificate st st'. unfold trustCertificate, _moveCertificate.
    destruct (getCertificateStatus certificate st) as [[status| |] st1] eqn:Hstatus;
      try discriminate.
    apply getCertificateStatus_answer in Hstatus.
    destruct status; [contradiction| |].
    + cbn. intros [= <-]. destruct Hstatus; auto.
    + cbn -[obj_delete obj_set]. destruct (bool_decide (_ = ""%string)); [discriminate|].
      destruct (fs_rename _ _ _) as [r fs']. intros [= <-].
      cbn -[obj_delete obj_set]. split.
      * apply obj_has_get. rewrite PkiFacts.obj_get_set. eauto.
      * unfold obj_has. rewrite obj_get_delete. reflexivity.
  - intros certificate st st'. unfold rejectCertificate, _moveCertificate.
    destruct (getCertificateStatus certificate st) as [[status| |] st1] eqn:Hstatus;
      try discriminate.
    apply getCertificateStatus_answer in Hstatus.
    destruct status; [contradiction| |].
    + cbn -[obj_delete obj_set]. destruct (bool_decide (_ = ""%string)); [discriminate|].
      destruct (fs_rename _ _ _) as [r fs']. intros [= <-]. cbn -[obj_delete obj_set].
      apply obj_has_get. rewrite PkiFacts.obj_get_set. eauto.
    + cbn. intros [= <-]. exact Hstatus.
Qed.

(** X3: the error of [fs.rename] is dropped.  When the file of a rejected
    certificate is missing, [trustCertificate] still reports success and
    moves the entry to the trusted map under the new file name, while the
    files stay as they were: index and disk disagree. *)
Theorem trustCertificate_rename_failure
  certificate st st1 entry :
  getCertificateStatus certificate st = (Ok rejected, st1) ->
  obj_get (thumbs_rejected (_thumbs st1)) (makeFingerprint certificate)
  = Some entry ->
  entry_filename entry <> ""%string ->
  files (fs st1) !! entry_filename entry = None ->
  exists st',
    trustCertificate certificate st = (Ok tt, st')
    /\ fs st' = fs st1
    /\ obj_get (thumbs_trusted (_thumbs st')) (makeFingerprint certificate)
       = Some (mkEntry certificate
                 (path_join (trustedFolder st1)
                    (path_basename (entry_filename entry)))).
Proof.
  intros Hstatus Hentry Hname Hmissing.
  unfold trustCertificate, _moveCertificate. rewrite Hstatus.
  rewrite (bool_decide_eq_true_2 (rejected ≠ trusted)) by discriminate.
  cbn [statusIndex]. rewrite Hentry.
  rewrite (bool_decide_eq_false_2 (entry_filename entry = ""%string))
    by exact Hname.
  unfold fs_rename. rewrite Hmissing.
  eexists. split; [reflexivity|]. cbn -[obj_delete obj_set].
  split; [reflexivity|]. apply PkiFacts.obj_get_set.
Qed.

(** *** The issuer search *)

Lemma findMatchingIssuerKey_filter entries wanted selected :
  findMatchingIssuerKey entries wanted = Ok selected ->
  selected = List.filter (keepsEntry wanted) entries /\ Forall decodes entries.
Proof.
  revert selected. induction entries as [|entry entries IH]; intros selected.
  - cbn. intros [= <-]. split; [reflexivity | constructor].
  - cbn [findMatchingIssuerKey List.filter]. unfold keepsEntry at 1.
    destruct (exploreCertificate (entry_certificate entry)) as [info| |] eqn:Hinfo;
      try discriminate.
    cbn [mbind result_bind].
    destruct (findMatchingIssuerKey entries wanted) as [sel| |]; try discriminate.
    cbn [mbind result_bind]. intros [= <-].
    destruct (IH sel eq_refl) as [-> Hall].
    split; [reflexivity|]. constructor; [exists info; exact Hinfo | exact Hall].
Qed.

Lemma findMatchingIssuerKey_decoded entries wanted :
  Forall decodes entries ->
  findMatchingIssuerKey entries wanted
  = Ok (List.filter (keepsEntry wanted) entries).
Proof.
  induction 1 as [|entry entries [info Hinfo] _ IH]; [reflexivity|].
  cbn [findMatchingIssuerKey List.filter]. unfold keepsEntry at 1.
  rewrite Hinfo, IH. reflexivity.
Qed.

Lemma filter_first {A} (f : A -> bool) (l : list A) (x : A) (rest : list A) :
  List.filter f l = x :: rest ->
  exists before after,
    l = before ++ x :: after
    /\ f x = true
    /\ Forall (fun y => f y = false) before.
Proof.
  induction l as [|y l IH]; cbn; [discriminate|].
  destruct (f y) eqn:Hy.
  - intros [= -> _]. exists [], l. split; [reflexivity|]. split; [exact Hy|constructor].
  - intros Hrest. destruct (IH Hrest) as (before & after & -> & Hx & Hbefore).
    exists (y :: before), after. split; [reflexivity|]. split; [exact Hx|].
    constructor; assumption.
Qed.

Lemma filter_none {A} (f : A -> bool) (l : list A) :
  List.filter f l = [] -> Forall (fun y => f y = false) l.
Proof.
  induction l as [|y l IH]; cbn; [constructor|].
  destruct (f y) eqn:Hy; [discriminate|].
  intros Hrest. constructor; [exact Hy | exact (IH Hrest)].
Qed.

Lemma keepsEntry_key wanted entry :
  keepsEntry wanted entry = true ->
  exists issuerInfo,
    exploreCertificate (entry_certificate entry) = Ok issuerInfo
    /\ ext_subjectKeyIdentifier issuerInfo = Str wanted.
Proof.
  unfold keepsEntry.
  destruct (exploreCertificate (entry_certificate entry)) as [info| |];
    try discriminate.
  destruct (extensions (tbsCertificate info)); [|discriminate].
  intros Heq. apply PkiFacts.strict_eq_spec in Heq. eauto.
Qed.

(** X4: what [findIssuerCertificate] returns.  A self-signed certificate is
    its own issuer.  Otherwise an issuer that is returned is the first
    entry, the issuer certificates taken before the trusted ones and each
    map in insertion order, whose subjectKeyIdentifier is the authority
    key identifier of the certificate; and when no issuer is returned, the
    certificate names no key or no entry of either map carries it. *)
Theorem findIssuerCertificate_first_match t certificate info :
  exploreCertificate certificate = Ok info ->
  (isSelfSigned2 info = true ->
   findIssuerCertificate t certificate = Ok (Some certificate))
  /\ (isSelfSigned2 info = false ->
      (forall issuer,
          findIssuerCertificate t certificate = Ok (Some issuer) ->
          exists wanted before entry after issuerInfo,
            ext_authorityKeyIdentifier_keyIdentifier info = Str wanted
            /\ wanted <> ""%string
            /\ obj_values (thumbs_issuers_certs t) ++ obj_values (thumbs_trusted t)
               = before ++ entry :: after
            /\ entry_certificate entry = issuer
            /\ Forall (fun e => keepsEntry wanted e = false) before
            /\ exploreCertificate issuer = Ok issuerInfo
            /\ ext_subjectKeyIdentifier issuerInfo = Str wanted)
      /\ (findIssuerCertificate t certificate = Ok None ->
          truthy (ext_authorityKeyIdentifier_keyIdentifier info) = false
          \/ exists wanted,
               ext_authorityKeyIdentifier_keyIdentifier info = Str wanted
               /\ Forall (fun e => keepsEntry wanted e = false)
                    (obj_values (thumbs_issuers_certs t)
                     ++ obj_values (thumbs_trusted t)))).
Proof.
  intros Hinfo. unfold findIssuerCertificate. rewrite Hinfo.
  cbn [mbind result_bind]. split.
  { intros ->. reflexivity. }
  intros ->.
  destruct (ext_authorityKeyIdentifier_keyIdentifier info) as [| |wanted] eqn:Hkey.
  { split; [discriminate | intros _; left; reflexivity]. }
  { split; [discriminate | intros _; left; reflexivity]. }
  destruct (truthy (Str wanted)) eqn:Htruthy; cbn [negb].
  2:{ split; [discriminate | intros _; left; reflexivity]. }
  assert (Hwanted : wanted <> ""%string).
  { cbn in Htruthy. apply negb_true_iff, bool_decide_eq_false in Htruthy.
    exact Htruthy. }
  destruct (findMatchingIssuerKey (obj_values (thumbs_issuers_certs t)) wanted)
    as [selected| |] eqn:Hissuers; cbn [mbind result_bind];
    [| split; discriminate | split; discriminate].
  apply findMatchingIssuerKey_filter in Hissuers as [-> _].
  destruct (List.filter (keepsEntry wanted) (obj_values (thumbs_issuers_certs t)))
    as [|entry rest] eqn:Hfilter.
  - apply filter_none in Hfilter.
    destruct (findMatchingIssuerKey (obj_values (thumbs_trusted t)) wanted)
      as [selected| |] eqn:Htrusted; cbn [mbind result_bind];
      [| split; discriminate | split; discriminate].
    apply findMatchingIssuerKey_filter in Htrusted as [-> _].
    destruct (List.filter (keepsEntry wanted) (obj_values (thumbs_trusted t)))
      as [|entry rest] eqn:Hfilter'.
    + apply filter_none in Hfilter'.
      split; [discriminate|]. intros _. right. exists wanted.
      split; [reflexivity|]. apply Forall_app. split; assumption.
    + destruct (if (1 <? List.length (entry :: rest))%nat
                then dumpCertificates (entry :: rest) else Ok tt) as [[]| |];
        cbn [mbind result_bind]; [| split; discriminate | split; discriminate].
      split; [|discriminate]. intros issuer [= <-].
      apply filter_first in Hfilter' as (before & after & Hsplit & Hkeep & Hbefore).
      destruct (keepsEntry_key wanted entry Hkeep) as (issuerInfo & Hii & Hski).
      exists wanted, (obj_values (thumbs_issuers_certs t) ++ before), entry, after,
        issuerInfo.
      repeat split; try assumption; try reflexivity.
      * rewrite Hsplit, <- app_assoc. reflexivity.
      * apply Forall_app. split; assumption.
  - split; [|discriminate]. intros issuer [= <-].
    apply filter_first in Hfilter as (before & after & Hsplit & Hkeep & Hbefore).
    destruct (keepsEntry_key wanted entry Hkeep) as (issuerInfo & Hii & Hski).
    exists wanted, before, entry, (after ++ obj_values (thumbs_trusted t)),
      issuerInfo.
    repeat split; try assumption; try reflexivity.
    rewrite Hsplit, <- app_assoc. reflexivity.
Qed.

Lemma obj_get_values {V} (o : JsObject V) (k : string) (v : V) :
  obj_get o k = Some v -> In v (obj_values o).
Proof.
  induction o as [|[k0 v0] o IH]; cbn; [discriminate|].
  destruct (bool_decide (k0 = k)); [intros [= ->]; left; reflexivity|].
  intros Hget. right. exact (IH Hget).
Qed.

Lemma filter_keeps {A} (f : A -> bool) (l : list A) (x : A) :
  In x l -> f x = true -> List.filter f l <> [].
Proof.
  intros Hin Hx Hnil. apply filter_none in Hnil.
  rewrite List.Forall_forall in Hnil. rewrite (Hnil x Hin) in Hx. discriminate.
Qed.


(** X6: an issuer entered by [addIssuer] is found.  Once the issuer is in
    the map, every certificate that is not self-signed and whose authority
    key identifier is the subjectKeyIdentifier of the issuer gets from
    [findIssuerCertificate] an issuer with that subjectKeyIdentifier,
    provided the issuer certificates of the map all decode. *)
Theorem addIssuer_then_findIssuerCertificate
  issuerCertificate st st' issuerInfo wanted certificate info :
  obj_get (thumbs_issuers_certs (_thumbs st)) (makeFingerprint issuerCertificate)
  = None ->
  addIssuer issuerCertificate false false st = (Ok Good, st') ->
  exploreCertificate issuerCertificate = Ok issuerInfo ->
  ext_subjectKeyIdentifier issuerInfo = Str wanted ->
  wanted <> ""%string ->
  exploreCertificate certificate = Ok info ->
  isSelfSigned2 info = false ->
  ext_authorityKeyIdentifier_keyIdentifier info = Str wanted ->
  Forall decodes (obj_values (thumbs_issuers_certs (_thumbs st'))) ->
  exists found foundInfo,
    findIssuerCertificate (_thumbs st') certificate = Ok (Some found)
    /\ exploreCertificate found = Ok foundInfo
    /\ ext_subjectKeyIdentifier foundInfo = Str wanted.
Proof.
  intros Hnew Hadd HissuerInfo Hski Hwanted Hinfo Hself Hkey Hdecode.
  assert (Hentered :
    exists filename,
      obj_get (thumbs_issuers_certs (_thumbs st'))
              (makeFingerprint issuerCertificate)
      = Some (mkEntry issuerCertificate filename)).
  { revert Hadd. unfold addIssuer. rewrite Hnew.
    destruct (fs_writeFile _ _ _) as [[[]| |] fs']; try discriminate.
    intros [= <-]. eexists. cbn -[obj_set]. apply PkiFacts.obj_get_set. }
  destruct Hentered as (filename & Hentered).
  apply obj_get_values in Hentered.
  assert (Hkeeps : keepsEntry wanted (mkEntry issuerCertificate filename) = true).
  { unfold keepsEntry. cbn [entry_certificate]. rewrite HissuerInfo.
    assert (Hext : ext_subjectKeyIdentifier issuerInfo = Str wanted) by exact Hski.
    unfold ext_subjectKeyIdentifier in Hext.
    destruct (extensions (tbsCertificate issuerInfo)) as [ext|] eqn:Hext';
      [|discriminate].
    apply PkiFacts.strict_eq_spec. unfold ext_subjectKeyIdentifier.
    rewrite Hext'. exact Hext. }
  pose proof (filter_keeps _ _ _ Hentered Hkeeps) as Hsome.
  unfold findIssuerCertificate. rewrite Hinfo. cbn [mbind result_bind].
  rewrite Hself, Hkey.
  assert (Htruthy : truthy (Str wanted) = true).
  { cbn. rewrite bool_decide_eq_false_2 by exact Hwanted. reflexivity. }
  rewrite Htruthy. cbn [negb].
  rewrite (findMatchingIssuerKey_decoded _ wanted Hdecode).
  cbn [mbind result_bind].
  destruct (List.filter (keepsEntry wanted) _) as [|entry rest] eqn:Hfilter;
    [contradiction|].
  apply filter_first in Hfilter as (_ & _ & _ & Hkeep & _).
  destruct (keepsEntry_key wanted entry Hkeep) as (foundInfo & Hfound & Hfski).
  exists (entry_certificate entry), foundInfo. auto.
Qed.

(** *** The verifier on a store whose index has been read *)

Lemma checkIssuer_readonly rec certificate chain0 info level st :
  (forall c st', _readCertificatesCalled st' = true ->
                 snd (rec c true (level + 1)%nat st') = st') ->
  _readCertificatesCalled st = true ->
  snd (checkIssuer rec certificate chain0 info level st) = st.
Proof.
  intros Hrec Hcalled. unfold checkIssuer.
  destruct (truthy _); [|reflexivity].
  destruct (negb (isSelfSigned2 info)).
  - unfold mbind, M_bind, reads, lift.
    destruct (findIssuerCertificate _ chain0) as [[issuer|]| |]; try reflexivity.
    specialize (Hrec issuer st Hcalled).
    destruct (rec issuer true _ st) as [[issuerStatus| |] st1];
      cbn [snd] in Hrec; subst st1; try reflexivity.
    repeat (match goal with
            | |- context [if bool_decide ?c then _ else _] =>
                destruct (bool_decide c)
            | |- context [if ?a && ?b then _ else _] => destruct (a && b)
            end; try reflexivity).
    destruct (verifyCertificateSignature certificate issuer) as [[|]| |];
      try reflexivity.
    cbn [negb].
    destruct (isCertificateRevoked _ certificate None) as [revokedStatus| |];
      try reflexivity.
    repeat (match goal with
            | |- context [if bool_decide ?c then _ else _] =>
                destruct (bool_decide c)
            end; try reflexivity).
    rewrite (_checkRejectedOrTrusted_ready issuer st Hcalled).
    destruct (obj_has _ _); [reflexivity|]. destruct (obj_has _ _); reflexivity.
  - unfold mbind, M_bind, reads, lift.
    destruct (verifyCertificateSignature certificate certificate) as [[|]| |];
      try reflexivity.
    cbn [negb].
    destruct (isCertificateRevoked _ certificate None); reflexivity.
Qed.

Lemma verify_body_readonly rec certificate isIssuer level st :
  (forall c st', _readCertificatesCalled st' = true ->
                 snd (rec c true (level + 1)%nat st') = st') ->
  _readCertificatesCalled st = true ->
  snd (verify_body rec certificate isIssuer level st) = st.
Proof.
  intros Hrec Hcalled. unfold verify_body.
  destruct (5 <=? level)%nat; [reflexivity|].
  unfold mbind, M_bind, lift.
  destruct (Der.split_der certificate) as [[|chain0 chain]| |]; try reflexivity.
  destruct (exploreCertificate chain0) as [info| |]; try reflexivity.
  pose proof (checkIssuer_readonly rec certificate chain0 info level st
                Hrec Hcalled) as Hissuer.
  destruct (checkIssuer _ _ _ _ _ _) as [[[verdict|hv ht]| |] st1];
    cbn [snd] in Hissuer; subst st1; try reflexivity.
  rewrite (_checkRejectedOrTrusted_ready certificate st Hcalled).
  destruct (obj_has _ _); [reflexivity|].
  destruct (obj_has _ _);
    destruct (exploreSecond _) as [[]| |]; try reflexivity;
    destruct (exploreCertificateInfo certificate); try reflexivity.
  destruct (truthy _); [|reflexivity].
  destruct (negb ht); [reflexivity|]. destruct (negb hv); reflexivity.
Qed.

Lemma innerVerify_readonly (fuel : nat) :
  forall certificate isIssuer level st,
    _readCertificatesCalled st = true ->
    snd (innerVerify fuel certificate isIssuer level st) = st.
Proof.
  induction fuel as [|fuel IH]; intros certificate isIssuer level st Hcalled;
    [reflexivity|].
  cbn [innerVerify]. apply verify_body_readonly; [|exact Hcalled].
  intros c st' Hc. apply IH, Hc.
Qed.

(** X7: once the index has been read, verifying a certificate changes
    nothing in the store, whatever the verdict or the exception. *)
Theorem verification_reads_only certificate st :
  _readCertificatesCalled st = true ->
  (forall isIssuer level,
      snd (_innerVerifyCertificateAsync certificate isIssuer level st) = st)
  /\ snd (verifyCertificate (Some certificate) st) = st.
Proof.
  intros Hcalled. split.
  - intros isIssuer level. apply innerVerify_readonly, Hcalled.
  - apply innerVerify_readonly, Hcalled.
Qed.

(** *** The verdicts of the verifier *)

Lemma isCertificateRevoked_range t certificate given verdict :
  isCertificateRevoked t certificate given = Ok verdict ->
  In verdict [Good; BadCertificateChainIncomplete;
              BadCertificateRevocationUnknown; BadCertificateRevoked].
Proof.
  unfold isCertificateRevoked.
  destruct (isSelfSigned3 certificate) as [[|]| |]; cbn [mbind result_bind];
    try discriminate.
  { intros [= <-]. cbn; auto. }
  destruct (match given with Some c => Ok (Some c) | None => _ end)
    as [[issuer|]| |]; cbn [mbind result_bind]; try discriminate.
  2:{ intros [= <-]. cbn; auto. }
  destruct (_findAssociatedCRLs t issuer) as [[crls|]| |];
    cbn [mbind result_bind]; try discriminate.
  2:{ intros [= <-]. cbn; auto. }
  destruct (exploreCertificate certificate) as [certInfo| |];
    cbn [mbind result_bind]; try discriminate.
  destruct (_ || _); intros [= <-]; cbn; auto.
Qed.

(** a verdict the issuer check returns at once is never [Good] *)
Lemma checkIssuer_return rec certificate chain0 info level st verdict st' :
  checkIssuer rec certificate chain0 info level st = (Ok (Return verdict), st') ->
  verdict <> Good
  /\ In verdict [BadSecurityChecksFailed; BadCertificateIssuerRevocationUnknown;
                 BadCertificateIssuerTimeInvalid; BadCertificateRevocationUnknown;
                 BadCertificateRevoked; BadCertificateChainIncomplete].
Proof.
  unfold checkIssuer.
  destruct (truthy _); [|discriminate].
  destruct (negb (isSelfSigned2 info)).
  - unfold mbind, M_bind, reads, lift.
    destruct (findIssuerCertificate _ chain0) as [[issuer|]| |];
      try discriminate.
    2:{ intros [= <- _]. split; [discriminate | cbn; auto]. }
    destruct (rec issuer true _ st) as [[issuerStatus| |] st1]; try discriminate.
    repeat (match goal with
            | |- context [if bool_decide ?c then _ else _] =>
                destruct (bool_decide c)
            | |- context [if ?a && ?b then _ else _] => destruct (a && b)
            end;
            try (intros [= <- _]; split; [discriminate | cbn; tauto])).
    destruct (verifyCertificateSignature certificate issuer) as [[|]| |];
      try discriminate.
    2:{ intros [= <- _]. split; [discriminate | cbn; auto]. }
    cbn [negb].
    destruct (isCertificateRevoked _ certificate None) as [revokedStatus| |] eqn:Hrev;
      try discriminate.
    apply isCertificateRevoked_range in Hrev.
    destruct (bool_decide (revokedStatus = BadCertificateRevocationUnknown)).
    { intros [= <- _]. split; [discriminate | cbn; tauto]. }
    destruct (bool_decide (revokedStatus ≠ Good)) eqn:Hgood.
    { intros [= <- _]. apply bool_decide_eq_true in Hgood.
      split; [exact Hgood|]. cbn in Hrev |- *.
      destruct Hrev as [<-|[<-|[<-|[<-|[]]]]]; tauto. }
    destruct (_checkRejectedOrTrusted issuer st1) as [[[]| |] st2];
      try discriminate.
    intros [= <- _]. split; [discriminate | cbn; auto].
  - unfold mbind, M_bind, reads, lift.
    destruct (verifyCertificateSignature certificate certificate) as [[|]| |];
      try discriminate.
    2:{ intros [= <- _]. split; [discriminate | cbn; auto]. }
    cbn [negb].
    destruct (isCertificateRevoked _ certificate None); discriminate.
Qed.

(** X8: the verifier returns one of nine verdicts.  It never returns
    [BadCertificateInvalid], [BadCertificatePolicyCheckFailed],
    [BadCertificateHostNameInvalid], [BadCertificateUriInvalid],
    [BadCertificateUseNotAllowed], [BadCertificateIssuerUseNotAllowed] or
    [BadCertificateIssuerRevoked]: a revoked issuer shows in the verdict of
    the certificate as [BadSecurityChecksFailed]. *)
Theorem verifier_verdicts certificate isIssuer level st verdict st' :
  _innerVerifyCertificateAsync certificate isIssuer level st = (Ok verdict, st') ->
  In verdict verifierVerdicts.
Proof.
  rewrite PkiFacts._innerVerifyCertificateAsync_unfold. unfold verify_body.
  destruct (5 <=? level)%nat.
  { intros [= <- _]. cbn; auto. }
  unfold mbind, M_bind, lift.
  destruct (Der.split_der certificate) as [[|chain0 chain]| |]; try discriminate.
  destruct (exploreCertificate chain0) as [info| |]; try discriminate.
  destruct (checkIssuer _ _ _ _ _ _) as [[[v|hv ht]| |] st1] eqn:Hissuer;
    try discriminate.
  { apply checkIssuer_return in Hissuer as [_ Hin].
    intros [= <- _]. cbn in Hin |- *. tauto. }
  destruct (_checkRejectedOrTrusted certificate st1) as [[status| |] st2];
    try discriminate.
  destruct status;
    try (intros [= <- _]; cbn; tauto);
    destruct (exploreSecond _) as [[]| |]; try discriminate;
    destruct (exploreCertificateInfo certificate) as [ci| |]; try discriminate.
  - destruct (truthy _); [|intros [= <- _]; cbn; tauto].
    destruct (negb ht); [intros [= <- _]; cbn; tauto|].
    destruct (negb hv); [intros [= <- _]; cbn; tauto|].
    destruct (isTimeInvalid ci _); intros [= <- _]; cbn; tauto.
  - destruct (isTimeInvalid ci _); intros [= <- _]; cbn; tauto.
Qed.

(** the issuer check lets the body go on with a trusted issuer only after
    the issuer was found, the signature verified, the certificate found not
    revoked and the issuer found in the trusted map *)
Lemma checkIssuer_continue certificate chain0 info level st hv ht st' :
  _readCertificatesCalled st = true ->
  checkIssuer _innerVerifyCertificateAsync certificate chain0 info level st
  = (Ok (Continue hv ht), st') ->
  ht = true ->
  exists issuer,
    findIssuerCertificate (_thumbs st) chain0 = Ok (Some issuer)
    /\ verifyCertificateSignature certificate issuer = Ok true
    /\ isCertificateRevoked (_thumbs st) certificate None = Ok Good
    /\ obj_has (thumbs_trusted (_thumbs st)) (makeFingerprint issuer) = true
    /\ obj_has (thumbs_rejected (_thumbs st)) (makeFingerprint issuer) = false.
Proof.
  intros Hcalled. unfold checkIssuer.
  destruct (truthy _); [|intros [= _ <- _]; discriminate].
  destruct (negb (isSelfSigned2 info)).
  - unfold mbind, M_bind, reads, lift.
    destruct (findIssuerCertificate _ chain0) as [[issuer|]| |] eqn:Hfound;
      try discriminate.
    pose proof (innerVerify_readonly (S (5 - (level + 1))) issuer true
                  (level + 1)%nat st Hcalled) as Hsame.
    change (innerVerify (S (5 - (level + 1))) issuer true (level + 1)%nat st)
      with (_innerVerifyCertificateAsync issuer true (level + 1)%nat st) in Hsame.
    destruct (_innerVerifyCertificateAsync issuer true _ st)
      as [[issuerStatus| |] st1]; cbn [snd] in Hsame; subst st1;
      try discriminate.
    repeat (match goal with
            | |- context [if bool_decide ?c then _ else _] =>
                destruct (bool_decide c)
            | |- context [if ?a && ?b then _ else _] => destruct (a && b)
            end; try discriminate).
    destruct (verifyCertificateSignature certificate issuer) as [[|]| |] eqn:Hsig;
      try discriminate.
    cbn [negb].
    destruct (isCertificateRevoked _ certificate None) as [revokedStatus| |] eqn:Hrev;
      try discriminate.
    destruct (bool_decide (revokedStatus = BadCertificateRevocationUnknown));
      [discriminate|].
    destruct (bool_decide (revokedStatus ≠ Good)) eqn:Hgood; [discriminate|].
    apply bool_decide_eq_false in Hgood.
    assert (revokedStatus = Good) as ->
      by (destruct (decide (revokedStatus = Good)); [assumption|contradiction]).
    rewrite (_checkRejectedOrTrusted_ready issuer st Hcalled).
    destruct (obj_has (thumbs_rejected _) _) eqn:Hr; [discriminate|].
    destruct (obj_has (thumbs_trusted _) _) eqn:Ht.
    + intros _ _. exists issuer. auto.
    + intros [= _ <- _]. discriminate.
  - unfold mbind, M_bind, reads, lift.
    destruct (verifyCertificateSignature certificate certificate) as [[|]| |];
      try discriminate.
    cbn [negb].
    destruct (isCertificateRevoked _ certificate None); try discriminate.
    intros [= _ <- _]. discriminate.
Qed.

(** X9: what the verdict [Good] stands for, on a store whose index has been
    read.  The certificate was verified below level 5, its dates pass the
    two date tests, its fingerprint is not in the rejected map, and either
    its fingerprint is in the trusted map, or its issuer was found, signed
    it, is in the trusted map and not in the rejected map, and the
    certificate is not revoked.  A certificate that is expired, rejected,
    or neither trusted nor issued by a trusted issuer is never [Good]. *)
Theorem good_verdict certificate isIssuer level st st' :
  _readCertificatesCalled st = true ->
  _innerVerifyCertificateAsync certificate isIssuer level st = (Ok Good, st') ->
  (level < 5)%nat
  /\ (exists certificateInfo,
        exploreCertificateInfo certificate = Ok certificateInfo
        /\ isTimeInvalid certificateInfo (now level) = false)
  /\ obj_has (thumbs_rejected (_thumbs st)) (makeFingerprint certificate) = false
  /\ (obj_has (thumbs_trusted (_thumbs st)) (makeFingerprint certificate) = true
      \/ exists chain0 chain issuer,
           Der.split_der certificate = Ok (chain0 :: chain)
           /\ findIssuerCertificate (_thumbs st) chain0 = Ok (Some issuer)
           /\ verifyCertificateSignature certificate issuer = Ok true
           /\ isCertificateRevoked (_thumbs st) certificate None = Ok Good
           /\ obj_has (thumbs_trusted (_thumbs st)) (makeFingerprint issuer)
              = true
           /\ obj_has (thumbs_rejected (_thumbs st)) (makeFingerprint issuer)
              = false).
Proof.
  intros Hcalled.
  rewrite PkiFacts._innerVerifyCertificateAsync_unfold. unfold verify_body.
  destruct (Nat.leb_spec 5 level) as [|Hlevel]; [discriminate|].
  unfold mbind, M_bind, lift.
  destruct (Der.split_der certificate) as [[|chain0 chain]| |] eqn:Hsplit;
    try discriminate.
  destruct (exploreCertificate chain0) as [info| |]; try discriminate.
  pose proof (checkIssuer_readonly _innerVerifyCertificateAsync certificate
                chain0 info level st
                (fun c st0 Hc => innerVerify_readonly _ c true _ st0 Hc)
                Hcalled) as Hsame.
  destruct (checkIssuer _ _ _ _ _ _) as [[[v|hv ht]| |] st1] eqn:Hissuer;
    cbn [snd] in Hsame; subst st1; try discriminate.
  { apply checkIssuer_return in Hissuer as [Hv _].
    intros [= -> _]. contradiction. }
  rewrite (_checkRejectedOrTrusted_ready certificate st Hcalled).
  destruct (obj_has (thumbs_rejected _) _) eqn:Hr; [discriminate|].
  destruct (obj_has (thumbs_trusted _) _) eqn:Ht;
    destruct (exploreSecond _) as [[]| |]; try discriminate;
    destruct (exploreCertificateInfo certificate) as [ci| |]; try discriminate.
  - destruct (isTimeInvalid ci (now level)) eqn:Htime; [discriminate|].
    intros _. split; [exact Hlevel|]. split; [eauto|]. split; [reflexivity|].
    left. reflexivity.
  - destruct (truthy _); [|discriminate].
    destruct ht; cbn [negb]; [|discriminate].
    destruct hv; cbn [negb]; [|discriminate].
    destruct (isTimeInvalid ci (now level)) eqn:Htime; [discriminate|].
    intros _. split; [exact Hlevel|]. split; [eauto|]. split; [reflexivity|].
    right.
    destruct (checkIssuer_continue _ _ _ _ _ _ _ _ Hcalled Hissuer eq_refl)
      as (issuer & Hfound & Hsig & Hrev & Htrusted & Hnot).
    exists chain0, chain, issuer. auto 10.
Qed.

(** X10: the revocation verdict of the certificate comes before its own
    trust status.  For a certificate that is not self-signed, whose issuer
    is resolved with verdict [Good] or [BadCertificateUntrusted] and whose
    signature verifies, every verdict of [isCertificateRevoked] other than
    [Good] is returned as it is: a revoked certificate gets
    [BadCertificateRevoked] even when its fingerprint is in the trusted
    map. *)
Theorem revocation_comes_first
  certificate isIssuer level st chain0 chain info issuerCertificate
  issuerStatus st1 revokedStatus :
  (level < 5)%nat ->
  Der.split_der certificate = Ok (chain0 :: chain) ->
  exploreCertificate chain0 = Ok info ->
  truthy (ext_authorityKeyIdentifier_keyIdentifier info) = true ->
  isSelfSigned2 info = false ->
  findIssuerCertificate (_thumbs st) chain0 = Ok (Some issuerCertificate) ->
  _innerVerifyCertificateAsync issuerCertificate true (level + 1)%nat st
  = (Ok issuerStatus, st1) ->
  issuerStatus = Good \/ issuerStatus = BadCertificateUntrusted ->
  verifyCertificateSignature certificate issuerCertificate = Ok true ->
  isCertificateRevoked (_thumbs st1) certificate None = Ok revokedStatus ->
  revokedStatus <> Good ->
  _innerVerifyCertificateAsync certificate isIssuer level st
  = (Ok revokedStatus, st1).
Proof.
  intros Hlevel Hsplit Hinfo Hkey Hself Hissuer Hrec Hstatus Hsig Hrev Hbad.
  rewrite PkiFacts._innerVerifyCertificateAsync_unfold.
  rewrite (PkiFacts.verify_body_decoded _ _ _ _ _ _ _ _ Hlevel Hsplit Hinfo).
  rewrite (PkiFacts.checkIssuer_resolved _ _ _ _ _ _ _ Hkey Hself Hissuer), Hrec.
  rewrite Hsig, Hrev.
  rewrite (bool_decide_eq_true_2 (revokedStatus ≠ Good)) by exact Hbad.
  destruct Hstatus as [-> | ->]; cbn;
    destruct (bool_decide (revokedStatus = BadCertificateRevocationUnknown)) eqn:Hu;
    try reflexivity;
    apply bool_decide_eq_true in Hu; subst; reflexivity.
Qed.

(** *** Draining the CRL queue *)

Lemma firstRevocationDate_listed revoked r :
  In r revoked -> is_Some (firstRevocationDate revoked (userCertificate r)).
Proof.
  induction revoked as [|r0 revoked IH]; cbn; [contradiction|].
  intros [-> | Hin].
  - rewrite bool_decide_eq_true_2 by reflexivity. eauto.
  - destruct (bool_decide _); [eauto | exact (IH Hin)].
Qed.

(** a resumed call whose file decodes leaves the serial numbers bound *)
Lemma indexReadCrl_binds item crl crlInfo r st :
  exploreCertificateRevocationList crl = Ok crlInfo ->
  In r (revokedCertificates (tbsCertList crlInfo)) ->
  exists data d,
    get_index (index item) (_thumbs (indexReadCrl item (Ok crl) st))
      !! issuerFingerprint (tbsCertList crlInfo) = Some data
    /\ serialNumbers data !! userCertificate r = Some d.
Proof.
  intros Hdecode Hin. unfold indexReadCrl.
  cbn [mbind result_bind]. rewrite Hdecode.
  cbn [_thumbs set_thumbs]. rewrite PkiFacts.get_set_index.
  destruct (PkiFacts.indexCrl_lookup crlInfo (item_filename item)
              (get_index (index item) (_thumbs st)))
    as (data & Hdata & Hlookup).
  specialize (Hlookup (userCertificate r)).
  destruct (firstRevocationDate_listed _ r Hin) as [d0 Hd0].
  rewrite Hd0 in Hlookup.
  match type of Hlookup with
  | context [match ?x with Some _ => _ | None => _ end] =>
      destruct x as [d|]
  end; eauto.
Qed.

(** a call that is resumed while its item is the only one counted as
    pending ends the chain; otherwise it starts the call for the next item *)
Lemma _process_next_crl_resume_step item read st :
  _pending_crl_to_process st = 1 + Z.of_nat (List.length (queue st)) ->
  exists st',
    _process_next_crl_resume item read st
    = (Ok (head (queue st)), st')
    /\ queue st' = tail (queue st)
    /\ _pending_crl_to_process st' = _pending_crl_to_process st - 1
    /\ fs st' = fs st
    /\ _thumbs st' = _thumbs (indexReadCrl item read st).
Proof.
  intros Hpending.
  destruct (PkiFacts.indexReadCrl_fields item read st) as (Hq & Hp & Hfs).
  unfold _process_next_crl_resume, finish_crl.
  set (st1 := indexReadCrl item read st) in *.
  cbn [_pending_crl_to_process set_pending].
  destruct (queue st) as [|next queue'] eqn:Hqueue; cbn [List.length] in Hpending.
  - destruct (Z.eqb_spec (_pending_crl_to_process st1 - 1) 0); [|lia].
    eexists. split; [reflexivity|].
    destruct (_on_crl_process _); cbn; rewrite ?Hq, ?Hp, ?Hfs; auto.
  - destruct (Z.eqb_spec (_pending_crl_to_process st1 - 1) 0); [lia|].
    rewrite (PkiFacts._process_next_crl_waits _ next queue')
      by (cbn [queue set_pending]; exact Hq).
    eexists. split; [reflexivity|].
    cbn. rewrite ?Hp, ?Hfs. auto.
Qed.

Lemma crl_chain_all (fuel : nat) :
  forall item0 st,
    (List.length (queue st) < fuel)%nat ->
    _pending_crl_to_process st = 1 + Z.of_nat (List.length (queue st)) ->
    let out := crl_chain fuel (Some item0) st in
    fst out = Ok tt
    /\ queue (snd out) = []
    /\ _pending_crl_to_process (snd out) = 0
    /\ forall item crl crlInfo r,
         In item (item0 :: queue st) ->
         readCertificateRevocationList (fs st) (item_filename item) = Ok crl ->
         exploreCertificateRevocationList crl = Ok crlInfo ->
         In r (revokedCertificates (tbsCertList crlInfo)) ->
         exists data d,
           get_index (index item) (_thumbs (snd out))
             !! issuerFingerprint (tbsCertList crlInfo) = Some data
           /\ serialNumbers data !! userCertificate r = Some d.
Proof.
  induction fuel as [|fuel IH]; intros item0 st Hlen Hpending; [lia|].
  cbn [crl_chain].
  destruct (_process_next_crl_resume_step item0
              (readCertificateRevocationList (fs st) (item_filename item0))
              st Hpending)
    as (st' & Hstep & Hq' & Hp' & Hfs' & Ht').
  rewrite Hstep.
  assert (Hhead : forall crl crlInfo r,
    readCertificateRevocationList (fs st) (item_filename item0) = Ok crl ->
    exploreCertificateRevocationList crl = Ok crlInfo ->
    In r (revokedCertificates (tbsCertList crlInfo)) ->
    exists data d,
      get_index (index item0) (_thumbs st')
        !! issuerFingerprint (tbsCertList crlInfo) = Some data
      /\ serialNumbers data !! userCertificate r = Some d).
  { intros crl crlInfo r Hread Hdecode Hin. rewrite Ht', Hread.
    exact (indexReadCrl_binds item0 crl crlInfo r st Hdecode Hin). }
  destruct (queue st) as [|item1 queue'] eqn:Hqueue;
    cbn [head tail List.length] in *.
  - rewrite PkiFacts.crl_chain_done. cbn [fst snd]. split; [reflexivity|].
    split; [exact Hq'|]. split; [lia|].
    intros item crl crlInfo r [<-|[]] Hread Hdecode Hin.
    exact (Hhead crl crlInfo r Hread Hdecode Hin).
  - destruct (IH item1 st' ltac:(rewrite Hq'; lia) ltac:(rewrite Hq'; lia))
      as (Hok & Hq & Hp & Hbound).
    split; [exact Hok|]. split; [exact Hq|]. split; [exact Hp|].
    intros item crl crlInfo r [<-|Hin'] Hread Hdecode Hin.
    + destruct (Hhead crl crlInfo r Hread Hdecode Hin) as (data & d & Hdata & Hd).
      destruct (PkiFacts.crl_chain_preserves fuel (Some item1) st' (index item0)
                  _ _ data d Hdata Hd) as (data' & Hdata' & Hd').
      eauto.
    + apply (Hbound item crl crlInfo r);
        [rewrite Hq'; exact Hin' | rewrite Hfs'; exact Hread | assumption..].
Qed.

(** X11: draining the queue takes one call per item.  While a call waits
    for its file and the pending count is one more than the length of the
    queue, the call, once resumed, decrements the count and, when the queue
    is not empty, starts the call for its head and ends with that call
    waiting and the rest still pending.  When the calls have been run to
    the end of the chain, each resumed with its file as it is then, the
    queue is empty, nothing is pending, and every serial number listed by a
    file of the chain that can be read and decoded is bound to a date in
    the data of that CRL's issuer, in the index the item names: a file
    that cannot be read or decoded does not keep the others from being
    indexed. *)
Theorem crl_queue_drains :
  (forall st item read next queue',
      queue st = next :: queue' ->
      _pending_crl_to_process st = 1 + Z.of_nat (List.length (queue st)) ->
      exists st',
        _process_next_crl_resume item read st = (Ok (Some next), st')
        /\ queue st' = queue'
        /\ _pending_crl_to_process st' = _pending_crl_to_process st - 1
        /\ _pending_crl_to_process st' <> 0
        /\ _thumbs st' = _thumbs (indexReadCrl item read st))
  /\ (forall st item0 fuel,
        _pending_crl_to_process st = 1 + Z.of_nat (List.length (queue st)) ->
        (List.length (queue st) < fuel)%nat ->
        let out := crl_chain fuel (Some item0) st in
        fst out = Ok tt
        /\ queue (snd out) = []
        /\ _pending_crl_to_process (snd out) = 0
        /\ forall item crl crlInfo r,
             In item (item0 :: queue st) ->
             readCertificateRevocationList (fs st) (item_filename item) = Ok crl ->
             exploreCertificateRevocationList crl = Ok crlInfo ->
             In r (revokedCertificates (tbsCertList crlInfo)) ->
             exists data d,
               get_index (index item) (_thumbs (snd out))
                 !! issuerFingerprint (tbsCertList crlInfo) = Some data
               /\ serialNumbers data !! userCertificate r = Some d).
Proof.
  split.
  - intros st item read next queue' Hqueue Hpending.
    destruct (_process_next_crl_resume_step item read st Hpending)
      as (st' & Hstep & Hq' & Hp' & _ & Ht').
    rewrite Hqueue in Hstep, Hq', Hpending. cbn [head tail List.length] in *.
    exists st'. split; [exact Hstep|]. split; [exact Hq'|].
    split; [exact Hp'|]. split; [lia | exact Ht'].
  - intros st item0 fuel Hpending Hlen. apply crl_chain_all; assumption.
Qed.

(** X12: revocation from end to end.  When a CRL file is added to the
    issuer CRL index of an idle manager, [_on_crl_file_added] returns with
    the call it has started waiting for the file: one item is pending and
    the index is as before, so that [isCertificateRevoked] still answers
    [BadCertificateRevocationUnknown] for an issuer without CRL data.  Once
    that call has been resumed with the file, a certificate that is not
    self-signed, whose issuer has the subject fingerprint the CRL names and
    whose serial number, not empty, the CRL lists, is reported
    [BadCertificateRevoked]. *)
Theorem crl_added_then_revoked
  st filename crl crlInfo r certificate certInfo issuerCertificate issuerInfo :
  queue st = [] ->
  _pending_crl_to_process st = 0 ->
  readCertificateRevocationList (fs st) filename = Ok crl ->
  exploreCertificateRevocationList crl = Ok crlInfo ->
  In r (revokedCertificates (tbsCertList crlInfo)) ->
  exploreCertificate certificate = Ok certInfo ->
  isSelfSigned2 certInfo = false ->
  serialNumber (tbsCertificate certInfo) = userCertificate r ->
  userCertificate r <> ""%string ->
  exploreCertificate issuerCertificate = Ok issuerInfo ->
  subjectFingerPrint (tbsCertificate issuerInfo)
  = issuerFingerprint (tbsCertList crlInfo) ->
  exists st1,
    _on_crl_file_added IndexIssuersCrl filename st
    = (Ok (Some (mkQueueItem IndexIssuersCrl filename)), st1)
    /\ queue st1 = []
    /\ _pending_crl_to_process st1 = 1
    /\ _thumbs st1 = _thumbs st
    /\ (thumbs_issuersCrl (_thumbs st)
          !! subjectFingerPrint (tbsCertificate issuerInfo) = None ->
        thumbs_crl (_thumbs st)
          !! subjectFingerPrint (tbsCertificate issuerInfo) = None ->
        isCertificateRevoked (_thumbs st1) certificate (Some issuerCertificate)
        = Ok BadCertificateRevocationUnknown)
    /\ forall fuel,
         (0 < fuel)%nat ->
         let out :=
           crl_chain fuel (Some (mkQueueItem IndexIssuersCrl filename)) st1 in
         fst out = Ok tt
         /\ queue (snd out) = []
         /\ _pending_crl_to_process (snd out) = 0
         /\ isCertificateRevoked (_thumbs (snd out)) certificate
              (Some issuerCertificate)
            = Ok BadCertificateRevoked.
Proof.
  intros Hqueue Hpending Hread Hdecode Hin Hinfo Hself Hserial Hnonempty
         HissuerInfo Hfp.
  set (item := mkQueueItem IndexIssuersCrl filename).
  set (st1 := set_queue [] (set_pending 1 (set_queue [item] st))).
  assert (Hadded : _on_crl_file_added IndexIssuersCrl filename st
                   = (Ok (Some item), st1)).
  { unfold _on_crl_file_added.
    cbn [_pending_crl_to_process set_pending set_queue].
    rewrite Hpending, Hqueue. cbn [app Z.add Z.eqb Pos.eqb].
    apply (PkiFacts._process_next_crl_waits _ item []). reflexivity. }
  exists st1. split; [exact Hadded|].
  split; [reflexivity|]. split; [reflexivity|]. split; [reflexivity|].
  assert (Hstart : forall t,
    isCertificateRevoked t certificate (Some issuerCertificate)
    = match thumbs_issuersCrl t !! issuerFingerprint (tbsCertList crlInfo) with
      | Some data =>
          if listsSerial data (userCertificate r)
             || match thumbs_crl t !! lookedUpCrlKey certInfo with
                | Some crl2 => listsSerial crl2 (userCertificate r)
                | None => false
                end
          then Ok BadCertificateRevoked else Ok Good
      | None =>
          match thumbs_crl t !! issuerFingerprint (tbsCertList crlInfo) with
          | Some data =>
              if listsSerial data (userCertificate r)
                 || match thumbs_crl t !! lookedUpCrlKey certInfo with
                    | Some crl2 => listsSerial crl2 (userCertificate r)
                    | None => false
                    end
              then Ok BadCertificateRevoked else Ok Good
          | None => Ok BadCertificateRevocationUnknown
          end
      end).
  { intros t. unfold isCertificateRevoked, isSelfSigned3, _findAssociatedCRLs.
    rewrite Hinfo. cbn [mbind result_bind]. rewrite Hself.
    cbn [mbind result_bind]. rewrite HissuerInfo. cbn [mbind result_bind].
    rewrite Hfp, (PkiFacts.lookedUpSerialNumber_own certInfo)
      by (rewrite Hserial; exact Hnonempty).
    rewrite Hserial.
    destruct (thumbs_issuersCrl t !! issuerFingerprint (tbsCertList crlInfo));
      [reflexivity|].
    destruct (thumbs_crl t !! issuerFingerprint (tbsCertList crlInfo));
      reflexivity. }
  split.
  { intros Hnone1 Hnone2. rewrite Hstart. cbn [_thumbs st1 set_queue set_pending].
    rewrite <- Hfp, Hnone1, Hnone2. reflexivity. }
  intros fuel Hfuel out.
  destruct (crl_chain_all fuel item st1 ltac:(cbn; lia) eq_refl)
    as (Hok & Hq & Hp & Hbound).
  split; [exact Hok|]. split; [exact Hq|]. split; [exact Hp|].
  destruct (Hbound item crl crlInfo r ltac:(left; reflexivity) Hread Hdecode Hin)
    as (data & d & Hdata & Hd).
  cbn [index item get_index] in Hdata.
  unfold out. rewrite Hstart, Hdata. unfold listsSerial at 1.
  rewrite (bool_decide_eq_true_2 (is_Some (serialNumbers data !! userCertificate r)))
    by eauto.
  reflexivity.
Qed.

(** *** The two trust queries *)

(** X20: [isCertificateTrusted] against [getCertificateStatus], on a store
    whose index has been read.  A certificate whose status is "trusted" is
    reported "Good".  The converse fails in two situations and no other:
    the fingerprint is in both maps (the status looks at the rejected map
    first, [isCertificateTrusted] at the trusted map first), or it is in
    neither map and [untrustUnknownCertificate] is off. *)
Theorem trust_queries_agree certificate st :
  ready st ->
  (fst (getCertificateStatus certificate st) = Ok trusted ->
   fst (isCertificateTrusted certificate st) = Ok Good)
  /\ (fst (isCertificateTrusted certificate st) = Ok Good
      /\ fst (getCertificateStatus certificate st) <> Ok trusted
      <-> (obj_has (thumbs_rejected (_thumbs st)) (makeFingerprint certificate)
           = true
           /\ obj_has (thumbs_trusted (_thumbs st)) (makeFingerprint certificate)
              = true)
          \/ (obj_has (thumbs_rejected (_thumbs st)) (makeFingerprint certificate)
              = false
              /\ obj_has (thumbs_trusted (_thumbs st)) (makeFingerprint certificate)
                 = false
              /\ untrustUnknownCertificate st = false)).
Proof.
  intros Hready. unfold getCertificateStatus.
  rewrite (initialize_ready st Hready). unfold mbind, M_bind.
  rewrite (_checkRejectedOrTrusted_ready certificate st (proj2 Hready)).
  unfold isCertificateTrusted, obj_has.
  destruct (obj_get (thumbs_rejected (_thumbs st)) (makeFingerprint certificate))
    as [inRejected|];
    destruct (obj_get (thumbs_trusted (_thumbs st)) (makeFingerprint certificate))
      as [inTrusted|]; cbn [fst mret M_ret].
  - split; [discriminate|]. split; [auto|]. intros _. split; [reflexivity|discriminate].
  - split; [discriminate|]. split; [intros [? _]; discriminate|].
    intros [[_ ?]|[? _]]; discriminate.
  - split; [reflexivity|]. split; [intros [_ Hne]; contradiction|].
    intros [[? _]|[_ [? _]]]; discriminate.
  - assert (Hstatus : forall r : result CertificateStatus * Store,
      r = (let '(err, fs') :=
             fs_writeFile (fs st)
               (path_join (rejectedFolder st)
                  (buildIdealCertificateName certificate ++ ".pem"))
               (list_byte_of_string (toPem certificate "CERTIFICATE")) in
           match err with
           | Ok _ =>
               (Ok rejected,
                set_thumbs
                  (set_rejected
                     (obj_set (thumbs_rejected (_thumbs (set_fs fs' st)))
                        (makeFingerprint certificate)
                        (mkEntry certificate
                           (path_join (rejectedFolder (set_fs fs' st))
                              (buildIdealCertificateName certificate ++ ".pem"))))
                     (_thumbs (set_fs fs' st))) (set_fs fs' st))
           | Throw e =>
               (Throw e,
                set_thumbs
                  (set_rejected
                     (obj_set (thumbs_rejected (_thumbs (set_fs fs' st)))
                        (makeFingerprint certificate)
                        (mkEntry certificate
                           (path_join (rejectedFolder (set_fs fs' st))
                              (buildIdealCertificateName certificate ++ ".pem"))))
                     (_thumbs (set_fs fs' st))) (set_fs fs' st))
           | OutOfFuel =>
               (OutOfFuel,
                set_thumbs
                  (set_rejected
                     (obj_set (thumbs_rejected (_thumbs (set_fs fs' st)))
                        (makeFingerprint certificate)
                        (mkEntry certificate
                           (path_join (rejectedFolder (set_fs fs' st))
                              (buildIdealCertificateName certificate ++ ".pem"))))
                     (_thumbs (set_fs fs' st))) (set_fs fs' st))
           end) ->
      fst r <> Ok trusted).
    { intros r ->. destruct (fs_writeFile _ _ _) as [[[]| |] fs']; discriminate. }
    specialize (Hstatus _ eq_refl).
    split; [intros Htrusted; contradiction|].
    destruct (untrustUnknownCertificate st); cbn [negb].
    + split; [|intros [[? _]|[_ [_ ?]]]; discriminate].
      intros [Hgood _]. exfalso. revert Hgood.
      destruct (exploreCertificateInfo certificate); try discriminate.
      destruct (fs_writeFile _ _ _) as [[[]| |] fs']; discriminate.
    + split; [intros _; right; auto|]. intros _. split; [reflexivity|exact Hstatus].
Qed.

Lemma list_ascii_of_string_app (a b : string) :
  list_ascii_of_string (a ++ b)
  = (list_ascii_of_string a ++ list_ascii_of_string b)%list.
Proof.
  induction a as [|c a IH]; [reflexivity|].
  change (String c a ++ b)%string with (String c (a ++ b)).
  cbn [list_ascii_of_string]. rewrite IH. reflexivity.
Qed.

Lemma plainFileName_separator (name : string) (c : Ascii.ascii) :
  In c (list_ascii_of_string name) ->
  c = Ascii.ascii_of_nat 47 \/ c = Ascii.ascii_of_nat 92 ->
  plainFileName name = false.
Proof.
  intros Hin Hsep. unfold plainFileName. apply andb_false_iff. right.
  destruct (forallb _ _) eqn:Hall; [|reflexivity].
  rewrite forallb_forall in Hall. specialize (Hall c Hin).
  destruct Hsep as [-> | ->]; discriminate Hall.
Qed.

(** X22: the common name goes into the file name as it is.  For a
    certificate that decodes with a common name, the name built is the
    common name followed by the fingerprint in brackets; so when the common
    name holds a slash or a backslash, neither the file name
    [getCertificateStatus] builds from it nor the one [addIssuer] builds is
    a single path segment. *)
Theorem buildIdealCertificateName_unfiltered certificate info name :
  exploreCertificate certificate = Ok info ->
  commonName (tbsCertificate info) = Some name ->
  buildIdealCertificateName certificate
  = (name ++ "[" ++ makeFingerprint certificate ++ "]")%string
  /\ forall c,
       In c (list_ascii_of_string name) ->
       c = Ascii.ascii_of_nat 47 \/ c = Ascii.ascii_of_nat 92 ->
       plainFileName (buildIdealCertificateName certificate ++ ".pem") = false
       /\ plainFileName
            ("issuer_" ++ buildIdealCertificateName certificate ++ ".pem")
          = false.
Proof.
  intros Hinfo Hname.
  assert (Hbuilt :
    buildIdealCertificateName certificate
    = (name ++ "[" ++ makeFingerprint certificate ++ "]")%string).
  { unfold buildIdealCertificateName. rewrite Hinfo, Hname. reflexivity. }
  split; [exact Hbuilt|].
  intros c Hin Hsep. rewrite Hbuilt. split.
  - apply (plainFileName_separator _ c); [|exact Hsep].
    rewrite !list_ascii_of_string_app. apply in_or_app. left.
    apply in_or_app. left. exact Hin.
  - apply (plainFileName_separator _ c); [|exact Hsep].
    rewrite !list_ascii_of_string_app. apply in_or_app. right.
    apply in_or_app. left. apply in_or_app. left. exact Hin.
Qed.

End Facts.

(** *** The theorems at work in the small world *)

Import Scenario ScenarioOps.

Lemma getCertificateStatus_settles_witness :
  (exists e, fst (@getCertificateStatus world (cert x01 x00) locked_store) = Throw e)
  /\ @getCertificateStatus world (cert x01 x00)
       (snd (@getCertificateStatus world (cert x01 x00) locked_store))
     = (Ok rejected, snd (@getCertificateStatus world (cert x01 x00) locked_store)).
Proof.
  split.
  - eexists. vm_compute. reflexivity.
  - refine (proj2 (proj2 (@getCertificateStatus_settles world) (cert x01 x00)
                     locked_store _ eq_refl eq_refl)).
    split; [discriminate | reflexivity].
Defined.

Lemma moveCertificate_index_witness :
  let st1 := snd (@trustCertificate world paths (cert x01 x00) empty_store) in
  let st2 := snd (@rejectCertificate world paths (cert x01 x00) st1) in
  (obj_has (thumbs_trusted (_thumbs st1)) (@makeFingerprint world (cert x01 x00))
   = true
   /\ obj_has (thumbs_rejected (_thumbs st1)) (@makeFingerprint world (cert x01 x00))
      = false)
  /\ obj_has (thumbs_rejected (_thumbs st2)) (@makeFingerprint world (cert x01 x00))
     = true.
Proof.
  intros st1 st2. split.
  - apply (proj1 (@moveCertificate_index world paths) (cert x01 x00) empty_store st1).
    vm_compute. reflexivity.
  - apply (proj2 (@moveCertificate_index world paths) (cert x01 x00) st1 st2).
    vm_compute. reflexivity.
Defined.

Lemma trustCertificate_rename_failure_witness :
  exists st',
    @trustCertificate world paths (cert x01 x00)
      (store true [] [cert x01 x00] [] ∅ ∅) = (Ok tt, st')
    /\ fs st' = mkFileSystem ∅ ∅
    /\ obj_get (thumbs_trusted (_thumbs st')) (@makeFingerprint world (cert x01 x00))
       = Some (mkEntry (cert x01 x00) "pki/trusted/certs/file.pem").
Proof.
  exact (@trustCertificate_rename_failure world paths (cert x01 x00)
           (store true [] [cert x01 x00] [] ∅ ∅)
           (store true [] [cert x01 x00] [] ∅ ∅)
           (mkEntry (cert x01 x00) "file.pem")
           eq_refl eq_refl ltac:(discriminate) eq_refl).
Defined.

Lemma findIssuerCertificate_first_match_witness :
  @findIssuerCertificate world (_thumbs revoking_store) (cert x06 x06)
  = Ok (Some (cert x06 x06))
  /\ exists wanted before entry after issuerInfo,
       wanted <> ""%string
       /\ obj_values (thumbs_issuers_certs (_thumbs chain_store))
          ++ obj_values (thumbs_trusted (_thumbs chain_store))
          = before ++ entry :: after
       /\ entry_certificate entry = cert x03 x04
       /\ @exploreCertificate world (cert x03 x04) = Ok issuerInfo
       /\ ext_subjectKeyIdentifier issuerInfo = Str wanted.
Proof.
  split.
  - exact (proj1 (@findIssuerCertificate_first_match world
                    (_thumbs revoking_store) (cert x06 x06) _ eq_refl) eq_refl).
  - destruct (proj1 (proj2 (@findIssuerCertificate_first_match world
                    (_thumbs chain_store) (cert x02 x03) _ eq_refl) eq_refl)
                (cert x03 x04) eq_refl)
      as (wanted & before & entry & after & issuerInfo
          & _ & Hw & Hsplit & Hentry & _ & Hii & Hski).
    exists wanted, before, entry, after, issuerInfo. auto.
Defined.


Lemma addIssuer_then_findIssuerCertificate_witness :
  exists found foundInfo,
    @findIssuerCertificate world
      (_thumbs (snd (@addIssuer world paths (cert x06 x06) false false empty_store)))
      (cert x05 x06)
    = Ok (Some found)
    /\ @exploreCertificate world found = Ok foundInfo
    /\ ext_subjectKeyIdentifier foundInfo = Str (key_name x06).
Proof.
  refine (@addIssuer_then_findIssuerCertificate world paths (cert x06 x06)
            empty_store _ _ (key_name x06) (cert x05 x06) _
            eq_refl _ eq_refl eq_refl ltac:(discriminate) eq_refl eq_refl eq_refl _).
  - vm_compute. reflexivity.
  - repeat constructor. eexists. reflexivity.
Defined.

Lemma verification_reads_only_witness :
  snd (@verifyCertificate world (Some (cert x01 x02)) chain_store) = chain_store.
Proof.
  exact (proj2 (@verification_reads_only world (cert x01 x02) chain_store eq_refl)).
Defined.

Lemma verifier_verdicts_witness :
  In BadCertificateIssuerRevocationUnknown verifierVerdicts.
Proof.
  exact (@verifier_verdicts world (cert x01 x02) false 0%nat chain_store
           BadCertificateIssuerRevocationUnknown chain_store eq_refl).
Defined.

Lemma good_verdict_witness :
  (0 < 5)%nat
  /\ (exists certificateInfo,
        @exploreCertificateInfo world (cert x01 x00) = Ok certificateInfo
        /\ isTimeInvalid certificateInfo (@now world 0%nat) = false)
  /\ obj_has (thumbs_rejected (_thumbs (store true [cert x01 x00] [] [] ∅ ∅)))
             (@makeFingerprint world (cert x01 x00)) = false.
Proof.
  destruct (@good_verdict world (cert x01 x00) false 0%nat
              (store true [cert x01 x00] [] [] ∅ ∅)
              (store true [cert x01 x00] [] [] ∅ ∅) eq_refl eq_refl)
    as (Hlevel & Htime & Hrejected & _).
  auto.
Defined.

Lemma revocation_comes_first_witness :
  obj_has (thumbs_trusted (_thumbs trusted_revoked_store))
          (@makeFingerprint world (cert x05 x06)) = true
  /\ @_innerVerifyCertificateAsync world (cert x05 x06) false 0 trusted_revoked_store
     = (Ok BadCertificateRevoked, trusted_revoked_store).
Proof.
  split; [reflexivity|].
  eapply (@revocation_comes_first world (cert x05 x06) false 0%nat
            trusted_revoked_store (cert x05 x06) [] _ (cert x06 x06)
            BadCertificateUntrusted trusted_revoked_store BadCertificateRevoked).
  - lia.
  - reflexivity.
  - reflexivity.
  - reflexivity.
  - reflexivity.
  - reflexivity.
  - reflexivity.
  - right. reflexivity.
  - reflexivity.
  - reflexivity.
  - discriminate.
Defined.

Lemma crl_queue_drains_witness :
  (exists st',
      @_process_next_crl_resume world
        (mkQueueItem IndexIssuersCrl "pki/issuers/crl/a.pem") (Ok crl_file)
        waiting_store
      = (Ok (Some (mkQueueItem IndexCrl "pki/trusted/crl/b.pem")), st')
      /\ _pending_crl_to_process st' = 1)
  /\ fst (@crl_chain world 2
            (Some (mkQueueItem IndexIssuersCrl "pki/issuers/crl/a.pem"))
            waiting_store) = Ok tt
  /\ exists data d,
       thumbs_crl
         (_thumbs (snd (@crl_chain world 2
                          (Some (mkQueueItem IndexIssuersCrl "pki/issuers/crl/a.pem"))
                          waiting_store)))
         !! key_name x06 = Some data
       /\ serialNumbers data !! key_name x08 = Some d.
Proof.
  split; [|split].
  - destruct (proj1 (@crl_queue_drains world) waiting_store
                (mkQueueItem IndexIssuersCrl "pki/issuers/crl/a.pem")
                (Ok crl_file)
                (mkQueueItem IndexCrl "pki/trusted/crl/b.pem") []
                eq_refl eq_refl)
      as (st' & Hstep & _ & Hpending & _).
    exists st'. split; [exact Hstep | exact Hpending].
  - exact (proj1 (proj2 (@crl_queue_drains world) waiting_store
                   (mkQueueItem IndexIssuersCrl "pki/issuers/crl/a.pem") 2%nat
                   eq_refl ltac:(cbn; lia))).
  - destruct (proj2 (@crl_queue_drains world) waiting_store
                (mkQueueItem IndexIssuersCrl "pki/issuers/crl/a.pem") 2%nat
                eq_refl ltac:(cbn; lia))
      as (_ & _ & _ & Hbound).
    exact (Hbound (mkQueueItem IndexCrl "pki/trusted/crl/b.pem") crl_file_b _
             (mkRevokedCertificate (key_name x08) (DateOf 2))
             ltac:(right; left; reflexivity) eq_refl eq_refl
             ltac:(left; reflexivity)).
Defined.

Lemma crl_added_then_revoked_witness :
  exists st1,
    _on_crl_file_added IndexIssuersCrl "pki/issuers/crl/a.pem" idle_store
    = (Ok (Some (mkQueueItem IndexIssuersCrl "pki/issuers/crl/a.pem")), st1)
    /\ _pending_crl_to_process st1 = 1
    /\ @isCertificateRevoked world (_thumbs st1) (cert x05 x06)
         (Some (cert x06 x06))
       = Ok BadCertificateRevocationUnknown
    /\ @isCertificateRevoked world
         (_thumbs (snd (@crl_chain world 1
                          (Some (mkQueueItem IndexIssuersCrl "pki/issuers/crl/a.pem"))
                          st1)))
         (cert x05 x06) (Some (cert x06 x06))
       = Ok BadCertificateRevoked.
Proof.
  destruct (@crl_added_then_revoked world idle_store
              "pki/issuers/crl/a.pem" crl_file _
              (mkRevokedCertificate (key_name x05) (DateOf 9))
              (cert x05 x06) _ (cert x06 x06) _
              eq_refl eq_refl eq_refl eq_refl ltac:(left; reflexivity)
              eq_refl eq_refl eq_refl ltac:(discriminate) eq_refl eq_refl)
    as (st1 & Hadded & _ & Hpending & _ & Hbefore & Hafter).
  exists st1. split; [exact Hadded|]. split; [exact Hpending|].
  split; [exact (Hbefore eq_refl eq_refl)|].
  exact (proj2 (proj2 (proj2 (Hafter 1%nat ltac:(lia))))).
Defined.

Lemma trust_queries_agree_witness :
  fst (@isCertificateTrusted world (cert x01 x00)
         (store true [cert x01 x00] [cert x01 x00] [] ∅ ∅)) = Ok Good
  /\ fst (@getCertificateStatus world (cert x01 x00)
            (store true [cert x01 x00] [cert x01 x00] [] ∅ ∅)) <> Ok trusted.
Proof.
  apply (proj2 (@trust_queries_agree world (cert x01 x00)
                  (store true [cert x01 x00] [cert x01 x00] [] ∅ ∅)
                  ltac:(split; [discriminate | reflexivity]))).
  left. split; reflexivity.
Defined.

Lemma buildIdealCertificateName_unfiltered_witness :
  @buildIdealCertificateName named_world (cert x01 x00)
  = ("../trusted/certs/x[" ++ @makeFingerprint named_world (cert x01 x00) ++ "]")%string
  /\ plainFileName (@buildIdealCertificateName named_world (cert x01 x00) ++ ".pem")
     = false.
Proof.
  destruct (@buildIdealCertificateName_unfiltered named_world (cert x01 x00) _
              "../trusted/certs/x" eq_refl eq_refl) as [Hbuilt Hplain].
  split; [exact Hbuilt|].
  exact (proj1 (Hplain (Ascii.ascii_of_nat 47)
                  ltac:(right; right; left; reflexivity)
                  ltac:(left; reflexivity))).
Defined.

End PkiOpsFacts.

(** * Properties of splitting any buffer *)

Module DerOpsFacts.

Import Asn1 Der Asn1Facts DerFacts.

Lemma readUInt8_prefix (b rest : Buffer) (pos v : Z) :
  readUInt8 (b ++ rest) pos = Ok v -> pos < buf_length b ->
  readUInt8 b pos = Ok v.
Proof.
  unfold readUInt8, buf_length. intros Hread Hpos.
  destruct (Z.leb_spec 0 pos); [|discriminate].
  destruct (Z.ltb_spec pos (Z.of_nat (List.length (b ++ rest)))); [|discriminate].
  destruct (Z.ltb_spec pos (Z.of_nat (List.length b))); [|lia].
  cbn [andb] in *. rewrite nth_error_app1 in Hread by lia. exact Hread.
Qed.

Lemma readLongLength_prefix (n : nat) (b rest : Buffer) (pos acc : Z) r :
  readLongLength n (b ++ rest) pos acc = Ok r ->
  pos + Z.of_nat n <= buf_length b ->
  readLongLength n b pos acc = Ok r.
Proof.
  revert pos acc. induction n as [|n IH]; intros pos acc Hloop Hpos.
  - exact Hloop.
  - cbn [readLongLength] in *.
    destruct (readUInt8 (b ++ rest) pos) as [v| |] eqn:Hv; try discriminate.
    rewrite (readUInt8_prefix _ _ _ _ Hv) by lia.
    cbn [mbind result_bind] in *. apply IH; [exact Hloop | lia].
Qed.

Lemma readTag_prefix (b rest : Buffer) block_info :
  readTag (b ++ rest) 0 = Ok block_info ->
  position block_info <= buf_length b ->
  readTag b 0 = Ok block_info.
Proof.
  intros Hread Hpos.
  pose proof (readTag_bounds _ _ Hread) as [Hp _].
  revert Hread Hpos Hp. unfold readTag.
  destruct (Z.ltb_spec 0 0); [lia|].
  destruct (Z.leb_spec (buf_length (b ++ rest)) 0); [discriminate|].
  destruct (readUInt8 (b ++ rest) 0) as [t| |] eqn:Ht; try discriminate.
  cbn [mbind result_bind]. change (0 + 1) with 1.
  destruct (readUInt8 (b ++ rest) 1) as [l| |] eqn:Hl; try discriminate.
  cbn [mbind result_bind]. change (1 + 1) with 2.
  destruct (127 <? l) eqn:Hlong.
  - destruct (readLongLength _ (b ++ rest) 2 0) as [[pos' len]| |] eqn:Hr;
      try discriminate.
    intros [= <-]. cbn [position]. intros Hpos Hp.
    destruct (readLongLength_bounds _ _ _ 0 _ _ ltac:(lia) Hr) as [-> _].
    destruct (Z.leb_spec (buf_length b) 0); [lia|].
    rewrite (readUInt8_prefix _ _ _ _ Ht) by lia.
    cbn [mbind result_bind]. change (0 + 1) with 1.
    rewrite (readUInt8_prefix _ _ _ _ Hl) by lia.
    cbn [mbind result_bind]. change (1 + 1) with 2.
    rewrite Hlong, (readLongLength_prefix _ _ _ _ _ _ Hr) by lia. reflexivity.
  - intros [= <-]. cbn [position]. intros Hpos _.
    destruct (Z.leb_spec (buf_length b) 0); [lia|].
    rewrite (readUInt8_prefix _ _ _ _ Ht) by lia.
    cbn [mbind result_bind]. change (0 + 1) with 1.
    rewrite (readUInt8_prefix _ _ _ _ Hl) by lia.
    cbn [mbind result_bind]. rewrite Hlong. reflexivity.
Qed.

(** the header of a block takes at most 2 + 127 bytes *)
Lemma readTag_position_le (buf : Buffer) block_info :
  readTag buf 0 = Ok block_info -> position block_info <= 129.
Proof.
  unfold readTag.
  destruct (0 <? 0); [discriminate|].
  destruct (buf_length buf <=? 0); [discriminate|].
  destruct (readUInt8 buf 0) as [t| |]; try discriminate.
  cbn [mbind result_bind]. change (0 + 1) with 1.
  destruct (readUInt8 buf 1) as [l| |] eqn:Hl; try discriminate.
  cbn [mbind result_bind]. change (1 + 1) with 2.
  apply readUInt8_in_range in Hl as [_ Hl].
  destruct (127 <? l).
  - destruct (readLongLength _ buf 2 0) as [[pos' len]| |] eqn:Hr;
      try discriminate.
    intros [= <-]. cbn [position].
    destruct (readLongLength_bounds _ _ _ 0 _ _ ltac:(lia) Hr) as [-> _].
    assert (0 <= Z.land l 127 <= 127).
    { split; [apply Z.land_nonneg; lia|].
      assert (0 <= Z.land l 127 < 2 ^ 7); [|lia].
      change 127 with (Z.ones 7). rewrite Z.land_ones by lia.
      apply Z.mod_pos_bound. lia. }
    rewrite Z2Nat.id by lia. lia.
  - intros [= <-]. cbn [position]. lia.
Qed.

(** the extent a header declares covers the header *)
Lemma declared_extent (buf : Buffer) block_info :
  readTag buf 0 = Ok block_info ->
  position block_info
  <= JsNumber.add (position block_info) (Asn1.length block_info).
Proof.
  intros Hread.
  pose proof (readTag_position_le _ _ Hread).
  pose proof (readTag_bounds _ _ Hread) as [? ?].
  unfold JsNumber.add. apply round_double_lower; lia.
Qed.

Lemma split_der_loop_partitions (fuel : nat) :
  forall (buf : Buffer) (chain : list Buffer),
    split_der_loop fuel buf = Ok chain ->
    concat chain = buf
    /\ exists init last block_info,
         chain = init ++ [last]
         /\ Forall well_formed_block init
         /\ readTag last 0 = Ok block_info
         /\ buf_length last
            <= JsNumber.add (position block_info) (Asn1.length block_info).
Proof.
  induction fuel as [|fuel IH]; intros buf chain; [discriminate|].
  cbn [split_der_loop].
  destruct (readTag buf 0) as [block_info| |] eqn:Hread; try discriminate.
  cbn [mbind result_bind].
  set (len := JsNumber.add (position block_info) (Asn1.length block_info)).
  pose proof (declared_extent _ _ Hread) as Hextent. fold len in Hextent.
  pose proof (readTag_bounds _ _ Hread) as [Hp _].
  unfold slice_to, slice_from, buf_length.
  destruct (Z.ltb_spec 0 (Z.of_nat (List.length (skipn (Z.to_nat len) buf))))
    as [Hmore|Hdone].
  - destruct (split_der_loop fuel (skipn (Z.to_nat len) buf)) as [rest| |] eqn:Hrest;
      try discriminate.
    cbn [mbind result_bind]. intros [= <-].
    destruct (IH _ _ Hrest) as (Hconcat & init & last & info & -> & Hinit & Hlast).
    rewrite length_skipn in Hmore.
    assert (Hblock : buf_length (firstn (Z.to_nat len) buf) = len).
    { unfold buf_length. rewrite length_firstn. lia. }
    split.
    + cbn [concat]. rewrite Hconcat. apply firstn_skipn.
    + exists (firstn (Z.to_nat len) buf :: init), last, info.
      split; [reflexivity|]. split; [|exact Hlast].
      constructor; [|exact Hinit].
      exists block_info. split; [|fold len; symmetry; exact Hblock].
      apply (readTag_prefix _ (skipn (Z.to_nat len) buf)).
      * rewrite firstn_skipn. exact Hread.
      * rewrite Hblock. exact Hextent.
  - intros [= <-].
    assert (Hnil : skipn (Z.to_nat len) buf = []).
    { destruct (skipn (Z.to_nat len) buf); [reflexivity | cbn in Hdone; lia]. }
    assert (Hall : firstn (Z.to_nat len) buf = buf).
    { rewrite <- (firstn_skipn (Z.to_nat len) buf) at 2.
      rewrite Hnil, app_nil_r. reflexivity. }
    rewrite Hall. split; [cbn; apply app_nil_r|].
    exists [], buf, block_info. split; [reflexivity|]. split; [constructor|].
    split; [exact Hread|]. fold len.
    rewrite length_skipn in Hdone. unfold buf_length. lia.
Qed.

(** X13: what [split_der] returns for any buffer.  The blocks, put end to
    end, are the buffer; every block but the last is exactly the extent
    its header declares; the last block starts with a header that can be
    read and is never longer than that header declares, but may be
    shorter: a truncated last block is returned, not refused. *)
Theorem split_der_partitions (buf : Buffer) (chain : list Buffer) :
  split_der buf = Ok chain ->
  concat chain = buf
  /\ exists init last block_info,
       chain = init ++ [last]
       /\ Forall well_formed_block init
       /\ readTag last 0 = Ok block_info
       /\ buf_length last
          <= JsNumber.add (position block_info) (Asn1.length block_info).
Proof.
  apply split_der_loop_partitions.
Qed.

Lemma well_formed_two_bytes (block : Buffer) :
  well_formed_block block -> 2 <= buf_length block.
Proof.
  intros (block_info & Hread & _). exact (readTag_two_bytes _ _ Hread).
Qed.

Lemma check_blocks_well_formed (b : list Buffer) :
  forall sum out, check_blocks b sum = Ok out -> Forall well_formed_block b.
Proof.
  induction b as [|block b IH]; intros sum out; [constructor|].
  cbn [check_blocks].
  destruct (readTag block 0) as [block_info| |] eqn:Hread; try discriminate.
  cbn [mbind result_bind].
  destruct (Z.eqb_spec (JsNumber.add (position block_info) (Asn1.length block_info))
              (buf_length block)) as [Heq|]; [|discriminate].
  intros Hrest. constructor; [|exact (IH _ _ Hrest)].
  exists block_info. auto.
Qed.

Lemma sanity_check_accepts (certificates : list Buffer) :
  sanity_check certificates = Ok tt ->
  Forall (fun cert =>
            exists blocks,
              blocks <> [] /\ Forall well_formed_block blocks
              /\ concat blocks = cert) certificates.
Proof.
  induction certificates as [|cert certificates IH]; [constructor|].
  cbn [sanity_check].
  destruct (split_der cert) as [b| |] eqn:Hsplit; try discriminate.
  cbn [mbind result_bind].
  destruct (check_blocks b 0) as [sum| |] eqn:Hcheck; try discriminate.
  cbn [mbind result_bind].
  destruct (sum =? buf_length cert); [|discriminate].
  intros Hrest. constructor; [|exact (IH Hrest)].
  destruct (split_der_loop_partitions _ _ _ Hsplit)
    as (Hconcat & init & last & _ & -> & _).
  exists (init ++ [last]). split; [|split].
  - destruct init; discriminate.
  - exact (check_blocks_well_formed _ _ _ Hcheck).
  - exact Hconcat.
Qed.

(** X14: what [combine_der] accepts.  When it returns, the result is the
    certificates put end to end, and every certificate is itself one or
    more blocks, each exactly the extent its header declares: a
    certificate that is truncated or followed by stray bytes makes
    [combine_der] throw. *)
Theorem combine_der_accepts (certificates : list Buffer) (out : Buffer) :
  combine_der certificates = Ok out ->
  out = concat certificates
  /\ Forall (fun cert =>
               exists blocks,
                 blocks <> [] /\ Forall well_formed_block blocks
                 /\ concat blocks = cert) certificates.
Proof.
  unfold combine_der.
  destruct (sanity_check certificates) as [[]| |] eqn:Hcheck; try discriminate.
  cbn [mbind result_bind]. intros [= <-].
  split; [reflexivity | exact (sanity_check_accepts _ Hcheck)].
Qed.

Lemma concat_zero_length (blocks : list Buffer) :
  Forall well_formed_block blocks ->
  buf_length (concat blocks) <= 0 -> blocks = [].
Proof.
  destruct 1 as [|block blocks Hblock _]; [reflexivity|].
  apply well_formed_two_bytes in Hblock.
  cbn [concat]. unfold buf_length in *. rewrite length_app. lia.
Qed.

(** X15: splitting and combining again, for any buffer that [split_der]
    accepts.  [combine_der] returns on the blocks exactly when no block is
    truncated, that is when also the last block is the extent its header
    declares; and what it returns is the buffer. *)
Theorem split_then_combine (buf : Buffer) (chain : list Buffer) :
  split_der buf = Ok chain ->
  (Forall well_formed_block chain <-> combine_der chain = Ok buf)
  /\ (forall out, combine_der chain = Ok out -> out = buf).
Proof.
  intros Hsplit.
  destruct (split_der_loop_partitions _ _ _ Hsplit)
    as (Hconcat & init & last & block_info & -> & Hinit & Hread & Hshort).
  assert (Hout : forall out, combine_der (init ++ [last]) = Ok out -> out = buf).
  { intros out Hcombine.
    unfold combine_der in Hcombine.
    destruct (sanity_check (init ++ [last])) as [[]| |]; try discriminate.
    cbn [mbind result_bind] in Hcombine. injection Hcombine as <-. exact Hconcat. }
  split; [|exact Hout]. split.
  - intros Hall. unfold combine_der.
    rewrite (sanity_check_well_formed _ Hall). cbn [mbind result_bind].
    rewrite Hconcat. reflexivity.
  - intros Hcombine. apply Forall_app. split; [exact Hinit|].
    constructor; [|constructor].
    unfold combine_der in Hcombine.
    destruct (sanity_check (init ++ [last])) as [[]| |] eqn:Hcheck;
      try discriminate.
    apply sanity_check_accepts in Hcheck.
    apply Forall_app in Hcheck as [_ Hlast].
    inversion Hlast as [|? ? (blocks & Hne & Hblocks & Hcat) _]. subst.
    destruct blocks as [|first blocks]; [contradiction|].
    inversion Hblocks as [|? ? Hfirst Hrest]. subst.
    destruct Hfirst as (info & Hinfo & Hlen).
    cbn [concat] in Hread, Hshort.
    rewrite (readTag_app_l _ (concat blocks) _ Hinfo) in Hread.
    injection Hread as <-.
    rewrite Hlen in Hshort. unfold buf_length in Hshort.
    rewrite length_app in Hshort.
    assert (blocks = []) as ->.
    { apply concat_zero_length; [exact Hrest | unfold buf_length; lia]. }
    cbn [concat]. rewrite app_nil_r. exists info. auto.
Qed.

Lemma split_der_partitions_witness :
  concat [[x30; x01; xaa]; [x30; x05; xbb]] = [x30; x01; xaa; x30; x05; xbb]
  /\ exists init last block_info,
       [[x30; x01; xaa]; [x30; x05; xbb]] = init ++ [last]
       /\ Forall well_formed_block init
       /\ readTag last 0 = Ok block_info
       /\ buf_length last
          <= JsNumber.add (position block_info) (Asn1.length block_info).
Proof.
  apply (split_der_partitions [x30; x01; xaa; x30; x05; xbb]). reflexivity.
Defined.

Lemma combine_der_accepts_witness :
  [x30; x01; xaa; x04; x00] = concat [[x30; x01; xaa; x04; x00]]
  /\ Forall (fun cert =>
               exists blocks,
                 blocks <> [] /\ Forall well_formed_block blocks
                 /\ concat blocks = cert) [[x30; x01; xaa; x04; x00]].
Proof.
  apply (combine_der_accepts [[x30; x01; xaa; x04; x00]]). reflexivity.
Defined.

Lemma split_then_combine_witness :
  (Forall well_formed_block [[x30; x01; xaa]; [x30; x05; xbb]]
   <-> combine_der [[x30; x01; xaa]; [x30; x05; xbb]]
       = Ok [x30; x01; xaa; x30; x05; xbb])
  /\ (forall out,
        combine_der [[x30; x01; xaa]; [x30; x05; xbb]] = Ok out ->
        out = [x30; x01; xaa; x30; x05; xbb]).
Proof.
  apply (split_then_combine [x30; x01; xaa; x30; x05; xbb]). reflexivity.
Defined.

End DerOpsFacts.

(** * Properties of the readers built on the tag reader *)

Module Asn1OpsFacts.

Import Asn1 Der Asn1Ops Asn1Facts DerFacts DerOpsFacts Stdlib.Strings.Ascii.

(** ** Reading inside a larger buffer *)

Lemma readUInt8_skip (pre b : Buffer) (pos : Z) :
  0 <= pos ->
  readUInt8 (pre ++ b) (buf_length pre + pos) = readUInt8 b pos.
Proof.
  intros Hpos. unfold readUInt8, buf_length. rewrite length_app.
  destruct (Z.leb_spec 0 pos); [|lia].
  destruct (Z.leb_spec 0 (Z.of_nat (List.length pre) + pos)); [|lia].
  cbn [andb].
  destruct (Z.ltb_spec pos (Z.of_nat (List.length b)));
    destruct (Z.ltb_spec (Z.of_nat (List.length pre) + pos)
                (Z.of_nat (List.length pre + List.length b)));
    try lia; [|reflexivity].
  rewrite nth_error_app2 by lia.
  replace (Z.to_nat (Z.of_nat (List.length pre) + pos) - List.length pre)%nat
    with (Z.to_nat pos) by lia.
  reflexivity.
Qed.

Lemma readLongLength_skip (n : nat) (pre b : Buffer) (pos acc pos' len : Z) :
  0 <= pos ->
  readLongLength n b pos acc = Ok (pos', len) ->
  readLongLength n (pre ++ b) (buf_length pre + pos) acc
  = Ok (buf_length pre + pos', len).
Proof.
  revert pos acc. induction n as [|n IH]; intros pos acc Hpos Hloop.
  - cbn in *. injection Hloop as <- <-. reflexivity.
  - cbn [readLongLength] in *. rewrite readUInt8_skip by exact Hpos.
    destruct (readUInt8 b pos) as [v| |]; try discriminate.
    cbn [mbind result_bind] in *.
    rewrite <- Z.add_assoc. apply IH; [lia | exact Hloop].
Qed.

Lemma readTag_skip (pre b : Buffer) block_info :
  readTag b 0 = Ok block_info ->
  readTag (pre ++ b) (buf_length pre)
  = Ok {| tag := tag block_info;
          position := buf_length pre + position block_info;
          Asn1.length := Asn1.length block_info |}.
Proof.
  unfold readTag.
  destruct (Z.ltb_spec 0 0); [lia|].
  destruct (Z.leb_spec (buf_length b) 0); [discriminate|].
  destruct (Z.ltb_spec (buf_length pre) 0) as [Hneg|_].
  { unfold buf_length in Hneg. lia. }
  destruct (Z.leb_spec (buf_length (pre ++ b)) (buf_length pre)) as [Hle|_].
  { unfold buf_length in *. rewrite length_app in Hle. lia. }
  rewrite (eq_trans (f_equal (readUInt8 (pre ++ b))
                      (eq_sym (Z.add_0_r (buf_length pre))))
             (readUInt8_skip pre b 0 ltac:(lia))).
  destruct (readUInt8 b 0) as [t| |]; try discriminate.
  cbn [mbind result_bind]. change (0 + 1) with 1.
  rewrite (readUInt8_skip pre b 1) by lia.
  destruct (readUInt8 b 1) as [l| |]; try discriminate.
  cbn [mbind result_bind]. change (1 + 1) with 2.
  destruct (127 <? l).
  - destruct (readLongLength _ b 2 0) as [[pos' len]| |] eqn:Hr; try discriminate.
    cbn [mbind result_bind]. intros [= <-]. cbn [tag position Asn1.length].
    rewrite <- Z.add_assoc. change (1 + 1) with 2.
    rewrite (readLongLength_skip _ pre _ 2 _ _ _ ltac:(lia) Hr). reflexivity.
  - intros [= <-]. cbn [tag position Asn1.length].
    rewrite <- Z.add_assoc. reflexivity.
Qed.

Lemma readTag_at (pre b post : Buffer) block_info :
  readTag b 0 = Ok block_info ->
  readTag (pre ++ b ++ post) (buf_length pre)
  = Ok {| tag := tag block_info;
          position := buf_length pre + position block_info;
          Asn1.length := Asn1.length block_info |}.
Proof.
  intros Hread. apply readTag_skip, readTag_app_l, Hread.
Qed.

Lemma round_double_below (z : Z) :
  JsNumber.round_double z < 2 ^ 53 -> JsNumber.round_double z = z.
Proof.
  intros Hsmall. destruct (Z.lt_ge_cases z (2 ^ 53)) as [Hz|Hz].
  - apply round_double_safe. exact Hz.
  - pose proof (round_double_lower (2 ^ 53) z ltac:(lia) Hz). lia.
Qed.

Lemma slice_middle (pre b post : Buffer) (p : Z) :
  0 <= p <= buf_length b ->
  slice (pre ++ b ++ post) (buf_length pre + p) (buf_length pre + buf_length b)
  = slice_from b p.
Proof.
  unfold slice, slice_from, buf_length. intros Hp.
  rewrite skipn_app, (skipn_all2 pre) by lia. cbn [app].
  replace (Z.to_nat (Z.of_nat (List.length pre) + p) - List.length pre)%nat
    with (Z.to_nat p) by lia.
  rewrite skipn_app.
  replace (Z.to_nat p - List.length b)%nat with 0%nat by lia.
  change (skipn 0 post) with post.
  rewrite firstn_app.
  replace (Z.to_nat (Z.of_nat (List.length pre) + Z.of_nat (List.length b))
           - Z.to_nat (Z.of_nat (List.length pre) + p))%nat
    with (List.length (skipn (Z.to_nat p) b))
    by (rewrite length_skipn; lia).
  rewrite firstn_all, Nat.sub_diag. cbn [firstn]. apply app_nil_r.
Qed.

(** ** The children of a block *)

Lemma readStruct_loop_encoded (blocks : list Buffer) :
  Forall well_formed_block blocks ->
  forall (fuel : nat) (buf pre post : Buffer),
    (List.length blocks < fuel)%nat ->
    buf = pre ++ concat blocks ++ post ->
    buf_length buf < 2 ^ 53 ->
    exists infos,
      readStruct_loop fuel buf (buf_length pre)
        (buf_length pre + buf_length (concat blocks)) = Ok infos
      /\ Forall2 (fun info block =>
                    exists block_info,
                      readTag block 0 = Ok block_info
                      /\ tag info = tag block_info
                      /\ Asn1.length info = Asn1.length block_info
                      /\ _getBlock buf info
                         = slice_from block (position block_info))
           infos blocks.
Proof.
  induction 1 as [|block blocks Hblock Hblocks IH];
    intros fuel buf pre post Hfuel Hbuf Hsize.
  - destruct fuel as [|fuel]; [cbn in Hfuel; lia|].
    cbn [readStruct_loop concat]. change (buf_length []) with 0.
    rewrite Z.add_0_r, Z.ltb_irrefl. exists []. split; [reflexivity|constructor].
  - destruct fuel as [|fuel]; [cbn in Hfuel; lia|].
    cbn [List.length] in Hfuel. cbn [readStruct_loop concat].
    cbn [concat] in Hbuf.
    pose proof (well_formed_two_bytes _ Hblock) as Htwo.
    destruct Hblock as (block_info & Hread & Hlen).
    assert (Hsizes : buf_length buf
                     = buf_length pre + buf_length block
                       + buf_length (concat blocks) + buf_length post).
    { rewrite Hbuf. unfold buf_length. rewrite !length_app. lia. }
    assert (Hnonneg : 0 <= buf_length (concat blocks) /\ 0 <= buf_length post
                      /\ 0 <= buf_length pre).
    { unfold buf_length. lia. }
    destruct (Z.ltb_spec (buf_length pre)
                (buf_length pre + buf_length (block ++ concat blocks)))
      as [_|Hge].
    2:{ unfold buf_length in Hge, Htwo. rewrite length_app in Hge. lia. }
    assert (Hshape : buf = pre ++ block ++ (concat blocks ++ post)).
    { rewrite Hbuf, <- app_assoc. reflexivity. }
    assert (Hhead : readTag buf (buf_length pre)
                    = Ok {| tag := tag block_info;
                            position := buf_length pre + position block_info;
                            Asn1.length := Asn1.length block_info |}).
    { rewrite Hshape. apply readTag_at. exact Hread. }
    rewrite Hhead. cbn [mbind result_bind].
    cbn [position Asn1.length].
    pose proof (readTag_bounds _ _ Hread) as [Hp Hl].
    assert (Hexact : position block_info + Asn1.length block_info
                     = buf_length block).
    { unfold JsNumber.add in Hlen. rewrite <- Hlen.
      symmetry. apply round_double_below. rewrite Hlen. lia. }
    assert (Hcursor : JsNumber.add (buf_length pre + position block_info)
                        (Asn1.length block_info)
                      = buf_length (pre ++ block)).
    { unfold JsNumber.add. rewrite round_double_safe.
      - unfold buf_length in *. rewrite length_app. lia.
      - unfold JsNumber.MAX_SAFE. lia. }
    rewrite Hcursor.
    replace (buf_length pre + buf_length (block ++ concat blocks))
      with (buf_length (pre ++ block) + buf_length (concat blocks))
      by (unfold buf_length; rewrite !length_app; lia).
    destruct (IH fuel buf (pre ++ block) post ltac:(lia)
                ltac:(rewrite Hbuf, <- !app_assoc; reflexivity) Hsize)
      as (infos & -> & Hinfos).
    cbn [mbind result_bind]. eexists. split; [reflexivity|].
    constructor; [|exact Hinfos].
    exists block_info. cbn [tag Asn1.length].
    split; [exact Hread|]. split; [reflexivity|]. split; [reflexivity|].
    unfold _getBlock. cbn [position Asn1.length]. rewrite Hcursor.
    replace (buf_length (pre ++ block))
      with (buf_length pre + buf_length block)
      by (unfold buf_length; rewrite length_app; lia).
    rewrite Hshape. apply slice_middle. lia.
Qed.

(** X16: the children of an encoded block.  In a buffer of fewer than
    [2^53] bytes, when the content of a block is a sequence of blocks each
    exactly the extent its header declares, [_readStruct] returns one
    child per block, in order, with the tag and the length of that block's
    header, and [_getBlock] of the child is the content of that block. *)
Theorem readStruct_encoded (pre post : Buffer) (blocks : list Buffer) (t : Z) :
  Forall well_formed_block blocks ->
  buf_length (pre ++ concat blocks ++ post) < 2 ^ 53 ->
  exists infos,
    _readStruct (pre ++ concat blocks ++ post)
      {| tag := t; position := buf_length pre;
         Asn1.length := buf_length (concat blocks) |}
    = Ok infos
    /\ Forall2 (fun info block =>
                  exists block_info,
                    readTag block 0 = Ok block_info
                    /\ tag info = tag block_info
                    /\ Asn1.length info = Asn1.length block_info
                    /\ _getBlock (pre ++ concat blocks ++ post) info
                       = slice_from block (position block_info))
         infos blocks.
Proof.
  intros Hblocks Hsize. unfold _readStruct. cbn [position Asn1.length].
  assert (Hend : JsNumber.add (buf_length pre) (buf_length (concat blocks))
                 = buf_length pre + buf_length (concat blocks)).
  { unfold JsNumber.add. apply round_double_safe. unfold JsNumber.MAX_SAFE.
    unfold buf_length in *. rewrite !length_app in Hsize. lia. }
  rewrite Hend.
  apply (readStruct_loop_encoded blocks Hblocks _ _ pre post);
    [|reflexivity|exact Hsize].
  pose proof (block_count_le_length blocks Hblocks).
  rewrite !length_app. lia.
Qed.

Lemma readStruct_encoded_witness :
  exists infos,
    _readStruct ([x30; x06] ++ concat [[x02; x01; x05]; [x04; x01; x07]] ++ [xff])
      {| tag := 0x30; position := 2; Asn1.length := 6 |}
    = Ok infos
    /\ Forall2 (fun info block =>
                  exists block_info,
                    readTag block 0 = Ok block_info
                    /\ tag info = tag block_info
                    /\ Asn1.length info = Asn1.length block_info
                    /\ _getBlock
                         ([x30; x06] ++ concat [[x02; x01; x05]; [x04; x01; x07]]
                          ++ [xff]) info
                       = slice_from block (position block_info))
         infos [[x02; x01; x05]; [x04; x01; x07]].
Proof.
  apply (readStruct_encoded [x30; x06] [xff]
           [[x02; x01; x05]; [x04; x01; x07]] 0x30).
  - constructor; [|constructor; [|constructor]];
      eexists; (split; [reflexivity|]); reflexivity.
  - vm_compute. reflexivity.
Defined.

(** *** The loop of [_readStruct] ends *)

Lemma readLongLength_in_range (n : nat) (buf : Buffer) :
  forall (pos acc pos' len : Z),
    readLongLength n buf pos acc = Ok (pos', len) ->
    pos <= buf_length buf -> pos' <= buf_length buf.
Proof.
  induction n as [|n IH]; intros pos acc pos' len Hloop Hpos.
  - cbn in Hloop. injection Hloop as <- _. exact Hpos.
  - cbn [readLongLength] in Hloop.
    destruct (readUInt8 buf pos) as [v| |] eqn:Hv; try discriminate.
    cbn [mbind result_bind] in Hloop.
    apply readUInt8_in_range in Hv as [Hv _].
    apply (IH _ _ _ _ Hloop). lia.
Qed.

Lemma readTag_bounds_at (buf : Buffer) (pos : Z) block_info :
  readTag buf pos = Ok block_info ->
  0 <= pos
  /\ pos + 2 <= position block_info <= buf_length buf
  /\ 0 <= Asn1.length block_info.
Proof.
  unfold readTag.
  destruct (Z.ltb_spec pos 0); [discriminate|].
  destruct (buf_length buf <=? pos); [discriminate|].
  destruct (readUInt8 buf pos) as [t| |]; try discriminate.
  cbn [mbind result_bind].
  destruct (readUInt8 buf (pos + 1)) as [l| |] eqn:Hl; try discriminate.
  cbn [mbind result_bind].
  apply readUInt8_in_range in Hl as [Hrange Hl].
  destruct (127 <? l).
  - destruct (readLongLength _ buf (pos + 1 + 1) 0) as [[pos' len]| |] eqn:Hr;
      try discriminate.
    intros [= <-]. cbn [position Asn1.length].
    pose proof (readLongLength_in_range _ _ _ _ _ _ Hr ltac:(lia)) as Hin.
    destruct (readLongLength_bounds _ _ _ 0 _ _ ltac:(lia) Hr) as [-> Hlen].
    lia.
  - intros [= <-]. cbn [position Asn1.length]. lia.
Qed.

Lemma readStruct_loop_total (fuel : nat) (buf : Buffer) (end_ : Z) :
  buf_length buf <= 2 ^ 53 ->
  forall cursor : Z,
    (Z.to_nat (buf_length buf - cursor) < fuel)%nat ->
    readStruct_loop fuel buf cursor end_ <> OutOfFuel.
Proof.
  intros Hsize. induction fuel as [|fuel IH]; intros cursor Hfuel; [lia|].
  cbn [readStruct_loop].
  destruct (cursor <? end_); [|discriminate].
  destruct (readTag buf cursor) as [inner| |] eqn:Hinner;
    cbn [mbind result_bind]; try discriminate.
  2:{ exfalso. exact (readTag_total _ _ Hinner). }
  destruct (readTag_bounds_at _ _ _ Hinner) as (Hcursor & Hposition & Hlength).
  assert (Hnext : position inner
                  <= JsNumber.add (position inner) (Asn1.length inner)).
  { unfold JsNumber.add. apply round_double_lower; lia. }
  specialize (IH (JsNumber.add (position inner) (Asn1.length inner))
                ltac:(lia)).
  destruct (readStruct_loop fuel buf _ end_) as [blocks| |];
    cbn [mbind result_bind];
    [discriminate | discriminate | exfalso; apply IH; reflexivity].
Qed.

(** [_readStruct] returns or throws on every buffer a program can hold *)
Lemma readStruct_total (buf : Buffer) (blockInfo : BlockInfo) :
  buf_length buf <= 2 ^ 53 ->
  0 <= position blockInfo ->
  _readStruct buf blockInfo <> OutOfFuel.
Proof.
  intros Hsize Hposition. unfold _readStruct.
  apply readStruct_loop_total; [exact Hsize|]. unfold buf_length. lia.
Qed.

(** ** Small integers *)

Lemma nth_error_skipn {A} (l : list A) (i : nat) (x : A) :
  nth_error l i = Some x -> skipn i l = x :: skipn (S i) l.
Proof.
  revert i. induction l as [|y l IH]; intros [|i]; cbn; try discriminate.
  - intros [= ->]. reflexivity.
  - intros Hnth. exact (IH i Hnth).
Qed.

Lemma readLongLength_value (n : nat) :
  forall (buf : Buffer) (pos acc pos' v : Z),
    readLongLength n buf pos acc = Ok (pos', v) ->
    0 <= acc ->
    (acc + 1) * 256 ^ Z.of_nat n <= 2 ^ 53 ->
    v = fold_left (fun a b => a * 256 + byte_val b)
          (firstn n (skipn (Z.to_nat pos) buf)) acc
    /\ 0 <= v < (acc + 1) * 256 ^ Z.of_nat n
    /\ (n <> 0%nat -> 0 <= pos).
Proof.
  induction n as [|n IH]; intros buf pos acc pos' v Hloop Hacc Hsafe.
  - cbn in Hloop. injection Hloop as <- <-. cbn. split; [reflexivity|].
    split; [lia | congruence].
  - cbn [readLongLength] in Hloop.
    destruct (readUInt8 buf pos) as [b0| |] eqn:Hb0; try discriminate.
    cbn [mbind result_bind] in Hloop.
    pose proof (readUInt8_in_range _ _ _ Hb0) as [Hpos _].
    unfold readUInt8 in Hb0.
    destruct ((0 <=? pos) && (pos <? buf_length buf)); [|discriminate].
    destruct (nth_error buf (Z.to_nat pos)) as [x|] eqn:Hnth; [|discriminate].
    injection Hb0 as <-.
    pose proof (byte_val_range x) as Hx.
    rewrite Nat2Z.inj_succ, Z.pow_succ_r in Hsafe by lia.
    assert (Hpow : 0 < 256 ^ Z.of_nat n) by (apply Z.pow_pos_nonneg; lia).
    assert (Hstep : JsNumber.add (acc * 256) (byte_val x) = acc * 256 + byte_val x).
    { unfold JsNumber.add. apply round_double_safe. unfold JsNumber.MAX_SAFE. nia. }
    rewrite Hstep in Hloop.
    destruct (IH buf (pos + 1) (acc * 256 + byte_val x) pos' v Hloop
                ltac:(lia) ltac:(nia)) as (Hv & Hbound & _).
    rewrite (nth_error_skipn _ _ _ Hnth). cbn [firstn fold_left].
    replace (S (Z.to_nat pos)) with (Z.to_nat (pos + 1)) by lia.
    split; [exact Hv|]. split; [|lia].
    rewrite Nat2Z.inj_succ, Z.pow_succ_r by lia. nia.
Qed.

(** X17: what [_readIntegerValue] returns.  The block has the tag INTEGER
    and fewer than four content bytes, and the value is these bytes read
    as one unsigned number, most significant byte first: it is below
    [2^24] and never negative, although a DER INTEGER is signed. *)
Theorem readIntegerValue_value (buffer : Buffer) (block : BlockInfo) (v : Z) :
  _readIntegerValue buffer block = Ok v ->
  tag block = 0x02
  /\ Asn1.length block < 4
  /\ v = big_endian
           (slice buffer (position block) (position block + Asn1.length block))
  /\ 0 <= v < 2 ^ 24.
Proof.
  unfold _readIntegerValue, INTEGER.
  destruct (Z.eqb_spec (tag block) 2) as [Htag|]; [|discriminate].
  destruct (Z.ltb_spec (Asn1.length block) 4) as [Hlen|]; [|discriminate].
  cbn [negb].
  destruct (readLongLength _ buffer (position block) 0) as [[pos' value]| |] eqn:Hloop;
    try discriminate.
  cbn [mbind result_bind]. intros [= <-].
  assert (Hpow : 256 ^ Z.of_nat (Z.to_nat (Asn1.length block)) <= 256 ^ 3).
  { apply Z.pow_le_mono_r; lia. }
  destruct (readLongLength_value _ _ _ _ _ _ Hloop ltac:(lia) ltac:(lia))
    as (Hv & Hbound & Hpos).
  split; [exact Htag|]. split; [exact Hlen|]. split; [|lia].
  rewrite Hv. unfold big_endian, slice. f_equal. f_equal.
  destruct (Z.to_nat (Asn1.length block)) eqn:Hn; [lia|].
  specialize (Hpos ltac:(discriminate)). lia.
Qed.

Lemma big_endian_bound (bs : list byte) :
  big_endian bs < 256 ^ Z.of_nat (List.length bs).
Proof.
  induction bs as [|b bs IH] using rev_ind; [cbn; lia|].
  rewrite big_endian_snoc, length_app, Nat2Z.inj_add, Z.pow_add_r by lia.
  pose proof (byte_val_range b). pose proof (big_endian_nonneg bs).
  cbn [List.length]. change (256 ^ Z.of_nat 1) with 256. nia.
Qed.

Lemma readTag_short (t l : byte) (rest : Buffer) :
  byte_val l <= 127 ->
  readTag (t :: l :: rest) 0
  = Ok {| tag := byte_val t; position := 2; Asn1.length := byte_val l |}.
Proof.
  intros Hshort. unfold readTag.
  destruct (Z.ltb_spec 0 0); [lia|].
  destruct (Z.leb_spec (buf_length (t :: l :: rest)) 0) as [Hle|_].
  { unfold buf_length in Hle. cbn in Hle. lia. }
  rewrite (readUInt8_app [] t (l :: rest) : readUInt8 (t :: l :: rest) 0 = _).
  cbn [mbind result_bind].
  rewrite (readUInt8_app [t] l rest : readUInt8 (t :: l :: rest) (0 + 1) = _).
  cbn [mbind result_bind].
  destruct (Z.ltb_spec 127 (byte_val l)); [lia | reflexivity].
Qed.

(** X18: the version field, read back.  Where the buffer holds, from the
    position of the block on, an INTEGER of at most three content bytes,
    [_readVersionValue] returns these bytes as one unsigned number; the
    tag and the length of the block it is given are not looked at. *)
Theorem readVersionValue_encoded
  (pre bs post : Buffer) (l : byte) (t len : Z) :
  byte_val l = buf_length bs ->
  buf_length bs <= 3 ->
  _readVersionValue (pre ++ x02 :: l :: bs ++ post)
    {| tag := t; position := buf_length pre; Asn1.length := len |}
  = Ok (big_endian bs).
Proof.
  intros Hl Hshort. unfold _readVersionValue. cbn [position].
  rewrite (readTag_at pre (x02 :: l :: bs) post _
             (readTag_short x02 l bs ltac:(lia))
           : readTag (pre ++ x02 :: l :: bs ++ post) (buf_length pre) = _).
  cbn [mbind result_bind tag position Asn1.length].
  unfold _readIntegerValue, INTEGER. cbn [tag position Asn1.length].
  change (byte_val x02 =? 2) with true. cbn [negb].
  destruct (Z.ltb_spec (byte_val l) 4); [|lia]. cbn [negb].
  rewrite Hl. unfold buf_length at 1. rewrite Nat2Z.id.
  pose proof (readLongLength_exact bs (pre ++ [x02; l]) [] post) as Hexact.
  cbn [app] in Hexact. rewrite !app_nil_r, <- !app_assoc in Hexact.
  cbn [app] in Hexact.
  replace (buf_length (pre ++ [x02; l])) with (buf_length pre + 2) in Hexact
    by (unfold buf_length; rewrite length_app; cbn [List.length]; lia).
  change (big_endian []) with 0 in Hexact.
  rewrite Hexact; [reflexivity|].
  pose proof (big_endian_bound bs) as Hbound.
  assert (256 ^ Z.of_nat (List.length bs) <= 256 ^ 3).
  { apply Z.pow_le_mono_r; unfold buf_length in Hshort; lia. }
  unfold JsNumber.MAX_SAFE. lia.
Qed.

Lemma readIntegerValue_value_witness :
  0x02 = 0x02 /\ 2 < 4
  /\ 0x0102 = big_endian (slice [xa0; x04; x02; x02; x01; x02] 4 (4 + 2))
  /\ 0 <= 0x0102 < 2 ^ 24.
Proof.
  apply (readIntegerValue_value [xa0; x04; x02; x02; x01; x02]
           {| tag := 0x02; position := 4; Asn1.length := 2 |} 0x0102).
  reflexivity.
Defined.

Lemma readVersionValue_encoded_witness :
  _readVersionValue ([xa0; x03] ++ x02 :: x01 :: [x02] ++ [xff])
    {| tag := 0xa0; position := 2; Asn1.length := 3 |}
  = Ok 2.
Proof.
  apply (readVersionValue_encoded [xa0; x03] [x02] [xff] x01 0xa0 3).
  - reflexivity.
  - vm_compute. discriminate.
Defined.

(** ** The text of a key identifier *)

(** the two characters [formatBuffer2DigitHexWithColum] writes for a byte *)
Lemma hex_of_byte (b : byte) :
  exists c1 c2,
    toUpperCase (substr_last2 ("00" ++ toString16 (byte_val b)))
    = String c1 (String c2 EmptyString)
    /\ c1 <> ":"%char
    /\ HexString.Raw.to_N (String c1 (String c2 EmptyString)) 0 = Byte.to_N b
    /\ (b = x00 <-> c1 = "0"%char /\ c2 = "0"%char).
Proof.
  destruct b; eexists; eexists; (split; [vm_compute; reflexivity|]);
    (split; [discriminate|]); (split; [vm_compute; reflexivity|]);
    (split; [try discriminate; auto | intros [? ?]; try discriminate; reflexivity]).
Qed.

Lemma append_cons (c : ascii) (s t : string) :
  (String c s ++ t)%string = String c (s ++ t)%string.
Proof. reflexivity. Qed.

Lemma append_two (c1 c2 : ascii) (s : string) :
  (String c1 (String c2 EmptyString) ++ ":" ++ s)%string
  = String c1 (String c2 (String ":" s)).
Proof. reflexivity. Qed.

Lemma toUpperCase_app (s t : string) :
  toUpperCase (s ++ t)%string = (toUpperCase s ++ toUpperCase t)%string.
Proof.
  induction s as [|c s IH]; [reflexivity|].
  rewrite append_cons. cbn [toUpperCase]. rewrite IH. reflexivity.
Qed.

Lemma concat_cons2 (sep x y : string) (l : list string) :
  String.concat sep (x :: y :: l)
  = (x ++ sep ++ String.concat sep (y :: l))%string.
Proof. reflexivity. Qed.

Lemma concat_single (sep x : string) : String.concat sep [x] = x.
Proof. reflexivity. Qed.

Lemma toUpperCase_concat (l : list string) :
  toUpperCase (String.concat ":" l) = String.concat ":" (map toUpperCase l).
Proof.
  induction l as [|x l IH]; [reflexivity|].
  destruct l as [|y l]; [reflexivity|].
  cbn [map] in *. rewrite !concat_cons2, !toUpperCase_app, IH. reflexivity.
Qed.

Lemma stripLeading00_two (c1 c2 : ascii) :
  stripLeading00 (String c1 (String c2 EmptyString))
  = String c1 (String c2 EmptyString).
Proof.
  destruct c1 as [[|] [|] [|] [|] [|] [|] [|] [|]]; try reflexivity.
  destruct c2 as [[|] [|] [|] [|] [|] [|] [|] [|]]; reflexivity.
Qed.

Lemma stripLeading00_other (c1 c2 : ascii) (s : string) :
  ~ (c1 = "0"%char /\ c2 = "0"%char) ->
  stripLeading00 (String c1 (String c2 s)) = String c1 (String c2 s).
Proof.
  intros Hother.
  destruct c1 as [[|] [|] [|] [|] [|] [|] [|] [|]]; try reflexivity.
  destruct c2 as [[|] [|] [|] [|] [|] [|] [|] [|]]; try reflexivity.
  exfalso. apply Hother. split; reflexivity.
Qed.

Lemma dropLeadingZeros_single (b : byte) : dropLeadingZeros [b] = [b].
Proof. destruct b; reflexivity. Qed.

Lemma dropLeadingZeros_other (b : byte) (l : Buffer) :
  b <> x00 -> dropLeadingZeros (b :: l) = b :: l.
Proof. destruct b; try reflexivity. contradiction. Qed.

Lemma stripLeading00_text (buffer : Buffer) :
  stripLeading00
    (String.concat ":"
       (map (fun b => toUpperCase (substr_last2 ("00" ++ toString16 (byte_val b))))
          buffer))
  = String.concat ":"
      (map (fun b => toUpperCase (substr_last2 ("00" ++ toString16 (byte_val b))))
         (dropLeadingZeros buffer)).
Proof.
  induction buffer as [|b buffer IH]; [reflexivity|].
  destruct buffer as [|b' rest].
  - rewrite dropLeadingZeros_single. cbn [map]. rewrite concat_single.
    destruct (hex_of_byte b) as (c1 & c2 & -> & _).
    apply stripLeading00_two.
  - cbn [map]. rewrite concat_cons2. cbn [map] in IH.
    destruct (hex_of_byte b) as (c1 & c2 & Htext & _ & _ & Hzero).
    rewrite Htext, append_two.
    destruct (ascii_dec c1 "0") as [->|Hc1];
      [destruct (ascii_dec c2 "0") as [->|Hc2]|].
    + assert (b = x00) as -> by (apply Hzero; split; reflexivity).
      change (dropLeadingZeros (x00 :: b' :: rest))
        with (dropLeadingZeros (b' :: rest)).
      exact IH.
    + rewrite dropLeadingZeros_other by (intros Hb; apply Hzero in Hb; tauto).
      cbn [map]. rewrite concat_cons2, Htext, append_two.
      apply stripLeading00_other. tauto.
    + rewrite dropLeadingZeros_other by (intros Hb; apply Hzero in Hb; tauto).
      cbn [map]. rewrite concat_cons2, Htext, append_two.
      apply stripLeading00_other. tauto.
Qed.

Lemma formatBuffer2DigitHexWithColum_text (buffer : Buffer) :
  formatBuffer2DigitHexWithColum buffer
  = String.concat ":"
      (map (fun b => toUpperCase (substr_last2 ("00" ++ toString16 (byte_val b))))
         (dropLeadingZeros buffer)).
Proof.
  unfold formatBuffer2DigitHexWithColum.
  rewrite toUpperCase_concat, map_map. apply stripLeading00_text.
Qed.

Lemma hex_of_byte_inj (b b' : byte) (c1 c2 : ascii) :
  toUpperCase (substr_last2 ("00" ++ toString16 (byte_val b)))
  = String c1 (String c2 EmptyString) ->
  toUpperCase (substr_last2 ("00" ++ toString16 (byte_val b')))
  = String c1 (String c2 EmptyString) ->
  b = b'.
Proof.
  intros Hb Hb'.
  destruct (hex_of_byte b) as (d1 & d2 & Hd & _ & Hn & _).
  destruct (hex_of_byte b') as (d1' & d2' & Hd' & _ & Hn' & _).
  rewrite Hb in Hd. rewrite Hb' in Hd'. rewrite <- Hd in Hn. rewrite <- Hd' in Hn'.
  assert (Hsome : Some b = Some b').
  { rewrite <- (Byte.of_to_N b), <- (Byte.of_to_N b'), <- Hn, <- Hn'. reflexivity. }
  injection Hsome as ->. reflexivity.
Qed.

Lemma concat_text_inj (l : Buffer) :
  forall l' : Buffer,
    String.concat ":"
      (map (fun b => toUpperCase (substr_last2 ("00" ++ toString16 (byte_val b)))) l)
    = String.concat ":"
        (map (fun b => toUpperCase (substr_last2 ("00" ++ toString16 (byte_val b))))
           l') ->
    l = l'.
Proof.
  induction l as [|b l IH]; intros [|b' l'].
  - reflexivity.
  - destruct l' as [|b2' l']; cbn [map];
      change (String.concat ":" []) with EmptyString;
      rewrite ?concat_single, ?concat_cons2;
      destruct (hex_of_byte b') as (c1' & c2' & -> & _); rewrite ?append_two;
      discriminate.
  - destruct l as [|b2 l]; cbn [map];
      change (String.concat ":" []) with EmptyString;
      rewrite ?concat_single, ?concat_cons2;
      destruct (hex_of_byte b) as (c1 & c2 & -> & _); rewrite ?append_two;
      discriminate.
  - destruct (hex_of_byte b) as (c1 & c2 & Hb & _).
    destruct (hex_of_byte b') as (c1' & c2' & Hb' & _).
    destruct l as [|b2 l]; destruct l' as [|b2' l'];
      cbn [map]; rewrite ?concat_single, ?concat_cons2; rewrite Hb, Hb';
      rewrite ?append_two.
    + intros [= <- <-]. f_equal. exact (hex_of_byte_inj _ _ _ _ Hb Hb').
    + intros [= _ _ Hrest].
    + intros [= _ _ Hrest].
    + intros [= <- <- Hrest].
      f_equal; [exact (hex_of_byte_inj _ _ _ _ Hb Hb')|].
      apply IH. exact Hrest.
Qed.

(** X19: leading zero bytes do not show in the text of a key identifier or
    serial number.  Two buffers get the same text from
    [formatBuffer2DigitHexWithColum] exactly when they are equal once their
    leading zero bytes are dropped (the last byte is kept): the text tells
    [00 8F] from [8F 00] but not from [8F]. *)
Theorem formatBuffer2DigitHexWithColum_leading_zeros (b1 b2 : Buffer) :
  formatBuffer2DigitHexWithColum b1 = formatBuffer2DigitHexWithColum b2
  <-> dropLeadingZeros b1 = dropLeadingZeros b2.
Proof.
  rewrite !formatBuffer2DigitHexWithColum_text. split.
  - apply concat_text_inj.
  - intros ->. reflexivity.
Qed.

(** ** Bit strings *)

Lemma length_append (s t : string) :
  String.length (s ++ t)%string = (String.length s + String.length t)%nat.
Proof.
  induction s as [|c s IH]; [reflexivity|].
  rewrite append_cons. cbn [String.length]. rewrite IH. reflexivity.
Qed.

Lemma length_string_of_list_ascii (l : list ascii) :
  String.length (string_of_list_ascii l) = List.length l.
Proof.
  induction l as [|c l IH]; [reflexivity|]. cbn. rewrite IH. reflexivity.
Qed.

Lemma length_bitsOf_0 (b : Z) : String.length (bitsOf b 0) = 8%nat.
Proof.
  unfold bitsOf. rewrite length_string_of_list_ascii, length_map, length_seq.
  reflexivity.
Qed.

Lemma parseBitString_loop_rest (n : nat) :
  forall (buffer : Buffer) (i : Z) (s out : string) (maxLength : Z),
    parseBitString_loop n buffer i 0 s maxLength = Ok out ->
    n <> 0%nat ->
    Z.of_nat (String.length s) + 8 * Z.of_nat n <= maxLength.
Proof.
  induction n as [|n IH]; intros buffer i s out maxLength Hloop Hn; [congruence|].
  cbn [parseBitString_loop] in Hloop.
  destruct (readUInt8 buffer i) as [b| |]; try discriminate.
  cbn [mbind result_bind] in Hloop.
  destruct (Z.leb_spec (Z.of_nat (String.length (s ++ bitsOf b 0)%string)) maxLength)
    as [Hle|]; [|discriminate].
  rewrite length_append, length_bitsOf_0 in Hle.
  destruct n as [|n]; [lia|].
  specialize (IH _ _ _ _ _ Hloop ltac:(discriminate)).
  rewrite length_append, length_bitsOf_0 in IH. lia.
Qed.

Lemma parseBitString_loop_limit (n : nat) (buffer : Buffer) (i skip : Z)
  (out : string) (maxLength : Z) :
  parseBitString_loop n buffer i skip EmptyString maxLength = Ok out ->
  n <> 0%nat ->
  8 * (Z.of_nat n - 1) <= maxLength
  /\ 0 <= i < buf_length buffer.
Proof.
  destruct n as [|n]; [congruence|]. intros Hloop _.
  cbn [parseBitString_loop] in Hloop.
  destruct (readUInt8 buffer i) as [b| |] eqn:Hb; try discriminate.
  cbn [mbind result_bind] in Hloop.
  apply readUInt8_in_range in Hb as [Hi _].
  split; [|exact Hi].
  destruct (Z.leb_spec
              (Z.of_nat (String.length (EmptyString ++ bitsOf b skip)%string))
              maxLength) as [Hle|]; [|discriminate].
  destruct n as [|n]; [lia|].
  pose proof (parseBitString_loop_rest _ _ _ _ _ _ Hloop ltac:(discriminate)).
  lia.
Qed.

(** X21: the limit of [_readBitString].  What it returns has at most 626
    content bytes: the text it builds for [debug] is checked against 5000
    characters, one per bit, so a longer bit string (the signature of an
    8192-bit RSA key, say) ends in an AssertionError.  When it returns, the
    block has the tag BIT STRING and lies within the buffer, [data] is its
    content without the first byte, and [lengthInBytes] is the length of
    [data]. *)
Theorem readBitString_limit (buffer : Buffer) (block : BlockInfo)
  (bitString : BitString) :
  _readBitString buffer block = Ok bitString ->
  tag block = 0x03
  /\ data bitString = slice_from (_getBlock buffer block) 1
  /\ lengthInBytes bitString = buf_length (data bitString)
  /\ lengthInBytes bitString <= 626.
Proof.
  unfold _readBitString, BIT_STRING.
  destruct (Z.eqb_spec (tag block) 3) as [Htag|]; [|discriminate]. cbn [negb].
  destruct (readUInt8 (_getBlock buffer block) 0) as [ignore_bits| |] eqn:Hignore;
    try discriminate.
  cbn [mbind result_bind].
  destruct (parseBitString _ _ _ _) as [text| |] eqn:Htext; try discriminate.
  cbn [mbind result_bind]. intros [= <-]. cbn [data lengthInBytes].
  split; [exact Htag|]. split; [reflexivity|].
  apply readUInt8_in_range in Hignore as [Hdata _].
  assert (Hrest : buf_length (slice_from (_getBlock buffer block) 1)
                  = buf_length (_getBlock buffer block) - 1).
  { unfold slice_from, buf_length in *. rewrite length_skipn. lia. }
  split; [symmetry; exact Hrest|].
  revert Htext. unfold parseBitString.
  destruct (readUInt8 buffer (position block)) as [unusedBit| |] eqn:Hunused;
    try discriminate.
  cbn [mbind result_bind].
  apply readUInt8_in_range in Hunused as [Hstart _].
  set (end_ := JsNumber.add (Asn1.length block) (position block)) in *.
  destruct (parseBitString_loop _ buffer (end_ - 1) unusedBit EmptyString 5000)
    as [s| |] eqn:Hloop; try discriminate.
  intros _.
  assert (Hlen : buf_length (_getBlock buffer block)
                 <= Z.max 0 (JsNumber.add (position block) (Asn1.length block)
                             - position block)).
  { unfold _getBlock, slice, buf_length. rewrite length_firstn. lia. }
  replace (JsNumber.add (position block) (Asn1.length block)) with end_ in Hlen
    by (unfold end_, JsNumber.add; rewrite Z.add_comm; reflexivity).
  destruct (Z.to_nat (end_ - 1 - position block)) as [|n] eqn:Hn; [lia|].
  destruct (parseBitString_loop_limit _ _ _ _ _ _ Hloop ltac:(discriminate))
    as [Hlimit _].
  lia.
Qed.

Lemma readBitString_limit_witness :
  0x03 = 0x03
  /\ [xa5; x0f] = slice_from
                    (_getBlock [x03; x03; x00; xa5; x0f]
                       {| tag := 0x03; position := 2; Asn1.length := 3 |}) 1
  /\ 2 = buf_length [xa5; x0f]
  /\ 2 <= 626.
Proof.
  eapply (readBitString_limit [x03; x03; x00; xa5; x0f]
            {| tag := 0x03; position := 2; Asn1.length := 3 |}
            (mkBitString 24 2 [xa5; x0f] _)).
  reflexivity.
Defined.

End Asn1OpsFacts.
